(** * INVASE feature-importance engine: a shallow embedding of
      [src/invase/method.py] and the properties established about it.

    Conventions of the embedding.
    - Python [int]s are [Z]; tensor and array entries are rationals [Q];
      integer tensors are lists of [Z] and are promoted to [Q] where the
      source mixes them with floating tensors.
    - Floating-point formats are roundings of [Q] (see [Rounding]).  The
      conversion to float32 is applied where the source converts, with
      [.float()], a result that may be held in another format: the
      output of the masking layer and the normalised target of the
      classification builders; the normalisation of that target rounds
      every operation to the format the losses are held in.
      The arithmetic of the critic, of the estimator's losses and of their
      accumulation is exact.
    - The type of the elements of the masking values (numpy's dtype)
      decides how line 87 compares them with the float32 features and what
      the assignment of -1 stores.
    - A 1-D tensor is a list, a 2-D tensor a list of rows, a 3-D tensor a
      list of matrices.
    - A Python generator is the list of the values it yields, in order.
    - The two global random generators (numpy's and torch's) are tapes of
      natural numbers threaded through the computation; a tape that has run
      out keeps producing 0.  Only which outcomes are possible is modelled,
      not their probabilities.
    - A raised exception is an [Err] result.
    - The wrapped estimator is a function from a batch to its predictions,
      one row per instance; labels and predictions are matrices (one row
      per instance, one column per class or horizon).
    - [.to(DEVICE)], [.detach()], [.cpu()], [.numpy()], the progress bar
      and the log are the identity or have no effect here; so is [.float()]
      on the inputs, which are taken to be float32 tensors already.
    - The training loop is embedded from the first epoch on, over the
      training and validation parts and the labels it holds then; the
      split of the data and the [.squeeze()] of the labels that precede it
      (lines 170-176) are not part of the embedding. *)

From Stdlib Require Import String ZArith QArith Qminmax Qabs Qround List Bool Lia Permutation.
Import ListNotations.

Local Open Scope Z_scope.

(* ===================================================================== *)
(** ** Python and numpy helpers *)
(* ===================================================================== *)

Module Py.

(** [range(lo, hi)] *)
Definition range (lo hi : Z) : list Z :=
  map (fun i => lo + Z.of_nat i) (seq 0 (Z.to_nat (hi - lo))).

(** [range(lo, hi, step)] for a positive step. *)
Definition range_step (lo hi step : Z) : list Z :=
  map (fun i => lo + Z.of_nat i * step)
      (seq 0 (Z.to_nat ((hi - lo + step - 1) / step))).

(** [[v] * n]: the empty list when [n] is not positive. *)
Definition replicate {A} (v : A) (n : Z) : list A := repeat v (Z.to_nat n).

(** Normalisation of one slice bound against a sequence of length [len]:
    a negative bound counts from the end, and everything is clamped. *)
Definition slice_bound (len i : Z) : Z :=
  if i <? 0 then Z.max 0 (i + len) else Z.min i len.

(** [l[start:stop]] *)
Definition slice {A} (l : list A) (start stop : Z) : list A :=
  let len := Z.of_nat (length l) in
  let s := slice_bound len start in
  let e := slice_bound len stop in
  firstn (Z.to_nat (e - s)) (skipn (Z.to_nat s) l).

(** [itertools.islice(gen, k)] on a generator given by the list of what it
    still has to yield: the window taken and the rest of the generator. *)
Definition islice {A} (gen : list A) (k : nat) : list A * list A :=
  (firstn k gen, skipn k gen).

End Py.

(* ===================================================================== *)
(** ** The Bitmask Enumerator *)
(* ===================================================================== *)

(** [bitmasks(n, m)].  The recursive calls are made only when [0 < m < n],
    on [n - 1]; the fuel counts them and [Z.to_nat n] is enough. *)
Fixpoint bitmasks_rec (fuel : nat) (n m : Z) : list (list Z) :=
  if m <? n then
    if 0 <? m then
      match fuel with
      | O => []
      | S fuel' =>
          map (cons 1) (bitmasks_rec fuel' (n - 1) (m - 1))
          ++ map (cons 0) (bitmasks_rec fuel' (n - 1) m)
      end
    else [Py.replicate 0 n]
  else [Py.replicate 1 n].

Definition bitmasks (n m : Z) : list (list Z) := bitmasks_rec (Z.to_nat n) n m.

(** [bitmask_intervals(n, low, high)]: each yielded mask is an integer
    tensor with the entries of the list. *)
Definition bitmask_intervals (n low high : Z) : list (list Z) :=
  flat_map (fun k => bitmasks n k) (Py.range low high).

(** The mask that hides position [p] only, among [n] positions. *)
Definition leave_one_out (n p : nat) : list Z :=
  repeat 1 p ++ 0 :: repeat 1 (n - 1 - p).

(** Positions of the zero bits of a mask, counted from [i]. *)
Fixpoint zero_positions_from (i : nat) (mask : list Z) : list nat :=
  match mask with
  | [] => []
  | b :: mask' =>
      if b =? 0 then i :: zero_positions_from (S i) mask'
      else zero_positions_from (S i) mask'
  end.

Definition zero_positions (mask : list Z) : list nat := zero_positions_from 0 mask.

(* ===================================================================== *)
(** ** Exceptions, the random generators and the computation monad *)
(* ===================================================================== *)

Inductive PyError : Type :=
| RuntimeError (msg : string)   (* a [raise RuntimeError(msg)] of the source *)
| IndexError                    (* indexing past the end, raised by the library *)
| ValueError                    (* raised by numpy *)
| AttributeError                (* a method the estimator does not have *)
| ValidationError               (* raised by pydantic's [validate_arguments] *)
| ZeroDivisionError
| TorchError                    (* shape or reduction error raised by torch *)
| NaN                           (* not an exception: a nan value, which has
                                   no rational counterpart *)
| OutOfFuel.                    (* never produced: see [window_loop_fuel] *)

Inductive Result (A : Type) : Type :=
| Ok (a : A)
| Err (e : PyError).
Arguments Ok {A} a.
Arguments Err {A} e.

(** The state of the two global generators. *)
Record World : Type := mkWorld {
  np_rng : list nat;
  torch_rng : list nat
}.

Definition M (A : Type) : Type := World -> Result (A * World).

Definition ret {A} (a : A) : M A := fun w => Ok (a, w).

Definition raise {A} (e : PyError) : M A := fun _ => Err e.

Definition bind {A B} (c : M A) (k : A -> M B) : M B :=
  fun w => match c w with
           | Ok (a, w') => k a w'
           | Err e => Err e
           end.

Definition lift {A} (r : Result A) : M A :=
  fun w => match r with
           | Ok a => Ok (a, w)
           | Err e => Err e
           end.

Declare Scope py_scope.
Delimit Scope py_scope with py.
Notation "x <- c ;; k" := (bind c (fun x => k))
  (at level 61, c at next level, right associativity) : py_scope.
Notation "' pat <- c ;; k" := (bind c (fun x => match x with pat => k end))
  (at level 61, pat pattern, c at next level, right associativity) : py_scope.
Local Open Scope py_scope.

(** [for a in l: acc = body(a, acc)] *)
Fixpoint for_each {A St} (l : list A) (body : A -> St -> M St) (acc : St) : M St :=
  match l with
  | [] => ret acc
  | a :: l' => acc' <- body a acc ;; for_each l' body acc'
  end.

(** [[f(a) for a in l]], evaluated left to right. *)
Fixpoint map_m {A B} (f : A -> M B) (l : list A) : M (list B) :=
  match l with
  | [] => ret []
  | a :: l' => b <- f a ;; bs <- map_m f l' ;; ret (b :: bs)
  end.

Definition draw (tape : list nat) : nat * list nat :=
  match tape with
  | [] => (0%nat, [])
  | r :: tape' => (r, tape')
  end.

Definition np_draw : M nat :=
  fun w => let (r, t) := draw (np_rng w) in Ok (r, mkWorld t (torch_rng w)).

Definition torch_draw : M nat :=
  fun w => let (r, t) := draw (torch_rng w) in Ok (r, mkWorld (np_rng w) t).

(** Removal of the element at position [i]. *)
Fixpoint remove_nth {A} (i : nat) (l : list A) : list A :=
  match l, i with
  | [], _ => []
  | _ :: l', O => l'
  | a :: l', S i' => a :: remove_nth i' l'
  end.

(** A uniformly random permutation, as a selection shuffle: a draw picks
    which of the remaining elements comes next. *)
Fixpoint shuffle_with {A} (draw_one : M nat) (fuel : nat) (l : list A) : M (list A) :=
  match fuel, l with
  | S fuel', a :: _ =>
      r <- draw_one ;;
      let i := (r mod length l)%nat in
      rest <- shuffle_with draw_one fuel' (remove_nth i l) ;;
      ret (nth i l a :: rest)
  | _, _ => ret []
  end.

(** [np.random.shuffle(l)]: the new content of the array. *)
Definition np_random_shuffle {A} (l : list A) : M (list A) :=
  shuffle_with np_draw (length l) l.

(** [torch.randperm(n)] *)
Definition torch_randperm (n : nat) : M (list nat) :=
  shuffle_with torch_draw n (seq 0 n).

(** [np.random.choice(vals, size)]: numpy refuses an empty population. *)
Definition np_random_choice (vals : list Q) (size : nat) : M (list Q) :=
  match vals with
  | [] => raise ValueError
  | v0 :: _ =>
      map_m (fun _ => r <- np_draw ;; ret (nth (r mod length vals)%nat vals v0))
            (seq 0 size)
  end.

(** [torch.rand(n)]: only the order of the numbers drawn is used. *)
Definition torch_rand (n : nat) : M (list nat) :=
  map_m (fun _ => torch_draw) (seq 0 n).

(** Insertion of an index into a list of indices sorted by key. *)
Fixpoint insert_by (key : nat -> nat) (i : nat) (sorted : list nat) : list nat :=
  match sorted with
  | [] => [i]
  | j :: sorted' =>
      if (key i <? key j)%nat then i :: sorted
      else j :: insert_by key i sorted'
  end.

(** [torch.argsort(values, dim=-1)] on one row. *)
Definition argsort (values : list nat) : list nat :=
  fold_right (insert_by (fun i => nth i values 0%nat)) []
             (seq 0 (length values)).

(* ===================================================================== *)
(** ** Tensors *)
(* ===================================================================== *)

Definition EPS : Q := 1 # 100000000.

(** A floating-point format, as far as the properties below depend on it:
    the rounding to the format is monotone, leaves the numbers of the
    format as they are, is exact on the integers up to 2^24 and does not
    flush [EPS] to zero.  Overflow is not modelled. *)
Record Rounding : Type := mkRounding {
  round : Q -> Q;
  round_monotone : forall a b : Q, (a <= b)%Q -> (round a <= round b)%Q;
  round_idempotent : forall a : Q, (round (round a) == round a)%Q;
  round_integer :
    forall z : Z, Z.abs z <= 16777216 -> (round (inject_Z z) == inject_Z z)%Q;
  round_EPS : (0 < round EPS)%Q
}.

(** The two formats of a run: float32, the format [.float()] converts to,
    and the format the losses are held in, which is that of the
    estimator's predictions (float64 for numpy's doubles) and becomes the
    format of the accumulated importance at the first [torch.max]. *)
Class Floats : Type := {
  single : Rounding;
  working : Rounding
}.

(** [t.float()] on one entry. *)
Definition fl {F : Floats} (v : Q) : Q := round single v.

(** The rounding of one operation on the losses. *)
Definition rnd {F : Floats} (v : Q) : Q := round working v.

(** The element types of the arrays torch can take from numpy. *)
Module DType.

Inductive t : Type :=
| float64 | float32 | float16
| int64 | int32 | int16 | int8
| uint8
| bool_.

End DType.

Definition Tensor1 : Type := list Q.
Definition Tensor2 : Type := list (list Q).
Definition Tensor3 : Type := list (list (list Q)).

Fixpoint zip_with {A B C} (f : A -> B -> C) (a : list A) (b : list B) : list C :=
  match a, b with
  | x :: a', y :: b' => f x y :: zip_with f a' b'
  | _, _ => []
  end.

(** [t[0]] on a batch. *)
Definition first_row {A} (t : list (list A)) : Result (list A) :=
  match t with
  | [] => Err IndexError
  | r :: _ => Ok r
  end.

(** [x.shape[-1]] of a batch (0 for a batch without rows, on which every
    use below fails at [t[0]] as the source does). *)
Definition width {A} (t : list (list A)) : nat := length (hd [] t).

(** An element-wise operation on two matrices of equal row length, with
    torch's broadcasting on the first dimension. *)
Definition elementwise (f : Q -> Q -> Q) (a b : Tensor2) : Result Tensor2 :=
  if (length a =? length b)%nat then Ok (zip_with (zip_with f) a b)
  else if (length a =? 1)%nat then Ok (map (fun rb => zip_with f (hd [] a) rb) b)
  else if (length b =? 1)%nat then Ok (map (fun ra => zip_with f ra (hd [] b)) a)
  else Err TorchError.

(** [np.asarray(cols).T] for a list of arrays of length [n]. *)
Definition transpose (n : nat) (cols : list (list Q)) : Tensor2 :=
  map (fun i => map (fun c => nth i c 0%Q) cols) (seq 0 n).

(** An integer tensor promoted to a floating one. *)
Definition promote (mask : list Z) : Tensor1 := map inject_Z mask.

(** [torch.broadcast_to(mask, (n, len(mask)))] *)
Definition broadcast_rows {A} (row : list A) (n : nat) : list (list A) := repeat row n.

(* ===================================================================== *)
(** ** The Masking Sampler *)
(* ===================================================================== *)

Module Masking.

(** [dtype] is the element type of the arrays of [masking_values], which
    is the element type of the data they were collected from. *)
Record t : Type := mk {
  dtype : DType.t;
  masking_values : list (list Q)
}.

Definition invalid_count : string :=
  "Invalid number of tensor for the masking layer. It requires the features vector and the selection vector".

Definition invalid_shape : string := "Invalid shape for the features vector".

(** The sentinel written where the draw repeats the original value: what
    the assignment of -1 stores in an array of the element type.  An
    unsigned byte wraps around, a boolean keeps that -1 is not zero. *)
Definition sentinel (d : DType.t) : Q :=
  match d with
  | DType.uint8 => 255%Q
  | DType.bool_ => 1%Q
  | _ => (-1)%Q
  end.

(** Lines 79-85: one array of [n] draws per feature, transposed into one
    row per instance. *)
Definition draw_replacements (self : t) (n : nat) : M Tensor2 :=
  sampled_mask <- map_m (fun uniq_vals => np_random_choice uniq_vals n)
                        (masking_values self) ;;
  ret (transpose n sampled_mask).

Section WithFloats.

Context {F : Floats}.

(** [features_vector == sampled_mask] at one position.  The features are
    float32; torch compares in the promoted type, which is float64 when the
    draws are doubles, and float32 otherwise, the draw being converted. *)
Definition unchanged (d : DType.t) (f s : Q) : bool :=
  match d with
  | DType.float64 => Qeq_bool f s
  | _ => Qeq_bool f (fl s)
  end.

(** Line 87: [sampled_mask[(features_vector == sampled_mask)] = -1] *)
Definition exclude_unchanged (self : t) (features_vector sampled_mask : Tensor2)
  : Tensor2 :=
  zip_with (zip_with (fun f s => if unchanged (dtype self) f s
                                 then sentinel (dtype self) else s))
           features_vector sampled_mask.

Definition forward (self : t) (tensors : list Tensor2) : M Tensor2 :=
  if negb (length tensors =? 2)%nat then raise (RuntimeError invalid_count)
  else
    let features_vector := nth 0%nat tensors [] in
    let selection_vector := nth 1%nat tensors [] in
    f0 <- lift (first_row features_vector) ;;
    if negb (length f0 =? length (masking_values self))%nat
    then raise (RuntimeError invalid_shape)
    else
      s0 <- lift (first_row selection_vector) ;;
      if negb (length s0 =? length (masking_values self))%nat
      then raise (RuntimeError invalid_shape)
      else
        sampled_mask <- draw_replacements self (length features_vector) ;;
        (* without any feature the array of draws is one-dimensional and
           the boolean index of line 87 does not fit it *)
        if (length (masking_values self) =? 0)%nat then raise IndexError
        else
          let sampled_mask :=
            exclude_unchanged self features_vector sampled_mask in
          kept <- lift (elementwise Qmult features_vector selection_vector) ;;
          replaced <- lift (elementwise Qmult
                              (map (map (fun s => 1 - s)%Q) selection_vector)
                              sampled_mask) ;;
          result <- lift (elementwise Qplus kept replaced) ;;
          ret (map (map fl) result).

End WithFloats.

(** The errors the layer raises itself about its input. *)
Definition is_validation_error (e : PyError) : bool :=
  match e with
  | RuntimeError _ => true
  | _ => false
  end.

End Masking.

(* ===================================================================== *)
(** ** The critic network *)
(* ===================================================================== *)

(** The two transcendental functions of torch that the source uses; they
    are not rational, so the development is parametric in them. *)
Class Transcendentals : Type := {
  torch_log : Q -> Q;
  torch_sigmoid : Q -> Q
}.

(** The layers [_build_critic] uses.  A [Linear] layer holds its weight
    (one row per output unit) and its bias. *)
Inductive Layer : Type :=
| Linear (weight : Tensor2) (bias : Tensor1)
| ReLU
| LeakyReLU
| Dropout (p : Q)
| Sigmoid.

(** [nn.Sequential]: the layers and the [training] flag of [nn.Module],
    which is [True] from construction until [eval()] is called. *)
Record Sequential : Type := mkSequential {
  layers : list Layer;
  training : bool
}.

Definition nn_Sequential (ls : list Layer) : Sequential := mkSequential ls true.

Definition dot (a b : Tensor1) : Q := fold_right Qplus 0%Q (zip_with Qmult a b).

(** [x @ weight.T + bias] on one instance. *)
Definition linear_row (weight : Tensor2) (bias : Tensor1) (x : Tensor1) : Result Tensor1 :=
  if forallb (fun wr => (length wr =? length x)%nat) weight
  then Ok (zip_with (fun wr b => (dot x wr + b)%Q) weight bias)
  else Err TorchError.

Fixpoint sequence {A} (l : list (Result A)) : Result (list A) :=
  match l with
  | [] => Ok []
  | Ok a :: l' => match sequence l' with
                  | Ok r => Ok (a :: r)
                  | Err e => Err e
                  end
  | Err e :: _ => Err e
  end.

(** One Bernoulli draw of dropout: [true] when the element is zeroed. *)
Definition dropout_draw : M bool := r <- torch_draw ;; ret (Nat.odd r).

(** [F.dropout(x, p, training=True)]: a zeroed element or the element
    scaled by [1 / (1 - p)]. *)
Definition dropout_row (p : Q) (x : Tensor1) : M Tensor1 :=
  map_m (fun v => dropped <- dropout_draw ;;
                  ret (if dropped then 0%Q else (v / (1 - p))%Q)) x.

Definition leaky_relu (v : Q) : Q := (Qmax 0 v + (1 # 100) * Qmin 0 v)%Q.

Section Critic.

Context {T : Transcendentals}.

Definition layer_forward (training : bool) (layer : Layer) (x : Tensor2) : M Tensor2 :=
  match layer with
  | Linear weight bias => lift (sequence (map (linear_row weight bias) x))
  | ReLU => ret (map (map (Qmax 0)) x)
  | LeakyReLU => ret (map (map leaky_relu) x)
  | Dropout p => if training then map_m (dropout_row p) x else ret x
  | Sigmoid => ret (map (map torch_sigmoid) x)
  end.

(** [critic(x)] *)
Definition call (critic : Sequential) (x : Tensor2) : M Tensor2 :=
  for_each (layers critic) (layer_forward (training critic)) x.

End Critic.

(** The trainable parameters of a four-layer critic. *)
Record CriticParams : Type := mkCriticParams {
  weight1 : Tensor2; bias1 : Tensor1;
  weight2 : Tensor2; bias2 : Tensor1;
  weight3 : Tensor2; bias3 : Tensor1;
  weight4 : Tensor2; bias4 : Tensor1
}.

(** [nn.MSELoss()(y_pred, y_true)] on flattened tensors. *)
Definition mse_flat (y_pred y_true : Tensor1) : Result Q :=
  match y_pred with
  | [] => Err NaN
  | _ =>
      if (length y_pred =? length y_true)%nat
      then Ok (fold_right Qplus 0 (zip_with (fun a b => (a - b) * (a - b)) y_pred y_true)
               / inject_Z (Z.of_nat (length y_pred)))%Q
      else Err TorchError
  end.

(** Split of a list into consecutive rows of [k] entries. *)
Fixpoint chunk_rec {A} (fuel k : nat) (l : list A) : list (list A) :=
  match fuel, l with
  | S fuel', _ :: _ => firstn k l :: chunk_rec fuel' k (skipn k l)
  | _, _ => []
  end.

Definition chunk {A} (k : nat) (l : list A) : list (list A) :=
  chunk_rec (length l) k l.

(** [np.mean(arrays, axis=0)] for a list of matrices. *)
Definition same_shape (a b : Tensor2) : bool :=
  (length a =? length b)%nat
  && forallb (fun rr => (length (fst rr) =? length (snd rr))%nat) (combine a b).

Definition np_mean_axis0 (arrays : list Tensor2) : Result Tensor2 :=
  match arrays with
  | [] => Err NaN
  | first :: rest =>
      if forallb (same_shape first) rest
      then let total := fold_left (zip_with (zip_with Qplus)) rest first in
           Ok (map (map (fun s => s / inject_Z (Z.of_nat (length arrays)))%Q) total)
      else Err ValueError
  end.

(** The parameters of the [Linear] layers, in order: what
    [critic.parameters()] hands to the optimiser. *)
Fixpoint parameters (ls : list Layer) : list (Tensor2 * Tensor1) :=
  match ls with
  | [] => []
  | Linear weight bias :: ls' => (weight, bias) :: parameters ls'
  | _ :: ls' => parameters ls'
  end.

(** The layers with their parameters replaced, in order. *)
Fixpoint load_parameters (ls : list Layer) (ps : list (Tensor2 * Tensor1)) : list Layer :=
  match ls with
  | [] => []
  | Linear weight bias :: ls' =>
      match ps with
      | (weight', bias') :: ps' => Linear weight' bias' :: load_parameters ls' ps'
      | [] => Linear weight bias :: load_parameters ls' []
      end
  | layer :: ls' => layer :: load_parameters ls' ps
  end.

(** [torch.optim.Adam] together with autograd: the state of the optimiser
    and the parameters after one [backward(); step()], which depend on the
    parameters, the batch, the target and the generator state in which the
    forward pass ran. *)
Class Optimizer (Target : Type) : Type := {
  OptState : Type;
  Adam : list (Tensor2 * Tensor1) -> Q -> Q -> OptState;
  backward_step :
    OptState -> Sequential -> Tensor2 -> Target -> World ->
    list (Tensor2 * Tensor1) * OptState
}.

Definition Qlt_bool (a b : Q) : bool := negb (Qle_bool b a).

(** [np.round] of a ratio of integers: to the nearest integer, a tie going
    to the even one. *)
Definition round_half_even (q : Q) : Z :=
  let f := Qfloor q in
  let d := (q - inject_Z f)%Q in
  if Qlt_bool d (1 # 2) then f
  else if Qlt_bool (1 # 2) d then f + 1
  else if Z.even f then f else f + 1.

(* ===================================================================== *)
(** ** The shared training skeleton *)
(* ===================================================================== *)

Module invaseBase.

(** The attributes [invaseBase.__init__] stores. *)
Record Config : Type := mkConfig {
  batch_size : Z;
  epochs : Z;
  epochs_inner : Z;
  patience : Z;
  min_epochs : Z;
  n_epoch_print : Z;
  learning_rate : Q;
  penalty_l2 : Q
}.

(** The abstract methods of the base class, as far as [_train] uses them,
    with the two attributes it reads.  The labels handed to
    [_importance_test] are a matrix with one row per instance. *)
Class Variant (Self Estimator Target : Type) : Type := {
  config : Self -> Config;
  critic : Self -> Sequential;
  set_critic : Self -> Sequential -> Self;
  _baseline_predict : Self -> Estimator -> Tensor2 -> Result Tensor2;
  _importance_loss : Self -> Tensor2 -> Target -> Result Q;
  _importance_test : Self -> Estimator -> Tensor2 -> Tensor2 -> M Target
}.

(** The local variables of [_train] that change from epoch to epoch; the
    last field records the epoch at which [break] was executed. *)
Record TrainState {Target : Type} {O : Optimizer Target} : Type := mkTrainState {
  st_critic : Sequential;
  st_solver : OptState;
  st_patience : Z;
  st_best_val_loss : Q;
  st_train_indices : list nat;
  st_stopped : option Z
}.
Arguments TrainState Target {O}.
Arguments mkTrainState {Target O}.

(** Line 183 *)
Definition effective_batch_size (batch_size n : Z) : Z :=
  if batch_size <? n then batch_size else n.

(** Line 184, on the batch size of line 183. *)
Definition number_of_batches (batch_size n : Z) : Result Z :=
  if batch_size <? n then
    if batch_size =? 0 then Err ZeroDivisionError
    else Ok (round_half_even (inject_Z n / inject_Z batch_size))
  else Ok 1.

(** Line 193: the indices of batch [b]. *)
Definition select_batch (train_indices : list nat) (b batch_size n : Z) : list nat :=
  Py.slice train_indices (b * batch_size) (Z.min ((b + 1) * batch_size) (n - 1)).

(** All the batches of one epoch, in order. *)
Definition epoch_batches (train_indices : list nat) (n_batches batch_size n : Z)
  : list (list nat) :=
  map (fun b => select_batch train_indices b batch_size n) (Py.range 0 n_batches).

(** Lines 223-229: the patience counter, the best loss, and whether the
    loop is left. *)
Definition early_stopping (cfg : Config) (epoch : Z) (val_loss : Q)
           (best_val_loss : Q) (patience_count : Z) : Q * Z * bool :=
  let '(best_val_loss, patience_count) :=
    if Qlt_bool val_loss best_val_loss then (val_loss, 0)
    else (best_val_loss, patience_count + 1) in
  (best_val_loss, patience_count,
   (patience_count >? patience cfg) && (epoch >? min_epochs cfg)).

Section Train.

Context {Self Estimator Target : Type}.
Context {V : Variant Self Estimator Target}.
Context {O : Optimizer Target}.
Context {T : Transcendentals}.

Variable self : Self.
Variable estimator : Estimator.
Variables x_train y_train x_test y_test : Tensor2.

Let cfg : Config := config self.
Let n : Z := Z.of_nat (length x_train).

(** Lines 193-212: one gradient step on batch [idx]. *)
Definition train_batch (idx : list nat)
           (acc : Sequential * OptState * list Q)
  : M (Sequential * OptState * list Q) :=
  let '(critic_now, solver, train_loss) := acc in
  let x_batch := map (fun i => nth i x_train []) idx in
  let y_batch := map (fun i => nth i y_train []) idx in
  importance <- _importance_test self estimator x_batch y_batch ;;
  w0 <- (fun w => Ok (w, w)) ;;
  predicted_importance <- call critic_now x_batch ;;
  predicted_importance_loss <-
    lift (_importance_loss self predicted_importance importance) ;;
  let '(params, solver') :=
    backward_step solver critic_now x_batch importance w0 in
  ret (mkSequential (load_parameters (layers critic_now) params)
                    (training critic_now),
       solver', train_loss ++ [predicted_importance_loss]).

(** Lines 216-229: the validation checkpoint of an epoch. *)
Definition validate (epoch : Z) (critic_now : Sequential)
           (best_val_loss : Q) (patience_count : Z) : M (Q * Z * bool) :=
  if n_epoch_print cfg =? 0 then raise ZeroDivisionError
  else if epoch mod n_epoch_print cfg =? 0 then
    importance <- _importance_test self estimator x_test y_test ;;
    predicted_importance <- call critic_now x_test ;;
    val_loss <- lift (_importance_loss self predicted_importance importance) ;;
    ret (early_stopping cfg epoch val_loss best_val_loss patience_count)
  else ret (best_val_loss, patience_count, false).

(** The body of the loop over the epochs (lines 189-229); the boolean
    tells whether [break] was reached. *)
Definition train_epoch (n_batches batch_size : Z) (epoch : Z)
           (st : TrainState Target) : M (TrainState Target * bool) :=
  train_indices <- np_random_shuffle (st_train_indices st) ;;
  '(critic_now, solver, train_loss) <-
    for_each (epoch_batches train_indices n_batches batch_size n)
             train_batch (st_critic st, st_solver st, []) ;;
  '(best_val_loss, patience_count, stop) <-
    validate epoch critic_now (st_best_val_loss st) (st_patience st) ;;
  ret (mkTrainState critic_now solver patience_count best_val_loss
                    train_indices (if stop then Some epoch else None),
       stop).

(** [for epoch in range(self.epochs)] with its [break]. *)
Fixpoint epoch_loop (n_batches batch_size : Z) (todo : list Z)
         (st : TrainState Target) : M (TrainState Target) :=
  match todo with
  | [] => ret st
  | epoch :: todo' =>
      '(st', stop) <- train_epoch n_batches batch_size epoch st ;;
      if stop then ret st' else epoch_loop n_batches batch_size todo' st'
  end.

End Train.

Section TrainEntry.

Context {Self Estimator Target : Type}.
Context {V : Variant Self Estimator Target}.
Context {O : Optimizer Target}.
Context {T : Transcendentals}.

(** The state in which the first epoch starts (lines 162-185). *)
Definition initial_state (self : Self) (n : nat) : TrainState Target :=
  mkTrainState (critic self)
               (Adam (parameters (layers (critic self)))
                     (learning_rate (config self)) (penalty_l2 (config self)))
               0 (inject_Z 99999999) (seq 0 n) None.

End TrainEntry.

End invaseBase.

(* ===================================================================== *)
(** ** Reductions and the pieces shared by the importance builders *)
(* ===================================================================== *)

(** [t.min(-1)[0]] and [t.max(-1)[0]] on one row: torch refuses an empty
    reduction dimension. *)
Definition row_min (row : Tensor1) : Result Q :=
  match row with
  | [] => Err TorchError
  | v :: row' => Ok (fold_left Qmin row' v)
  end.

Definition row_max (row : Tensor1) : Result Q :=
  match row with
  | [] => Err TorchError
  | v :: row' => Ok (fold_left Qmax row' v)
  end.

Definition min_last (t : Tensor2) : Result Tensor1 := sequence (map row_min t).
Definition max_last (t : Tensor2) : Result Tensor1 := sequence (map row_max t).

(** [m.max(dim=0)[0]] of a matrix: the column-wise maximum. *)
Definition max_first (m : Tensor2) : Result Tensor1 :=
  match m with
  | [] => Err TorchError
  | r :: m' => Ok (fold_left (zip_with Qmax) m' r)
  end.

(** [torch.sum(t, dim=-1)] *)
Definition sum_last (t : Tensor2) : Tensor1 := map (fold_right Qplus 0%Q) t.

(** [torch.stack(tensors)]: refuses an empty list. *)
Definition torch_stack {A} (tensors : list (list A)) : Result (list (list A)) :=
  match tensors with
  | [] => Err TorchError
  | _ => Ok tensors
  end.

(** [losses.reshape(n, -1)] of a vector. *)
Definition reshape_rows (n : nat) (losses : Tensor1) : Result Tensor2 :=
  if (n =? 0)%nat || (length losses =? 0)%nat then Err TorchError
  else if (length losses mod n =? 0)%nat
       then Ok (chunk (length losses / n) losses)
       else Err TorchError.

(** [((1 - mask).T * baseline_loss).T]: the loss of an instance at the
    features the mask hides, 0 at the others. *)
Definition hidden_loss (mask : Tensor2) (baseline_loss : Tensor1) : Tensor2 :=
  zip_with (fun mask_row loss => map (fun m => (1 - m) * loss)%Q mask_row)
           mask baseline_loss.

(** Lines 368-371 and 556-559: every row of [next_mask] permuted by the
    argsort of fresh random numbers. *)
Definition permute_rows (next_mask : list (list Z)) : M (list (list Z)) :=
  map_m (fun row =>
           values <- torch_rand (length row) ;;
           ret (map (fun i => nth i row 0%Z) (argsort values)))
        next_mask.

(** Lines 364-381 and 552-570: [while len(next_slice) == len(x)], [n]
    being [len(x)] and [turn] the body applied to the stacked window.
    Every turn takes [n >= 1] masks from the generator, so the number of
    masks bounds the number of turns. *)
Fixpoint window_loop {St} (fuel : nat) (n : nat)
         (turn : list (list Z) -> St -> M St)
         (next_slice bitmask_generator : list (list Z)) (importance : St) : M St :=
  if (length next_slice =? n)%nat then
    match fuel with
    | O => raise OutOfFuel
    | S fuel' =>
        next_mask <- lift (torch_stack next_slice) ;;
        importance <- turn next_mask importance ;;
        let '(next_slice, bitmask_generator) := Py.islice bitmask_generator n in
        window_loop fuel' n turn next_slice bitmask_generator importance
    end
  else ret importance.

(** The first window (lines 362 and 550) and the loop. *)
Definition interaction_windows {St} (n : nat) (turn : list (list Z) -> St -> M St)
           (bitmask_generator : list (list Z)) (importance : St) : M St :=
  let '(next_slice, rest) := Py.islice bitmask_generator n in
  window_loop (S (length bitmask_generator)) n turn next_slice rest importance.

(* ===================================================================== *)
(** ** The classification variant *)
(* ===================================================================== *)

(** A classification estimator: the methods it has. *)
Record Classifier : Type := mkClassifier {
  predict_proba : option (Tensor2 -> Tensor2);
  predict : option (Tensor2 -> Tensor2)
}.

Module invaseClassifier.

Record t : Type := mk {
  method : string;
  latent_dim2 : nat;
  input_shape : nat;
  masking : Masking.t;
  config : invaseBase.Config;
  critic : Sequential
}.

Definition set_critic (self : t) (c : Sequential) : t :=
  mk (method self) (latent_dim2 self) (input_shape self) (masking self)
     (config self) c.

(** [_build_critic]: the architecture, around the parameters torch
    initialises (of the sizes [input_shape] and [latent_dim2] prescribe). *)
Definition _build_critic (params : CriticParams) : Sequential :=
  nn_Sequential
    [ Linear (weight1 params) (bias1 params); ReLU; Dropout (1 # 10);
      Linear (weight2 params) (bias2 params); ReLU; Dropout (1 # 10);
      Linear (weight3 params) (bias3 params); ReLU; Dropout (1 # 10);
      Linear (weight4 params) (bias4 params); Sigmoid ].

Section WithTranscendentals.

Context {T : Transcendentals}.
Context {F : Floats}.

Definition explain (self : t) (X : Tensor2) : M Tensor2 :=
  gen_prob <- call (critic self) X ;;
  ret gen_prob.

Definition _baseline_metric (estimator : Classifier) (x y : Tensor2) : Result Tensor1 :=
  match predict_proba estimator with
  | Some predict_proba =>
      let baseline_proba := predict_proba x in
      Ok (map Qopp
              (sum_last (zip_with (zip_with (fun yv p => yv * torch_log (p + EPS))%Q)
                                  y baseline_proba)))
  | None =>
      match predict estimator with
      | Some predict =>
          let baseline_proba := predict x in
          Ok (sum_last (zip_with (zip_with (fun yv p => (yv - p) * (yv - p))%Q)
                                 y baseline_proba))
      | None => Err AttributeError
      end
  end.

Definition _baseline_predict (estimator : Classifier) (x : Tensor2) : Result Tensor2 :=
  match predict_proba estimator with
  | Some predict_proba => Ok (predict_proba x)
  | None =>
      match predict estimator with
      | Some predict => Ok (predict x)
      | None => Err AttributeError
      end
  end.

Definition _importance_loss (y_pred y_true : Tensor2) : Result Q :=
  mse_flat (concat y_pred) (concat y_true).

Definition _importance_init (x : Tensor2) : Tensor2 := map (map (fun _ => 0%Q)) x.

(** Lines 350-356: the leave-one-out tier. *)
Definition leave_one_out_pass (self : t) (estimator : Classifier) (x y : Tensor2)
           (importance : Tensor2) : M Tensor2 :=
  let n_features := Z.of_nat (width x) in
  for_each (bitmask_intervals n_features (n_features - 1) n_features)
    (fun mask importance =>
       let mask := broadcast_rows (promote mask) (length x) in
       masked_batch <- Masking.forward (masking self) [x; mask] ;;
       baseline_loss <- lift (_baseline_metric estimator masked_batch y) ;;
       ret (zip_with (zip_with Qmax) importance (hidden_loss mask baseline_loss)))
    importance.

(** Lines 367-379: the inner passes on one window of masks. *)
Definition inner_passes (self : t) (estimator : Classifier) (x y : Tensor2)
           (next_mask : list (list Z)) (importance : Tensor2) : M Tensor2 :=
  for_each (Py.range 0 (invaseBase.epochs_inner (config self)))
    (fun local_inter importance =>
       mask <- permute_rows next_mask ;;
       let mask := map promote mask in
       masked_batch <- Masking.forward (masking self) [x; mask] ;;
       baseline_loss <- lift (_baseline_metric estimator masked_batch y) ;;
       let local_importance :=
         map (map (Qmult (1 # 1000))) (hidden_loss mask baseline_loss) in
       ret (zip_with (zip_with Qplus) importance local_importance))
    importance.

(** Lines 347-381: the accumulator before the final normalisation. *)
Definition accumulate_normal (self : t) (estimator : Classifier) (x y : Tensor2)
  : M Tensor2 :=
  let importance := _importance_init x in
  let n_features := Z.of_nat (width x) in
  importance <- leave_one_out_pass self estimator x y importance ;;
  let bitmask_generator :=
    bitmask_intervals n_features (n_features - 3) (n_features - 1) in
  interaction_windows (length x) (inner_passes self estimator x y)
                      bitmask_generator importance.

(** Lines 383-386: the two in-place operations, each rounded to the format
    of the accumulator, and the conversion of the result to float32. *)
Definition normalize_normal (importance : Tensor2) : Result Tensor2 :=
  match min_last importance with
  | Err e => Err e
  | Ok mins =>
      let importance :=
        zip_with (fun row m => map (fun v => rnd (v - m))%Q row)
                 importance mins in
      match max_last importance with
      | Err e => Err e
      | Ok maxs =>
          Ok (zip_with (fun row m =>
                          map (fun v => fl (rnd (v / rnd (m + rnd EPS))))%Q row)
                       importance maxs)
      end
  end.

Definition _importance_test_normal (self : t) (estimator : Classifier)
           (x y : Tensor2) : M Tensor2 :=
  importance <- accumulate_normal self estimator x y ;;
  lift (normalize_normal importance).

(** Lines 399-417: one chunk of leave-one-out masks, every instance
    replicated across the masks of the chunk. *)
Definition chunk_pass (self : t) (estimator : Classifier) (x y : Tensor2)
           (all_masks : list (list Z)) (batch_size : Z) (i : Z)
           (importance : Tensor2) : M Tensor2 :=
  let batch_masks := map promote (Py.slice all_masks i (i + batch_size)) in
  let per_instance := length batch_masks in
  let batch_masks := repeat batch_masks (length x) in
  let flat_x := map (fun row => repeat row per_instance) x in
  masked_batch <- Masking.forward (masking self)
                    [concat flat_x; concat batch_masks] ;;
  let y_repeated := map (fun row => repeat row per_instance) y in
  let y_flat := concat y_repeated in
  baseline_losses <- lift (_baseline_metric estimator masked_batch y_flat) ;;
  baseline_losses <- lift (reshape_rows (length x) baseline_losses) ;;
  reduced <- lift (sequence (zip_with (fun masks losses =>
                                         max_first (hidden_loss masks losses))
                                      batch_masks baseline_losses)) ;;
  ret (zip_with (zip_with Qmax) importance reduced).

(** Lines 423-432: the sampled interaction masks. *)
Definition sampled_interactions (self : t) (estimator : Classifier)
           (x y : Tensor2) (importance : Tensor2) : M Tensor2 :=
  let n_features := width x in
  let max_interactions := Z.min 3 (Z.of_nat n_features - 1) in
  let samples_per_level := 10 in
  for_each (Py.range 2 (max_interactions + 1))
    (fun interaction_level importance =>
       for_each (Py.range 0 samples_per_level)
         (fun _ importance =>
            permutation <- torch_randperm n_features ;;
            let selected_features := Py.slice permutation 0 interaction_level in
            let mask_row :=
              map (fun j => if existsb (Nat.eqb j) selected_features
                            then 1%Q else 0%Q) (seq 0 n_features) in
            let mask := repeat mask_row (length x) in
            masked_batch <- Masking.forward (masking self) [x; mask] ;;
            baseline_loss <- lift (_baseline_metric estimator masked_batch y) ;;
            ret (zip_with (zip_with Qplus) importance
                   (map (map (Qmult (1 # 1000))) (hidden_loss mask baseline_loss))))
         importance)
    importance.

(** Lines 392-432: the accumulator before the final normalisation. *)
Definition accumulate_optimized (self : t) (estimator : Classifier)
           (x y : Tensor2) : M Tensor2 :=
  let importance := _importance_init x in
  let n_features := Z.of_nat (width x) in
  all_masks <- lift (torch_stack
                       (bitmask_intervals n_features (n_features - 1) n_features)) ;;
  let batch_size := 64 in
  importance <- for_each (Py.range_step 0 (Z.of_nat (length all_masks)) batch_size)
                  (chunk_pass self estimator x y all_masks batch_size)
                  importance ;;
  sampled_interactions self estimator x y importance.

(** Lines 435-438: every operation rounded to the format of the
    accumulator, and the conversion of the result to float32. *)
Definition normalize_optimized (importance : Tensor2) : Result Tensor2 :=
  match min_last importance with
  | Err e => Err e
  | Ok mins =>
      match max_last importance with
      | Err e => Err e
      | Ok maxs =>
          Ok (zip_with (fun row mm =>
                          map (fun v =>
                                 fl (rnd (rnd (v - fst mm)
                                          / rnd (rnd (snd mm - fst mm)
                                                 + rnd EPS))))%Q row)
                       importance (combine mins maxs))
      end
  end.

Definition _importance_test_optimized (self : t) (estimator : Classifier)
           (x y : Tensor2) : M Tensor2 :=
  importance <- accumulate_optimized self estimator x y ;;
  lift (normalize_optimized importance).

Definition _importance_test (self : t) (estimator : Classifier) (x y : Tensor2)
  : M Tensor2 :=
  if String.eqb (method self) "normal" then _importance_test_normal self estimator x y
  else if String.eqb (method self) "optimized"
       then _importance_test_optimized self estimator x y
       else raise (RuntimeError ("Invalid method " ++ method self)).

#[export] Instance variant : invaseBase.Variant t Classifier Tensor2 := {
  invaseBase.config := config;
  invaseBase.critic := critic;
  invaseBase.set_critic := set_critic;
  invaseBase._baseline_predict := fun _ => _baseline_predict;
  invaseBase._importance_loss := fun _ => _importance_loss;
  invaseBase._importance_test := _importance_test
}.

End WithTranscendentals.

End invaseClassifier.

(* ===================================================================== *)
(** ** The risk-estimation variant *)
(* ===================================================================== *)

(** [sklearn.utils.resample(X, n_samples=k, random_state=seed)]: rows of [X]
    at indices drawn, with replacement, by a generator seeded with [seed]. *)
Class Resampler : Type := {
  randint : Z -> nat -> nat -> list nat;
  randint_length : forall seed high size, length (randint seed high size) = size
}.

Definition resample {R : Resampler} (X : Tensor2) (n_samples : Z) (random_state : Z)
  : Result Tensor2 :=
  if (n_samples <? 0) || (length X =? 0)%nat then Err ValueError
  else Ok (map (fun i => nth i X [])
               (randint random_state (length X) (Z.to_nat n_samples))).

(** A table of numbers as Python holds it: a numpy array or a pandas data
    frame over the same rows. *)
Inductive Table : Type :=
| ndarray (rows : Tensor2)
| DataFrame (rows : Tensor2).

(** [sample(X, nsamples, random_state)].  The decorator
    [validate_arguments] checks the argument against its annotation
    [np.ndarray] before the body runs, and refuses a data frame. *)
Definition sample {R : Resampler} (X : Table) (nsamples : Z) (random_state : Z)
  : Result Tensor2 :=
  match X with
  | DataFrame _ => Err ValidationError
  | ndarray X =>
      if nsamples >=? Z.of_nat (length X) then Ok X
      else resample X nsamples random_state
  end.

(** A risk estimator: [predict(x, eval_times)], one row per instance and
    one column per horizon. *)
Record RiskEstimator : Type := mkRiskEstimator {
  predict_at : Tensor2 -> list Q -> Tensor2
}.

Module invaseRiskEstimation.

Record t : Type := mk {
  eval_times : list Q;
  latent_dim2 : nat;
  input_shape : nat;
  masking : Masking.t;
  config : invaseBase.Config;
  critic : Sequential
}.

Definition set_critic (self : t) (c : Sequential) : t :=
  mk (eval_times self) (latent_dim2 self) (input_shape self) (masking self)
     (config self) c.

Definition _build_critic (params : CriticParams) : Sequential :=
  nn_Sequential
    [ Linear (weight1 params) (bias1 params); LeakyReLU;
      Linear (weight2 params) (bias2 params); LeakyReLU;
      Linear (weight3 params) (bias3 params); LeakyReLU;
      Linear (weight4 params) (bias4 params) ].

(** Lines 459 and 472: the data [__init__] hands to the base class.  The
    array it receives has been turned into a data frame on line 459. *)
Definition training_data {R : Resampler} (X : Tensor2) (samples : Z)
  : Result Tensor2 :=
  let X := DataFrame X in
  sample X samples 0.

Section WithTranscendentals.

Context {T : Transcendentals}.
Context {F : Floats}.

Definition _baseline_metric (self : t) (estimator : RiskEstimator) (x y : Tensor2)
  : Tensor2 :=
  let baseline_proba := predict_at estimator x (eval_times self) in
  let out := zip_with (zip_with (fun p yv => (p - yv) * (p - yv) + Qabs (p - yv))%Q)
                      baseline_proba y in
  zip_with (zip_with Qplus) out
           (zip_with (zip_with (fun yv p => - yv * torch_log (p + EPS))%Q)
                     y baseline_proba).

Definition _importance_loss (y_pred : Tensor2) (y_true : Tensor3) : Result Q :=
  mse_flat (concat y_pred) (concat (concat y_true)).

Definition _baseline_predict (self : t) (estimator : RiskEstimator) (x : Tensor2)
  : Result Tensor2 :=
  Ok (predict_at estimator x (eval_times self)).

Definition _importance_init (self : t) (x : Tensor2) : Tensor3 :=
  map (map (fun _ => repeat 0%Q (length (eval_times self)))) x.

(** [baseline_loss[:, idx]] *)
Definition column (idx : nat) (baseline_loss : Tensor2) : Result Tensor1 :=
  sequence (map (fun row => match nth_error row idx with
                            | Some v => Ok v
                            | None => Err IndexError
                            end) baseline_loss).

(** [importance[:, :, idx] = f(importance[:, :, idx], values)] *)
Definition update_horizon (f : Q -> Q -> Q) (idx : nat)
           (importance : Tensor3) (values : Tensor2) : Tensor3 :=
  zip_with (zip_with (fun horizons v =>
                        firstn idx horizons
                        ++ match skipn idx horizons with
                           | [] => []
                           | h :: rest => f h v :: rest
                           end))
           importance values.

(** Lines 541-544 and 565-568: the loop over the horizons; [contribution]
    is the right-hand side computed from the column of one horizon. *)
Definition horizons_pass (self : t) (f : Q -> Q -> Q)
           (contribution : Tensor1 -> Tensor2)
           (baseline_loss : Tensor2) (importance : Tensor3) : M Tensor3 :=
  for_each (seq 0 (length (eval_times self)))
    (fun idx importance =>
       loss_at <- lift (column idx baseline_loss) ;;
       ret (update_horizon f idx importance (contribution loss_at)))
    importance.

(** Lines 535-544 *)
Definition leave_one_out_pass (self : t) (estimator : RiskEstimator)
           (x y : Tensor2) (importance : Tensor3) : M Tensor3 :=
  let n_features := Z.of_nat (width x) in
  for_each (bitmask_intervals n_features (n_features - 1) n_features)
    (fun mask importance =>
       let mask := broadcast_rows (promote mask) (length x) in
       masked_batch <- Masking.forward (masking self) [x; mask] ;;
       let baseline_loss := _baseline_metric self estimator masked_batch y in
       horizons_pass self Qmax (fun loss_at => hidden_loss mask loss_at)
                     baseline_loss importance)
    importance.

(** Lines 555-568 *)
Definition inner_passes (self : t) (estimator : RiskEstimator) (x y : Tensor2)
           (next_mask : list (list Z)) (importance : Tensor3) : M Tensor3 :=
  for_each (Py.range 0 (invaseBase.epochs_inner (config self)))
    (fun local_inter importance =>
       mask <- permute_rows next_mask ;;
       let mask := map promote mask in
       masked_batch <- Masking.forward (masking self) [x; mask] ;;
       let baseline_loss := _baseline_metric self estimator masked_batch y in
       horizons_pass self Qplus
                     (fun loss_at =>
                        map (map (Qmult (1 # 1000))) (hidden_loss mask loss_at))
                     baseline_loss importance)
    importance.

(** Lines 528-576.  The normalisation of lines 572-574 is commented out in
    the source: the accumulator is returned as it is. *)
Definition _importance_test (self : t) (estimator : RiskEstimator) (x y : Tensor2)
  : M Tensor3 :=
  let importance := _importance_init self x in
  let n_features := Z.of_nat (width x) in
  importance <- leave_one_out_pass self estimator x y importance ;;
  let bitmask_generator :=
    bitmask_intervals n_features (n_features - 2) (n_features - 1) in
  interaction_windows (length x) (inner_passes self estimator x y)
                      bitmask_generator importance.

Definition explain (self : t) (X : Tensor2) : M Tensor3 :=
  out <- call (critic self) X ;;
  let horizons := length (eval_times self) in
  if forallb (fun row => (length row =? width X * horizons)%nat) out
  then ret (map (fun row => if (horizons =? 0)%nat then repeat [] (width X)
                            else chunk horizons row) out)
  else raise TorchError.

#[export] Instance variant : invaseBase.Variant t RiskEstimator Tensor3 := {
  invaseBase.config := config;
  invaseBase.critic := critic;
  invaseBase.set_critic := set_critic;
  invaseBase._baseline_predict := _baseline_predict;
  invaseBase._importance_loss := fun _ => _importance_loss;
  invaseBase._importance_test := _importance_test
}.

End WithTranscendentals.

End invaseRiskEstimation.

(* ===================================================================== *)
(** ** The Ensemble Layer *)
(* ===================================================================== *)

Module invaseCV.

Record t : Type := mk { fold_models : list invaseClassifier.t }.

Definition explain {T : Transcendentals} (self : t) (x : Tensor2) : M Tensor2 :=
  result <- map_m (fun fold => invaseClassifier.explain fold x) (fold_models self) ;;
  lift (np_mean_axis0 result).

End invaseCV.

(* ===================================================================== *)
(** ** Vocabulary of the statements *)
(* ===================================================================== *)

(** Computations all of whose exceptions satisfy [P]. *)
Definition raises_only {A} (P : PyError -> Prop) (c : M A) : Prop :=
  forall w e, c w = Err e -> P e.

(** The exceptions of the source, as opposed to the exhaustion of the fuel
    of the model. *)
Definition fuel_left (e : PyError) : Prop := e <> OutOfFuel.

(** Two matrices with the same number of rows and the same row lengths. *)
Definition shape_eq (a b : Tensor2) : Prop :=
  length a = length b /\ forall i, length (nth i a []) = length (nth i b []).

(** The entry of instance [i] at feature [j]. *)
Definition entry (i j : nat) (m : Tensor2) : Q := nth j (nth i m []) 0%Q.

(** A critic whose forward pass draws nothing: it is in evaluation mode or
    has no [Dropout] layer. *)
Definition dropout_free (c : Sequential) : bool :=
  negb (training c)
  || forallb (fun l => match l with Dropout _ => false | _ => true end) (layers c).

(** The least and the greatest entry of a row (0 for an empty row). *)
Definition least (row : Tensor1) : Q :=
  match row with
  | [] => 0%Q
  | v :: row' => fold_left Qmin row' v
  end.

Definition greatest (row : Tensor1) : Q :=
  match row with
  | [] => 0%Q
  | v :: row' => fold_left Qmax row' v
  end.

(** [row] is a min-max normalisation of the non-empty row [raw] with [EPS]
    added to the divisor, computed in the format of the losses and converted
    to float32: entries in [0, 1], least entry 0, greatest entry the
    rounded quotient of the range [r] of [raw] by [r + EPS].  That entry is
    0 when the range is 0, and 1 when adding [EPS] to the range is lost in
    the rounding. *)
Definition normalized_from {F : Floats} (raw row : Tensor1) : Prop :=
  let r := rnd (greatest raw - least raw) in
  raw <> []
  /\ length row = length raw
  /\ (forall v, In v row -> 0 <= v <= 1)%Q
  /\ (least row == 0)%Q
  /\ (greatest row == fl (rnd (r / rnd (r + rnd EPS))))%Q
  /\ (r == 0 -> greatest row == 0)%Q
  /\ (0 < r -> rnd (r + rnd EPS) == r -> greatest row == 1)%Q.

(* ===================================================================== *)
(** ** Concrete instances for the worked examples *)
(* ===================================================================== *)

(** A resampler that always picks the first row. *)
Definition first_row_resampler : Resampler :=
  {| randint := fun _ _ size => repeat 0%nat size;
     randint_length := fun _ _ size => repeat_length 0%nat size |}.

(** Rational stand-ins for the transcendental functions: a logarithm that
    is 0 everywhere and the identity for the sigmoid.  The examples that use
    them do not depend on the values of the real functions. *)
Definition rational_stand_ins : Transcendentals :=
  {| torch_log := fun _ => 0%Q; torch_sigmoid := fun v => v |}.

(** The format without rounding: every rational is a number of it. *)
Definition exact : Rounding :=
  {| round := fun v => v;
     round_monotone := fun _ _ H => H;
     round_idempotent := fun v => Qeq_refl v;
     round_integer := fun z _ => Qeq_refl (inject_Z z);
     round_EPS := eq_refl |}.

(** Exact arithmetic throughout. *)
Definition exact_floats : Floats := {| single := exact; working := exact |}.

(** The greatest multiple of [1 / k] that is not above [q]. *)
Definition to_grid (k : positive) (q : Q) : Q :=
  (inject_Z (Qfloor (q * inject_Z (Z.pos k))) / inject_Z (Z.pos k))%Q.

(** A format with two spacings, 2^-27 below 1 and 2^-10 from 1 on, every
    number being rounded down to the next number of the format. *)
Definition two_scale_round (q : Q) : Q :=
  if Qle_bool 1 q then to_grid 1024 q else to_grid 134217728 q.

Definition two_scale : Rounding.
Proof.
  assert (Hpos : forall k : positive, (0 < inject_Z (Z.pos k))%Q).
  { intros k. unfold Qlt. simpl. lia. }
  assert (Hle : forall k q, (to_grid k q <= q)%Q).
  { intros k q. unfold to_grid.
    apply Qle_shift_div_r; [apply Hpos|]. apply Qfloor_le. }
  assert (Hmono : forall k a b, (a <= b)%Q -> (to_grid k a <= to_grid k b)%Q).
  { intros k a b Hab. unfold to_grid, Qdiv.
    apply Qmult_le_compat_r.
    - rewrite <- Zle_Qle. apply Qfloor_resp_le.
      apply Qmult_le_compat_r; [exact Hab|]. apply Qlt_le_weak, Hpos.
    - apply Qinv_le_0_compat. apply Qlt_le_weak, Hpos. }
  assert (Hfix : forall k n,
             (to_grid k (inject_Z n / inject_Z (Z.pos k))
              == inject_Z n / inject_Z (Z.pos k))%Q).
  { intros k n. unfold to_grid.
    assert (H : (inject_Z n / inject_Z (Z.pos k) * inject_Z (Z.pos k)
                 == inject_Z n)%Q).
    { field. intros H0. pose proof (Hpos k) as Hk. rewrite H0 in Hk.
      discriminate Hk. }
    rewrite (Qfloor_comp _ _ H). rewrite Qfloor_Z. reflexivity. }
  assert (Hint : forall k z, (to_grid k (inject_Z z) == inject_Z z)%Q).
  { intros k z. unfold to_grid.
    rewrite <- inject_Z_mult. rewrite Qfloor_Z. rewrite inject_Z_mult.
    field. intros H0. pose proof (Hpos k) as Hk. rewrite H0 in Hk.
    discriminate Hk. }
  assert (Hone : forall k q, (1 <= q)%Q -> (1 <= to_grid k q)%Q).
  { intros k q Hq. rewrite <- (Hint k 1) at 1. apply Hmono. exact Hq. }
  assert (Hsplit : forall q, (Qle_bool 1 q = true /\ (1 <= q)%Q)
                             \/ (Qle_bool 1 q = false /\ (q < 1)%Q)).
  { intros q. destruct (Qle_bool 1 q) eqn:H.
    - left. split; [reflexivity|]. apply Qle_bool_iff. exact H.
    - right. split; [reflexivity|]. apply Qnot_le_lt. intros Hc.
      apply Qle_bool_iff in Hc. congruence. }
  refine (mkRounding two_scale_round _ _ _ _).
  - intros a b Hab. unfold two_scale_round.
    destruct (Hsplit a) as [[-> Ha]|[-> Ha]];
      destruct (Hsplit b) as [[-> Hb]|[-> Hb]].
    + apply Hmono. exact Hab.
    + exfalso. apply (Qlt_irrefl 1).
      eapply Qle_lt_trans; [exact Ha|]. eapply Qle_lt_trans; eassumption.
    + eapply Qle_trans; [apply Hle|].
      eapply Qle_trans; [apply Qlt_le_weak; exact Ha|]. apply Hone. exact Hb.
    + apply Hmono. exact Hab.
  - intros a. unfold two_scale_round.
    destruct (Hsplit a) as [[-> Ha]|[-> Ha]].
    + destruct (Hsplit (to_grid 1024 a)) as [[-> _]|[_ Hr]].
      * unfold to_grid at 1. apply Hfix.
      * exfalso. apply (Qlt_irrefl 1).
        eapply Qle_lt_trans; [apply (Hone 1024%positive a Ha)|exact Hr].
    + destruct (Hsplit (to_grid 134217728 a)) as [[_ Hr]|[-> _]].
      * exfalso. apply (Qlt_irrefl 1).
        eapply Qle_lt_trans; [exact Hr|].
        eapply Qle_lt_trans; [apply Hle|exact Ha].
      * unfold to_grid at 1. apply Hfix.
  - intros z _. unfold two_scale_round.
    destruct (Qle_bool 1 (inject_Z z)); apply Hint.
  - reflexivity.
Defined.

(** The two-spacing format for the tensors and for the losses. *)
Definition two_scale_floats : Floats :=
  {| single := two_scale; working := two_scale |}.

Definition example_config : invaseBase.Config :=
  invaseBase.mkConfig 300 10000 2 5 100 50 (1 # 1000) (1 # 1000).

(** Parameters of a critic with one input and one latent unit, every layer
    being the identity map. *)
Definition example_params : CriticParams :=
  mkCriticParams [[1%Q]] [0%Q] [[1%Q]] [0%Q] [[1%Q]] [0%Q] [[1%Q]] [0%Q].

Definition example_classifier : invaseClassifier.t :=
  invaseClassifier.mk "normal" 1 1 (Masking.mk DType.float64 [[0%Q; 1%Q]]) example_config
                      (invaseClassifier._build_critic example_params).

Definition example_ensemble : invaseCV.t :=
  invaseCV.mk [example_classifier; example_classifier].

(** The ensemble's answer on the instance [1] when the first fold keeps
    every unit and the second fold drops its first hidden unit. *)
Definition example_ensemble_world : World := mkWorld [] [0; 0; 0; 1]%nat.

Definition example_ensemble_run : Result (Tensor2 * World) :=
  Eval vm_compute in
    @invaseCV.explain rational_stand_ins example_ensemble [[1%Q]]
                      example_ensemble_world.

Definition example_fold_outputs : list Tensor2 :=
  Eval vm_compute in
    match map_m (fun fold =>
                   @invaseClassifier.explain rational_stand_ins fold [[1%Q]])
                (invaseCV.fold_models example_ensemble) example_ensemble_world
    with
    | Ok (outs, _) => outs
    | Err _ => []
    end.

Definition example_ensemble_output : Tensor2 :=
  Eval vm_compute in
    match example_ensemble_run with
    | Ok (out, _) => out
    | Err _ => []
    end.

Definition example_ensemble_final_world : World :=
  Eval vm_compute in
    match example_ensemble_run with
    | Ok (_, w) => w
    | Err _ => example_ensemble_world
    end.

(** An optimiser that leaves the parameters as they are. *)
Definition idle_optimizer : Optimizer Tensor2 :=
  {| OptState := unit;
     Adam := fun _ _ _ => tt;
     backward_step := fun solver critic_now _ _ _ =>
                        (parameters (layers critic_now), solver) |}.

(** A point-prediction estimator that answers with its input. *)
Definition echo_estimator : Classifier :=
  mkClassifier None (Some (fun x => x)).

(** A short training run: four training instances of one feature, batches
    of two, a checkpoint at every epoch, patience 0 and no minimum. *)
Definition short_config : invaseBase.Config :=
  invaseBase.mkConfig 2 5 1 0 0 1 (1 # 1000) (1 # 1000).

Definition short_classifier : invaseClassifier.t :=
  invaseClassifier.mk "normal" 1 1 (Masking.mk DType.float64 [[0%Q; 1%Q]]) short_config
                      (invaseClassifier._build_critic example_params).

Definition short_x_train : Tensor2 := [[0%Q]; [1%Q]; [1%Q]; [0%Q]].
Definition short_y_train : Tensor2 := [[1%Q]; [0%Q]; [1%Q]; [0%Q]].
Definition short_x_test : Tensor2 := [[1%Q]].
Definition short_y_test : Tensor2 := [[0%Q]].

Definition short_initial_state : @invaseBase.TrainState Tensor2 idle_optimizer :=
  @invaseBase.initial_state _ _ _
    (@invaseClassifier.variant rational_stand_ins exact_floats)
                            idle_optimizer short_classifier 4.

Definition short_run
  : Result (@invaseBase.TrainState Tensor2 idle_optimizer * World) :=
  Eval vm_compute in
    @invaseBase.epoch_loop _ _ _
      (@invaseClassifier.variant rational_stand_ins exact_floats)
      idle_optimizer rational_stand_ins
      short_classifier echo_estimator
      short_x_train short_y_train short_x_test short_y_test
      2 2 (Py.range 0 5) short_initial_state (mkWorld [] []).

Definition short_final_state : @invaseBase.TrainState Tensor2 idle_optimizer :=
  Eval vm_compute in
    match short_run with
    | Ok (st, _) => st
    | Err _ => short_initial_state
    end.

Definition short_final_world : World :=
  Eval vm_compute in
    match short_run with
    | Ok (_, w) => w
    | Err _ => mkWorld [] []
    end.

(** A classification explainer over two binary features, with an instance
    and a label on which the two leave-one-out losses differ. *)
Definition two_feature_classifier : invaseClassifier.t :=
  invaseClassifier.mk "normal" 1 2 (Masking.mk DType.float64 [[0%Q; 1%Q]; [0%Q; 1%Q]])
                      example_config
                      (invaseClassifier._build_critic example_params).

Definition two_feature_world : World := mkWorld [0; 0; 1; 0]%nat [].

Definition two_feature_run : Result (Tensor2 * World) :=
  Eval vm_compute in
    @invaseClassifier._importance_test rational_stand_ins exact_floats
      two_feature_classifier echo_estimator [[0%Q; 1%Q]] [[0%Q; 3%Q]]
      two_feature_world.

Definition two_feature_target : Tensor2 :=
  Eval vm_compute in
    match two_feature_run with
    | Ok (target, _) => target
    | Err _ => []
    end.

Definition two_feature_final_world : World :=
  Eval vm_compute in
    match two_feature_run with
    | Ok (_, w) => w
    | Err _ => two_feature_world
    end.

(** A risk-estimation explainer over one binary feature and one horizon,
    and an estimator whose risk is 0 when the feature is 0 and 1
    otherwise. *)
Definition one_horizon_explainer : invaseRiskEstimation.t :=
  invaseRiskEstimation.mk [1%Q] 1 1 (Masking.mk DType.float64 [[0%Q; 1%Q]]) example_config
                          (invaseRiskEstimation._build_critic example_params).

Definition threshold_estimator : RiskEstimator :=
  mkRiskEstimator
    (fun x times =>
       map (fun row => map (fun _ => if Qeq_bool (hd 0%Q row) 0 then 0%Q else 1%Q)
                           times) x).

(* ===================================================================== *)
(** ** Vocabulary of the further properties *)
(* ===================================================================== *)

(** A mask whose entries are 0 or 1. *)
Definition binary (mask : list Z) : Prop := Forall (fun b => b = 0 \/ b = 1) mask.

(** The number of ones of a mask. *)
Definition ones_count (mask : list Z) : nat := count_occ Z.eq_dec mask 1.

(** The binomial coefficient, by Pascal's rule. *)
Fixpoint choose (n m : nat) : nat :=
  match m, n with
  | O, _ => 1
  | S _, O => 0
  | S m', S n' => choose n' m' + choose n' m
  end.

(** The masks of length [n] with [m] ones. *)
Definition mask_of (n m : nat) (mask : list Z) : Prop :=
  length mask = n /\ binary mask /\ ones_count mask = m.

(** A batch with one entry per feature distribution in every row. *)
Definition well_shaped (masking : Masking.t) (x : Tensor2) : Prop :=
  Forall (fun row => length row = length (Masking.masking_values masking)) x.

(** The exceptions other than the [RuntimeError]s the source raises. *)
Definition not_runtime_error (e : PyError) : Prop :=
  Masking.is_validation_error e = false.

(** An estimator object with neither [predict_proba] nor [predict]. *)
Definition bare_estimator : Classifier := mkClassifier None None.

(** A risk estimator whose predictions have no column. *)
Definition columnless_estimator : RiskEstimator :=
  mkRiskEstimator (fun x _ => map (fun _ => []) x).

(** The single feature of a batch with one column. *)
Definition single_feature (x : Tensor2) : Prop :=
  Forall (fun row => length row = 1%nat) x.

(** A run of the classification builder on two instances of one feature. *)
Definition single_feature_run : Result (Tensor2 * World) :=
  Eval vm_compute in
    @invaseClassifier._importance_test rational_stand_ins exact_floats
      short_classifier echo_estimator [[0%Q]; [1%Q]] [[1%Q]; [0%Q]]
      (mkWorld [1; 0; 1]%nat []).

Definition single_feature_target : Tensor2 :=
  Eval vm_compute in
    match single_feature_run with
    | Ok (target, _) => target
    | Err _ => []
    end.

Definition single_feature_final_world : World :=
  Eval vm_compute in
    match single_feature_run with
    | Ok (_, w) => w
    | Err _ => mkWorld [] []
    end.

(** The explanation of two instances by the one-horizon risk explainer. *)
Definition one_horizon_explanation_run : Result (Tensor3 * World) :=
  Eval vm_compute in
    @invaseRiskEstimation.explain rational_stand_ins one_horizon_explainer
      [[1%Q]; [2%Q]] (mkWorld [] []).

Definition one_horizon_explanation : Tensor3 :=
  Eval vm_compute in
    match one_horizon_explanation_run with
    | Ok (out, _) => out
    | Err _ => []
    end.

(** The explanation of two instances by the example classifier, its second
    hidden unit of the first instance dropped. *)
Definition example_explanation_world : World := mkWorld [] [0; 1]%nat.

Definition example_explanation_run : Result (Tensor2 * World) :=
  Eval vm_compute in
    @invaseClassifier.explain rational_stand_ins example_classifier
      [[1%Q]; [2%Q]] example_explanation_world.

Definition example_explanation : Tensor2 :=
  Eval vm_compute in
    match example_explanation_run with
    | Ok (out, _) => out
    | Err _ => []
    end.

Definition example_explanation_final_world : World :=
  Eval vm_compute in
    match example_explanation_run with
    | Ok (_, w) => w
    | Err _ => example_explanation_world
    end.

(* ===================================================================== *)
(** * Properties *)
(* ===================================================================== *)

(* --------------------------------------------------------------------- *)
(** *** Properties of the enumerator *)

Lemma bitmasks_rec_fuel (f1 : nat) :
  forall f2 n m, (Z.to_nat n <= f1)%nat -> (Z.to_nat n <= f2)%nat ->
    bitmasks_rec f1 n m = bitmasks_rec f2 n m.
Proof.
  induction f1 as [|f1 IH]; intros f2 n m H1 H2.
  - destruct f2 as [|f2]; [reflexivity|].
    simpl. destruct (m <? n) eqn:Hmn; [|reflexivity].
    destruct (0 <? m) eqn:Hm; [|reflexivity].
    apply Z.ltb_lt in Hmn. apply Z.ltb_lt in Hm. lia.
  - destruct f2 as [|f2].
    + simpl. destruct (m <? n) eqn:Hmn; [|reflexivity].
      destruct (0 <? m) eqn:Hm; [|reflexivity].
      apply Z.ltb_lt in Hmn. apply Z.ltb_lt in Hm. lia.
    + simpl. destruct (m <? n) eqn:Hmn; [|reflexivity].
      destruct (0 <? m) eqn:Hm; [|reflexivity].
      apply Z.ltb_lt in Hmn. apply Z.ltb_lt in Hm.
      rewrite (IH f2 (n - 1) (m - 1)) by lia.
      rewrite (IH f2 (n - 1) m) by lia.
      reflexivity.
Qed.

(** The defining equation of [bitmasks], as the source reads. *)
Lemma bitmasks_eq (n m : Z) :
  bitmasks n m =
  if m <? n then
    if 0 <? m then
      map (cons 1) (bitmasks (n - 1) (m - 1)) ++ map (cons 0) (bitmasks (n - 1) m)
    else [Py.replicate 0 n]
  else [Py.replicate 1 n].
Proof.
  unfold bitmasks.
  destruct (m <? n) eqn:Hmn.
  - destruct (0 <? m) eqn:Hm.
    + pose proof (proj1 (Z.ltb_lt _ _) Hmn). pose proof (proj1 (Z.ltb_lt _ _) Hm).
      destruct (Z.to_nat n) as [|k] eqn:Hk; [lia|].
      simpl. rewrite Hmn, Hm.
      rewrite (bitmasks_rec_fuel k (Z.to_nat (n - 1)) (n - 1) (m - 1)) by lia.
      rewrite (bitmasks_rec_fuel k (Z.to_nat (n - 1)) (n - 1) m) by lia.
      reflexivity.
    + destruct (Z.to_nat n); simpl; rewrite Hmn, Hm; reflexivity.
  - destruct (Z.to_nat n); simpl; rewrite Hmn; reflexivity.
Qed.

Lemma range_single (k : Z) : Py.range k (k + 1) = [k].
Proof.
  unfold Py.range. replace (k + 1 - k) with 1 by lia.
  simpl. f_equal. lia.
Qed.

Lemma bitmask_intervals_single (n k : Z) :
  bitmask_intervals n k (k + 1) = bitmasks n k.
Proof.
  unfold bitmask_intervals. rewrite range_single. simpl. apply app_nil_r.
Qed.

Lemma bitmasks_zero (n : Z) : 1 <= n -> bitmasks n 0 = [Py.replicate 0 n].
Proof.
  intros Hn. rewrite bitmasks_eq.
  destruct (0 <? n) eqn:H0; [reflexivity|].
  apply Z.ltb_ge in H0. lia.
Qed.

Lemma bitmasks_full (n : Z) : bitmasks n n = [Py.replicate 1 n].
Proof. rewrite bitmasks_eq. rewrite Z.ltb_irrefl. reflexivity. Qed.

Lemma leave_one_out_0 (k : nat) :
  leave_one_out (S k) 0 = 0 :: repeat 1 k.
Proof. unfold leave_one_out. simpl. do 2 f_equal. lia. Qed.

Lemma leave_one_out_S (k p : nat) :
  leave_one_out (S (S k)) (S p) = 1 :: leave_one_out (S k) p.
Proof. unfold leave_one_out. simpl. do 4 f_equal. lia. Qed.

(** The leave-one-out tier in closed form: the masks come out with the
    hidden position moving from the last feature down to the first. *)
Lemma bitmasks_leave_one_out (k : nat) :
  bitmasks (Z.of_nat (S k)) (Z.of_nat k)
  = rev (map (leave_one_out (S k)) (seq 0 (S k))).
Proof.
  induction k as [|k IH].
  - reflexivity.
  - rewrite bitmasks_eq.
    replace (Z.of_nat (S k) <? Z.of_nat (S (S k))) with true
      by (symmetry; apply Z.ltb_lt; lia).
    replace (0 <? Z.of_nat (S k)) with true
      by (symmetry; apply Z.ltb_lt; lia).
    replace (Z.of_nat (S (S k)) - 1) with (Z.of_nat (S k)) by lia.
    replace (Z.of_nat (S k) - 1) with (Z.of_nat k) by lia.
    rewrite IH, bitmasks_full.
    change (seq 0 (S (S k))) with (0%nat :: seq 1 (S k)).
    cbn [map rev].
    rewrite <- seq_shift, map_map.
    rewrite leave_one_out_0.
    rewrite map_rev, map_map.
    f_equal.
    + f_equal. apply map_ext. intros p. symmetry. apply leave_one_out_S.
    + unfold Py.replicate. rewrite Nat2Z.id. reflexivity.
Qed.

Lemma zero_positions_from_ones (i n : nat) :
  zero_positions_from i (repeat 1 n) = [].
Proof.
  revert i. induction n as [|n IH]; intros i; simpl; [reflexivity|apply IH].
Qed.

Lemma zero_positions_from_app_ones (p : nat) :
  forall i rest,
    zero_positions_from i (repeat 1 p ++ rest) = zero_positions_from (i + p) rest.
Proof.
  induction p as [|p IH]; intros i rest; simpl.
  - rewrite Nat.add_0_r. reflexivity.
  - rewrite IH. f_equal. lia.
Qed.

Lemma zero_positions_leave_one_out (n p : nat) :
  zero_positions (leave_one_out n p) = [p].
Proof.
  unfold zero_positions, leave_one_out.
  rewrite zero_positions_from_app_ones. simpl.
  rewrite zero_positions_from_ones. reflexivity.
Qed.

Lemma leave_one_out_length (n p : nat) :
  (p < n)%nat -> length (leave_one_out n p) = n.
Proof.
  intros H. unfold leave_one_out.
  rewrite length_app. simpl. rewrite !repeat_length. lia.
Qed.

Lemma count_occ_ones (n : nat) : count_occ Z.eq_dec (repeat 1 n) 0 = 0%nat.
Proof. induction n; simpl; [reflexivity|assumption]. Qed.

Lemma leave_one_out_count (n p : nat) :
  count_occ Z.eq_dec (leave_one_out n p) 0 = 1%nat.
Proof.
  unfold leave_one_out. rewrite count_occ_app. simpl.
  rewrite !count_occ_ones. reflexivity.
Qed.

Lemma leave_one_out_bits (n p : nat) (b : Z) :
  In b (leave_one_out n p) -> b = 0 \/ b = 1.
Proof.
  unfold leave_one_out. intros H. apply in_app_or in H.
  destruct H as [H|[H|H]].
  - apply repeat_spec in H. auto.
  - auto.
  - apply repeat_spec in H. auto.
Qed.


Lemma bitmask_intervals_leave_one_out (k : nat) :
  bitmask_intervals (Z.of_nat (S k)) (Z.of_nat (S k) - 1) (Z.of_nat (S k))
  = rev (map (leave_one_out (S k)) (seq 0 (S k))).
Proof.
  replace (Z.of_nat (S k) - 1) with (Z.of_nat k) by lia.
  replace (Z.of_nat (S k)) with (Z.of_nat k + 1) at 2 by lia.
  rewrite bitmask_intervals_single. apply bitmasks_leave_one_out.
Qed.

Lemma replicate_zero_not_ones (n : Z) :
  1 <= n -> Py.replicate 0 n <> Py.replicate 1 n.
Proof.
  intros Hn. unfold Py.replicate.
  destruct (Z.to_nat n) as [|k] eqn:Hk; [lia|].
  simpl. discriminate.
Qed.

(** C3 (counterexample).  For three features the cardinality-0 tier is the
    single mask of three zeros, which is not the all-ones mask. *)
Lemma cardinality_zero_yields_zeros_at_3 :
  bitmask_intervals 3 0 1 = [[0; 0; 0]]
  /\ bitmasks 3 0 = [[0; 0; 0]]
  /\ [0; 0; 0] <> Py.replicate 1 3.
Proof. repeat split. discriminate. Qed.

(** C3 (amended).  For every mask length n >= 1 the enumerator invoked for
    cardinality 0 yields exactly one mask, and that mask is the all-zeros
    mask (hide everything); it differs from the all-ones mask. *)
Theorem cardinality_zero_yields_all_zeros (n : Z) :
  1 <= n ->
  bitmask_intervals n 0 1 = [Py.replicate 0 n]
  /\ bitmasks n 0 = [Py.replicate 0 n]
  /\ Py.replicate 0 n <> Py.replicate 1 n.
Proof.
  intros Hn.
  pose proof (bitmask_intervals_single n 0) as E. simpl in E. rewrite E.
  rewrite bitmasks_zero by exact Hn.
  repeat split. apply replicate_zero_not_ones. exact Hn.
Qed.

Lemma cardinality_zero_yields_all_zeros_witness :
  1 <= 4 /\
  bitmask_intervals 4 0 1 = [Py.replicate 0 4]
  /\ bitmasks 4 0 = [Py.replicate 0 4]
  /\ Py.replicate 0 4 <> Py.replicate 1 4.
Proof.
  split; [lia|]. apply (cardinality_zero_yields_all_zeros 4). lia.
Defined.

(** C6.  For every feature count F >= 1, [bitmask_intervals(F, F-1, F)]
    yields exactly F masks; each has length F, entries in {0,1} and exactly
    one zero; and the zero positions of the yielded masks are the feature
    positions 0..F-1, each exactly once. *)
Theorem leave_one_out_tier_covers_each_feature_once (F : Z) :
  1 <= F ->
  let masks := bitmask_intervals F (F - 1) F in
  length masks = Z.to_nat F
  /\ (forall mask, In mask masks ->
        length mask = Z.to_nat F
        /\ count_occ Z.eq_dec mask 0 = 1%nat
        /\ forall b, In b mask -> b = 0 \/ b = 1)
  /\ Permutation (map zero_positions masks)
                 (map (fun p => [p]) (seq 0 (Z.to_nat F))).
Proof.
  intros HF masks. subst masks.
  destruct (Z.to_nat F) as [|k] eqn:Hk; [lia|].
  replace F with (Z.of_nat (S k)) by lia.
  rewrite bitmask_intervals_leave_one_out.
  split; [|split].
  - rewrite length_rev, length_map, length_seq. reflexivity.
  - intros mask Hin. apply in_rev in Hin. apply in_map_iff in Hin.
    destruct Hin as (p & <- & Hp). apply in_seq in Hp.
    split; [apply leave_one_out_length; lia|].
    split; [apply leave_one_out_count|].
    intros b. apply leave_one_out_bits.
  - rewrite map_rev, map_map.
    rewrite (map_ext _ (fun p => [p])) by (intros p; apply zero_positions_leave_one_out).
    symmetry. apply Permutation_rev.
Qed.

Lemma leave_one_out_tier_covers_each_feature_once_witness :
  1 <= 3 /\
  let masks := bitmask_intervals 3 (3 - 1) 3 in
  length masks = Z.to_nat 3
  /\ (forall mask, In mask masks ->
        length mask = Z.to_nat 3
        /\ count_occ Z.eq_dec mask 0 = 1%nat
        /\ forall b, In b mask -> b = 0 \/ b = 1)
  /\ Permutation (map zero_positions masks)
                 (map (fun p => [p]) (seq 0 (Z.to_nat 3))).
Proof.
  split; [lia|]. apply (leave_one_out_tier_covers_each_feature_once 3). lia.
Defined.

Example bitmask_intervals_3_2_3 :
  bitmask_intervals 3 2 3 = [[1; 1; 0]; [1; 0; 1]; [0; 1; 1]].
Proof. reflexivity. Qed.

(* --------------------------------------------------------------------- *)
(** *** Generic facts about the monad and the list helpers *)

Lemma bind_ok {A B} (c : M A) (k : A -> M B) w b w' :
  bind c k w = Ok (b, w') ->
  exists a w1, c w = Ok (a, w1) /\ k a w1 = Ok (b, w').
Proof.
  unfold bind. destruct (c w) as [[a w1]|e]; [|discriminate].
  intros H. exists a, w1. split; [reflexivity|assumption].
Qed.

Lemma lift_ok {A} (r : Result A) w a w' :
  lift r w = Ok (a, w') -> r = Ok a /\ w' = w.
Proof.
  unfold lift. destruct r as [a0|e]; [|discriminate].
  intros H. inversion H. subst. split; reflexivity.
Qed.

Lemma ret_ok {A} (a : A) w b w' : ret a w = Ok (b, w') -> b = a /\ w' = w.
Proof. unfold ret. intros H. inversion H. split; reflexivity. Qed.

Lemma map_m_length {A B} (f : A -> M B) (l : list A) :
  forall w bs w', map_m f l w = Ok (bs, w') -> length bs = length l.
Proof.
  induction l as [|a l IH]; intros w bs w' H; simpl in H.
  - apply ret_ok in H. destruct H as [-> _]. reflexivity.
  - apply bind_ok in H. destruct H as (b & w1 & _ & H).
    apply bind_ok in H. destruct H as (bs' & w2 & Hbs & H).
    apply ret_ok in H. destruct H as [-> _].
    simpl. f_equal. eapply IH. eassumption.
Qed.

Lemma zip_with_length {A B C} (f : A -> B -> C) (a : list A) :
  forall b, length (zip_with f a b) = Nat.min (length a) (length b).
Proof.
  induction a as [|x a IH]; intros [|y b]; simpl; try reflexivity.
  f_equal. apply IH.
Qed.

Lemma nth_zip_with {A B C} (f : A -> B -> C) (a : list A) :
  forall (b : list B) (i : nat) da db dc,
    (i < length a)%nat -> (i < length b)%nat ->
    nth i (zip_with f a b) dc = f (nth i a da) (nth i b db).
Proof.
  induction a as [|x a IH]; intros [|y b] i da db dc Ha Hb; simpl in *; try lia.
  destruct i as [|i]; [reflexivity|].
  apply IH; lia.
Qed.

Lemma transpose_length (n : nat) cols : length (transpose n cols) = n.
Proof. unfold transpose. rewrite length_map, length_seq. reflexivity. Qed.

Lemma nth_map_seq {A} (f : nat -> A) (n i : nat) (d : A) :
  (i < n)%nat -> nth i (map f (seq 0 n)) d = f i.
Proof.
  intros Hi.
  rewrite (nth_indep _ d (f 0%nat)) by (rewrite length_map, length_seq; exact Hi).
  rewrite (map_nth f (seq 0 n) 0%nat i), seq_nth by exact Hi. reflexivity.
Qed.

Lemma nth_transpose (n : nat) cols (i : nat) :
  (i < n)%nat ->
  nth i (transpose n cols) [] = map (fun c => nth i c 0%Q) cols.
Proof.
  intros Hi. unfold transpose.
  exact (nth_map_seq (fun k => map (fun c => nth k c 0%Q) cols) n i [] Hi).
Qed.

Lemma elementwise_same_length (f : Q -> Q -> Q) (a b : Tensor2) :
  length a = length b -> elementwise f a b = Ok (zip_with (zip_with f) a b).
Proof. intros H. unfold elementwise. rewrite H, Nat.eqb_refl. reflexivity. Qed.

Lemma nth_row_zip_with (f : Q -> Q -> Q) (a b : Tensor2) (i : nat) :
  (i < length a)%nat -> (i < length b)%nat ->
  nth i (zip_with (zip_with f) a b) [] = zip_with f (nth i a []) (nth i b []).
Proof. intros Ha Hb. apply nth_zip_with; assumption. Qed.

Lemma nth2_zip_with (f : Q -> Q -> Q) (a b : Tensor2) (i j : nat) :
  (i < length a)%nat -> (i < length b)%nat ->
  (j < length (nth i a []))%nat -> (j < length (nth i b []))%nat ->
  nth j (nth i (zip_with (zip_with f) a b) []) 0%Q
  = f (nth j (nth i a []) 0%Q) (nth j (nth i b []) 0%Q).
Proof.
  intros Ha Hb Hja Hjb.
  rewrite nth_row_zip_with by assumption.
  apply nth_zip_with; assumption.
Qed.

Lemma nth2_map_map (g : Q -> Q) (a : Tensor2) (i j : nat) :
  (i < length a)%nat -> (j < length (nth i a []))%nat ->
  nth j (nth i (map (map g) a) []) 0%Q = g (nth j (nth i a []) 0%Q).
Proof.
  intros Hi Hj.
  rewrite (nth_indep _ [] (map g [])) by (rewrite length_map; exact Hi).
  rewrite map_nth.
  rewrite (nth_indep _ 0%Q (g 0%Q)) by (rewrite length_map; exact Hj).
  apply map_nth.
Qed.

Lemma nth_row_map_map (g : Q -> Q) (a : Tensor2) (i : nat) :
  nth i (map (map g) a) [] = map g (nth i a []).
Proof. change (@nil Q) with (map g []) at 1. apply map_nth. Qed.

Lemma raises_only_ret {A} P (a : A) : raises_only P (ret a).
Proof. intros w e H. discriminate. Qed.

Lemma raises_only_raise {A} (P : PyError -> Prop) e :
  P e -> raises_only P (@raise A e).
Proof. intros HP w e' H. injection H as <-. exact HP. Qed.

Lemma raises_only_bind {A B} P (c : M A) (k : A -> M B) :
  raises_only P c -> (forall a, raises_only P (k a)) -> raises_only P (bind c k).
Proof.
  intros Hc Hk w e. unfold bind.
  destruct (c w) as [[a w1]|e1] eqn:Hcw.
  - apply Hk.
  - intros H. injection H as <-. eapply Hc. eassumption.
Qed.

Lemma raises_only_lift {A} (P : PyError -> Prop) (r : Result A) :
  (forall e, r = Err e -> P e) -> raises_only P (lift r).
Proof.
  intros Hr w e. unfold lift. destruct r as [a|e1]; [discriminate|].
  intros H. injection H as <-. apply Hr. reflexivity.
Qed.

Lemma raises_only_map_m {A B} P (f : A -> M B) (l : list A) :
  (forall a, raises_only P (f a)) -> raises_only P (map_m f l).
Proof.
  intros Hf. induction l as [|a l IH]; simpl.
  - apply raises_only_ret.
  - apply raises_only_bind; [apply Hf|].
    intros b. apply raises_only_bind; [exact IH|].
    intros bs. apply raises_only_ret.
Qed.

Lemma raises_only_for_each {A St} P (body : A -> St -> M St) (l : list A) :
  (forall a s, raises_only P (body a s)) ->
  forall acc, raises_only P (for_each l body acc).
Proof.
  intros Hb. induction l as [|a l IH]; intros acc; simpl.
  - apply raises_only_ret.
  - apply raises_only_bind; [apply Hb|]. intros s. apply IH.
Qed.

Lemma np_draw_total w : exists r w', np_draw w = Ok (r, w').
Proof. unfold np_draw. destruct (draw (np_rng w)) as [r t]. eauto. Qed.

Lemma torch_draw_total w : exists r w', torch_draw w = Ok (r, w').
Proof. unfold torch_draw. destruct (draw (torch_rng w)) as [r t]. eauto. Qed.

Lemma raises_only_np_draw P : raises_only P np_draw.
Proof.
  intros w e H. destruct (np_draw_total w) as (r & w' & Hr). congruence.
Qed.

Lemma raises_only_torch_draw P : raises_only P torch_draw.
Proof.
  intros w e H. destruct (torch_draw_total w) as (r & w' & Hr). congruence.
Qed.

Lemma elementwise_error f a b e : elementwise f a b = Err e -> e = TorchError.
Proof.
  unfold elementwise.
  destruct (length a =? length b)%nat; [discriminate|].
  destruct (length a =? 1)%nat; [discriminate|].
  destruct (length b =? 1)%nat; [discriminate|].
  intros H. injection H as <-. reflexivity.
Qed.

(* --------------------------------------------------------------------- *)
(** *** Rounding *)

Section RoundingFacts.

Local Open Scope Q_scope.

Lemma round_proper (r : Rounding) (a b : Q) : a == b -> round r a == round r b.
Proof.
  intros H. apply Qle_antisym; apply round_monotone; rewrite H; apply Qle_refl.
Qed.

Lemma round_zero (r : Rounding) : round r 0 == 0.
Proof. apply (round_integer r 0%Z). simpl. lia. Qed.

Lemma round_one (r : Rounding) : round r 1 == 1.
Proof. apply (round_integer r 1%Z). simpl. lia. Qed.

Context {F : Floats}.

Lemma fl_proper (a b : Q) : a == b -> fl a == fl b.
Proof. apply round_proper. Qed.

Lemma rnd_proper (a b : Q) : a == b -> rnd a == rnd b.
Proof. apply round_proper. Qed.

(** The sentinel is a small integer: the conversion to float32 keeps it. *)
Lemma fl_sentinel (d : DType.t) : fl (Masking.sentinel d) == Masking.sentinel d.
Proof.
  unfold fl.
  destruct d; cbn [Masking.sentinel];
    first [ apply (round_integer single (-1)%Z)
          | apply (round_integer single 255%Z)
          | apply (round_integer single 1%Z) ];
    simpl; lia.
Qed.

(** A draw that is the float32 value of the feature compares equal to it,
    whatever the element type of the draws. *)
Lemma unchanged_same (d : DType.t) (f s : Q) :
  fl f == f -> s == f -> Masking.unchanged d f s = true.
Proof.
  intros Hf Hs.
  assert (H64 : Qeq_bool f s = true)
    by (apply Qeq_bool_iff; symmetry; exact Hs).
  assert (H32 : Qeq_bool f (fl s) = true).
  { apply Qeq_bool_iff. rewrite (fl_proper s f Hs). symmetry. exact Hf. }
  destruct d; cbn [Masking.unchanged]; assumption.
Qed.

End RoundingFacts.

(* --------------------------------------------------------------------- *)
(** *** The Masking Sampler *)

Section MaskingFacts.

Local Open Scope Q_scope.

Context {F : Floats}.

Variable self : Masking.t.

Let D : nat := length (Masking.masking_values self).

Lemma draw_replacements_shape (n : nat) w drawn w' :
  Masking.draw_replacements self n w = Ok (drawn, w') ->
  length drawn = n /\
  forall i, (i < n)%nat -> length (nth i drawn []) = D.
Proof.
  unfold Masking.draw_replacements. intros H.
  apply bind_ok in H. destruct H as (cols & w1 & Hcols & H).
  apply ret_ok in H. destruct H as [-> _].
  split; [apply transpose_length|].
  intros i Hi. rewrite nth_transpose by exact Hi.
  rewrite length_map. eapply map_m_length. eassumption.
Qed.

(** What a successful call computed, step by step. *)
Lemma forward_ok_inv (x sel : Tensor2) w res w' :
  Masking.forward self [x; sel] w = Ok (res, w') ->
  exists drawn kept replaced result,
    Masking.draw_replacements self (length x) w = Ok (drawn, w') /\
    elementwise Qmult x sel = Ok kept /\
    elementwise Qmult (map (map (fun s => 1 - s)%Q) sel)
                (Masking.exclude_unchanged self x drawn) = Ok replaced /\
    elementwise Qplus kept replaced = Ok result /\
    res = map (map fl) result.
Proof.
  unfold Masking.forward. cbn [length Nat.eqb negb nth].
  intros H.
  apply bind_ok in H. destruct H as (f0 & w1 & Hf0 & H).
  apply lift_ok in Hf0. destruct Hf0 as [Hf0 ->].
  destruct (negb (length f0 =? length (Masking.masking_values self))%nat);
    [discriminate|].
  apply bind_ok in H. destruct H as (s0 & w1 & Hs0 & H).
  apply lift_ok in Hs0. destruct Hs0 as [Hs0 ->].
  destruct (negb (length s0 =? length (Masking.masking_values self))%nat);
    [discriminate|].
  apply bind_ok in H. destruct H as (drawn & w1 & Hdrawn & H).
  destruct (length (Masking.masking_values self) =? 0)%nat; [discriminate|].
  apply bind_ok in H. destruct H as (kept & w2 & Hkept & H).
  apply lift_ok in Hkept. destruct Hkept as [Hkept ->].
  apply bind_ok in H. destruct H as (replaced & w2 & Hrep & H).
  apply lift_ok in Hrep. destruct Hrep as [Hrep ->].
  apply bind_ok in H. destruct H as (result & w2 & Hres & H).
  apply lift_ok in Hres. destruct Hres as [Hres ->].
  apply ret_ok in H. destruct H as [-> ->].
  exists drawn, kept, replaced, result. auto.
Qed.

(** The formula of lines 87-92 at one entry, on batches with the same
    number of rows. *)
Lemma forward_entry (x sel : Tensor2) w res w' :
  length sel = length x ->
  Masking.forward self [x; sel] w = Ok (res, w') ->
  exists drawn,
    Masking.draw_replacements self (length x) w = Ok (drawn, w')
    /\ length res = length x
    /\ forall i, (i < length x)%nat ->
         length (nth i res [])
         = Nat.min (Nat.min (length (nth i x [])) (length (nth i sel [])))
                   (Nat.min (length (nth i sel []))
                            (Nat.min (length (nth i x [])) D))
         /\ forall j,
              (j < length (nth i x []))%nat -> (j < length (nth i sel []))%nat ->
              (j < D)%nat ->
              nth j (nth i res []) 0
              = fl (nth j (nth i x []) 0 * nth j (nth i sel []) 0
                    + (1 - nth j (nth i sel []) 0)
                      * (if Masking.unchanged (Masking.dtype self)
                              (nth j (nth i x []) 0) (nth j (nth i drawn []) 0)
                         then Masking.sentinel (Masking.dtype self)
                         else nth j (nth i drawn []) 0)).
Proof.
  intros Hlen H.
  apply forward_ok_inv in H.
  destruct H as (drawn & kept & replaced & result
                 & Hdrawn & Hkept & Hrep & Hres & ->).
  exists drawn. split; [exact Hdrawn|].
  destruct (draw_replacements_shape _ _ _ _ Hdrawn) as [Hdl Hdw].
  assert (Hex_len : length (Masking.exclude_unchanged self x drawn) = length x).
  { unfold Masking.exclude_unchanged. rewrite zip_with_length. lia. }
  rewrite elementwise_same_length in Hkept by (symmetry; exact Hlen).
  rewrite elementwise_same_length in Hrep
    by (rewrite length_map, Hex_len; exact Hlen).
  injection Hkept as <-. injection Hrep as <-.
  rewrite elementwise_same_length in Hres
    by (rewrite !zip_with_length, length_map, Hex_len; lia).
  injection Hres as <-.
  assert (Hrows : length
            (zip_with (zip_with Qplus) (zip_with (zip_with Qmult) x sel)
               (zip_with (zip_with Qmult) (map (map (fun s => 1 - s)) sel)
                  (Masking.exclude_unchanged self x drawn))) = length x)
    by (rewrite !zip_with_length, length_map, Hex_len; lia).
  split; [rewrite length_map; exact Hrows|].
  intros i Hi.
  specialize (Hdw i Hi). fold D in Hdw.
  pose (hide := fun f s : Q =>
                  if Masking.unchanged (Masking.dtype self) f s
                  then Masking.sentinel (Masking.dtype self) else s).
  assert (Hex_row : nth i (Masking.exclude_unchanged self x drawn) []
                    = zip_with hide (nth i x []) (nth i drawn [])).
  { unfold Masking.exclude_unchanged. apply nth_zip_with; lia. }
  assert (Hrow : nth i
            (zip_with (zip_with Qplus) (zip_with (zip_with Qmult) x sel)
               (zip_with (zip_with Qmult) (map (map (fun s => 1 - s)) sel)
                  (Masking.exclude_unchanged self x drawn))) []
          = zip_with Qplus
              (zip_with Qmult (nth i x []) (nth i sel []))
              (zip_with Qmult (map (fun s => 1 - s) (nth i sel []))
                 (zip_with hide (nth i x []) (nth i drawn [])))).
  { rewrite nth_row_zip_with
      by (rewrite ?zip_with_length, ?length_map, ?Hex_len; lia).
    rewrite nth_row_zip_with by lia.
    rewrite nth_row_zip_with by (rewrite ?length_map, ?Hex_len; lia).
    rewrite nth_row_map_map, Hex_row. reflexivity. }
  rewrite nth_row_map_map, Hrow. split.
  - rewrite length_map, !zip_with_length, length_map, Hdw. reflexivity.
  - intros j Hjx Hjs HjD.
    rewrite (nth_indep _ 0 (fl 0))
      by (rewrite length_map, !zip_with_length, length_map, Hdw; lia).
    rewrite (map_nth fl).
    rewrite (nth_zip_with _ _ _ _ 0 0 0)
      by (rewrite !zip_with_length, ?length_map, ?Hdw; lia).
    rewrite (nth_zip_with _ _ _ _ 0 0 0) by lia.
    rewrite (nth_zip_with _ _ _ _ 0 0 0)
      by (rewrite ?zip_with_length, ?length_map, ?Hdw; lia).
    rewrite (nth_zip_with _ _ _ _ 0 0 0) by lia.
    rewrite (nth_indep (map (fun s => 1 - s) (nth i sel [])) 0
                       ((fun s => 1 - s) 0)) by (rewrite length_map; lia).
    rewrite (map_nth (fun s => 1 - s)). reflexivity.
Qed.

(** C4 (amended).  When [Masking.forward] succeeds on a feature batch and a
    selection batch of the same number of rows, then at every position
    whose selection bit is 0, whose feature is a float32 value and whose
    drawn replacement equals that value, the output holds -1 as the element
    type of the masking values stores it: -1 for the floating and the
    signed types, 255 for unsigned bytes, 1 for booleans.  That sentinel is
    distinct from every value observed for the feature exactly when it is
    not one of them. *)
Theorem masking_unchanged_draw_gives_sentinel (x sel : Tensor2) w res w' :
  length sel = length x ->
  Masking.forward self [x; sel] w = Ok (res, w') ->
  exists drawn,
    Masking.draw_replacements self (length x) w = Ok (drawn, w') /\
    forall i j,
      (i < length x)%nat ->
      (j < length (nth i x []))%nat -> (j < length (nth i sel []))%nat ->
      (j < D)%nat ->
      nth j (nth i sel []) 0 == 0 ->
      fl (nth j (nth i x []) 0) == nth j (nth i x []) 0 ->
      nth j (nth i drawn []) 0 == nth j (nth i x []) 0 ->
      nth j (nth i res []) 0 == Masking.sentinel (Masking.dtype self) /\
      ((forall v, In v (nth j (Masking.masking_values self) []) ->
                  ~ nth j (nth i res []) 0 == v)
       <-> (forall v, In v (nth j (Masking.masking_values self) []) ->
                      ~ v == Masking.sentinel (Masking.dtype self))).
Proof.
  intros Hlen H.
  destruct (forward_entry x sel w res w' Hlen H) as (drawn & Hdrawn & _ & Hrows).
  exists drawn. split; [exact Hdrawn|].
  intros i j Hi Hjx Hjs HjD Hsel Hfloat Hsame.
  destruct (Hrows i Hi) as [_ Hentry].
  specialize (Hentry j Hjx Hjs HjD).
  rewrite (unchanged_same _ _ _ Hfloat Hsame) in Hentry.
  assert (Hval : nth j (nth i res []) 0 == Masking.sentinel (Masking.dtype self)).
  { rewrite Hentry. rewrite <- fl_sentinel at 2. apply fl_proper.
    rewrite Hsel. ring. }
  split; [exact Hval|].
  split; intros Hall v Hv Heq.
  - apply (Hall v Hv). rewrite Hval. symmetry. exact Heq.
  - apply (Hall v Hv). rewrite <- Heq. exact Hval.
Qed.

Lemma draw_replacements_errors (n : nat) :
  raises_only (fun e => e = ValueError) (Masking.draw_replacements self n).
Proof.
  unfold Masking.draw_replacements.
  apply raises_only_bind; [|intros cols; apply raises_only_ret].
  apply raises_only_map_m. intros vals.
  unfold np_random_choice. destruct vals as [|v0 vals'].
  - apply raises_only_raise. reflexivity.
  - apply raises_only_map_m. intros _.
    apply raises_only_bind; [apply raises_only_np_draw|].
    intros r. apply raises_only_ret.
Qed.

(** C8.  [Masking.forward] raises one of its own input errors exactly when
    the number of tensors is not 2, or the per-instance lengths of the
    feature batch and of the selection batch disagree, or one of them
    differs from the number of per-feature distributions; the two batches
    are taken to have at least one instance each, so that their per-instance
    lengths exist. *)
Theorem forward_validation_error_iff (tensors : list Tensor2) (w : World) :
  (length tensors = 2%nat -> forall t, In t tensors -> t <> []) ->
  (exists e, Masking.forward self tensors w = Err e
             /\ Masking.is_validation_error e = true)
  <->
  (length tensors <> 2%nat
   \/ width (nth 0 tensors []) <> width (nth 1 tensors [])
   \/ width (nth 0 tensors []) <> D
   \/ width (nth 1 tensors []) <> D).
Proof.
  intros Hne. unfold Masking.forward.
  destruct (length tensors =? 2)%nat eqn:Hlen; cbn [negb].
  2:{ apply Nat.eqb_neq in Hlen. split; [intros _; left; exact Hlen|].
      intros _. eexists. split; reflexivity. }
  apply Nat.eqb_eq in Hlen. specialize (Hne Hlen).
  destruct tensors as [|x [|sel [|? ?]]]; try discriminate.
  cbn [nth].
  destruct x as [|f0 x']; [exfalso; apply (Hne []); simpl; auto|].
  destruct sel as [|s0 sel']; [exfalso; apply (Hne []); simpl; auto|].
  unfold width. cbn [hd first_row lift bind].
  fold D.
  destruct (length f0 =? D)%nat eqn:Hf; cbn [negb].
  2:{ apply Nat.eqb_neq in Hf. split; [intros _; auto|].
      intros _. eexists. split; reflexivity. }
  apply Nat.eqb_eq in Hf.
  cbn [first_row lift bind].
  destruct (length s0 =? D)%nat eqn:Hs; cbn [negb].
  2:{ apply Nat.eqb_neq in Hs. split; [intros _; auto|].
      intros _. eexists. split; reflexivity. }
  apply Nat.eqb_eq in Hs.
  split.
  - intros (e & He & Hval). exfalso.
    assert (Hrest : raises_only (fun e => Masking.is_validation_error e = false)
              (sampled_mask <-
                 Masking.draw_replacements self (length (f0 :: x')) ;;
               (if (D =? 0)%nat
                then raise IndexError
                else
                  kept <- lift (elementwise Qmult (f0 :: x') (s0 :: sel')) ;;
                  replaced <-
                    lift (elementwise Qmult
                            (map (map (fun s : Q => 1 - s)) (s0 :: sel'))
                            (Masking.exclude_unchanged self (f0 :: x')
                                                       sampled_mask)) ;;
                  result <- lift (elementwise Qplus kept replaced) ;;
                  ret (map (map fl) result)))).
    { apply raises_only_bind.
      - intros w0 e0 H0. apply draw_replacements_errors in H0. subst e0.
        reflexivity.
      - intros drawn. destruct (D =? 0)%nat.
        + apply raises_only_raise. reflexivity.
        + apply raises_only_bind.
          * apply raises_only_lift. intros e0 H0.
            apply elementwise_error in H0. subst e0. reflexivity.
          * intros kept. apply raises_only_bind.
            -- apply raises_only_lift. intros e0 H0.
               apply elementwise_error in H0. subst e0. reflexivity.
            -- intros replaced. apply raises_only_bind.
               ++ apply raises_only_lift. intros e0 H0.
                  apply elementwise_error in H0. subst e0. reflexivity.
               ++ intros result. apply raises_only_ret. }
    apply Hrest in He. congruence.
  - intros [H|[H|[H|H]]]; simpl in H; congruence.
Qed.

End MaskingFacts.

Section MaskingExamples.

Local Open Scope Q_scope.

(** At a feature of unsigned bytes whose only observed value is 3, a hidden
    position holding 3 comes out as 255. *)
Lemma masking_unchanged_draw_gives_sentinel_witness :
  let self := Masking.mk DType.uint8 [[3]] in
  let x : Tensor2 := [[3]] in
  let sel : Tensor2 := [[0]] in
  let res : Tensor2 := [[255]] in
  let w := mkWorld [0%nat] [] in
  length sel = length x /\
  @Masking.forward exact_floats self [x; sel] w = Ok (res, mkWorld [] []) /\
  exists drawn,
    Masking.draw_replacements self (length x) w = Ok (drawn, mkWorld [] []) /\
    forall i j,
      (i < length x)%nat ->
      (j < length (nth i x []))%nat -> (j < length (nth i sel []))%nat ->
      (j < length (Masking.masking_values self))%nat ->
      nth j (nth i sel []) 0 == 0 ->
      @fl exact_floats (nth j (nth i x []) 0) == nth j (nth i x []) 0 ->
      nth j (nth i drawn []) 0 == nth j (nth i x []) 0 ->
      nth j (nth i res []) 0 == Masking.sentinel (Masking.dtype self) /\
      ((forall v, In v (nth j (Masking.masking_values self) []) ->
                  ~ nth j (nth i res []) 0 == v)
       <-> (forall v, In v (nth j (Masking.masking_values self) []) ->
                      ~ v == Masking.sentinel (Masking.dtype self))).
Proof.
  intros self x sel res w.
  split; [reflexivity|]. split; [reflexivity|].
  exact (@masking_unchanged_draw_gives_sentinel exact_floats self x sel w res
           (mkWorld [] []) eq_refl eq_refl).
Defined.

Lemma forward_validation_error_iff_witness :
  let self := Masking.mk DType.float64 [[0]] in
  let tensors : list Tensor2 := [[[1]]; [[1; 1]]] in
  let w := mkWorld [] [] in
  (length tensors = 2%nat -> forall t, In t tensors -> t <> []) /\
  ((exists e, @Masking.forward exact_floats self tensors w = Err e
              /\ Masking.is_validation_error e = true)
   <->
   (length tensors <> 2%nat
    \/ width (nth 0 tensors []) <> width (nth 1 tensors [])
    \/ width (nth 0 tensors []) <> length (Masking.masking_values self)
    \/ width (nth 1 tensors []) <> length (Masking.masking_values self))).
Proof.
  intros self tensors w.
  assert (H : length tensors = 2%nat -> forall t, In t tensors -> t <> []).
  { intros _ t [<-|[<-|[]]]; discriminate. }
  split; [exact H|].
  exact (@forward_validation_error_iff exact_floats self tensors w H).
Defined.

(** C4 (counterexample).  With -1 among the observed values of a feature
    of doubles, a hidden position that holds -1 and draws -1 receives the
    sentinel -1, which is an observed value of that feature. *)
Lemma masking_sentinel_can_be_an_observed_value :
  let self := Masking.mk DType.float64 [[-1; 0]] in
  let w := mkWorld [0%nat] [] in
  exists drawn res w',
    Masking.draw_replacements self 1 w = Ok (drawn, w') /\
    @Masking.forward exact_floats self [[[-1]]; [[0]]] w = Ok (res, w') /\
    nth 0 (nth 0 [[0]] []) 0 == 0 /\
    nth 0 (nth 0 drawn []) 0 == nth 0 (nth 0 [[-1]] []) 0 /\
    In (nth 0 (nth 0 res []) 0) (nth 0 (Masking.masking_values self) []).
Proof.
  exists [[-1]], [[-1]], (mkWorld [] []).
  repeat split; try reflexivity.
  simpl. left. reflexivity.
Qed.

(** The same holds under a rounding format: -1 is a float32 value. *)
Example masking_sentinel_can_be_an_observed_float32_value :
  let self := Masking.mk DType.float32 [[-1; 0]] in
  exists res w',
    @Masking.forward two_scale_floats self [[[-1]]; [[0]]] (mkWorld [0%nat] [])
    = Ok (res, w')
    /\ nth 0 (nth 0 res []) 0 == -1.
Proof.
  eexists. eexists. split; [vm_compute; reflexivity|]. reflexivity.
Qed.

(** A double that float32 cannot represent never compares equal to its
    float32 feature: with the only observed value 1/10, the feature holds
    the float32 value of 1/10, every draw is 1/10, line 87 finds them
    different, no sentinel is written and the hidden position comes out
    with the value it had. *)
Example unrepresentable_value_is_never_excluded :
  let self := Masking.mk DType.float64 [[1 # 10]] in
  let x : Tensor2 := [[@fl two_scale_floats (1 # 10)]] in
  ~ @fl two_scale_floats (1 # 10) == 1 # 10
  /\ exists res w',
       @Masking.forward two_scale_floats self [x; [[0]]] (mkWorld [0%nat] [])
       = Ok (res, w')
       /\ nth 0 (nth 0 res []) 0 == nth 0 (nth 0 x []) 0
       /\ ~ nth 0 (nth 0 res []) 0 == Masking.sentinel (Masking.dtype self).
Proof.
  split; [vm_compute; discriminate|].
  eexists. eexists. split; [vm_compute; reflexivity|].
  split; [vm_compute; reflexivity|vm_compute; discriminate].
Qed.

End MaskingExamples.

(* --------------------------------------------------------------------- *)
(** *** [sample] *)

Section SampleFacts.

Context {R : Resampler}.

Lemma resample_rows (X : Tensor2) (n_samples random_state : Z) Y :
  resample X n_samples random_state = Ok Y -> length Y = Z.to_nat n_samples.
Proof.
  unfold resample.
  destruct ((n_samples <? 0) || (length X =? 0)%nat); [discriminate|].
  intros H. injection H as <-.
  rewrite length_map. apply randint_length.
Qed.

(** C10.  On a numpy array, when [nsamples] is at least the number of
    rows, [sample] returns [X] itself, and the result is a resampling, of
    exactly [nsamples] rows, only when [nsamples] is strictly less than the
    number of rows.  The risk-estimation variant never gets that far: its
    constructor has turned [X] into a data frame, which the argument check
    of [sample] refuses, whatever [samples] is. *)
Theorem sample_keeps_an_array_and_refuses_a_data_frame
        (X : Tensor2) (nsamples random_state : Z) :
  (nsamples >= Z.of_nat (length X) ->
     sample (ndarray X) nsamples random_state = Ok X)
  /\ (nsamples < Z.of_nat (length X) ->
        sample (ndarray X) nsamples random_state
        = resample X nsamples random_state
        /\ (0 <= nsamples ->
              exists Y, sample (ndarray X) nsamples random_state = Ok Y
                        /\ length Y = Z.to_nat nsamples))
  /\ sample (DataFrame X) nsamples random_state = Err ValidationError
  /\ invaseRiskEstimation.training_data X nsamples = Err ValidationError.
Proof.
  unfold invaseRiskEstimation.training_data, sample.
  split; [|split; [|split; reflexivity]]; intros H.
  - replace (nsamples >=? Z.of_nat (length X)) with true
      by (symmetry; apply Z.geb_le; lia).
    reflexivity.
  - destruct (nsamples >=? Z.of_nat (length X)) eqn:Hge.
    { apply Z.geb_le in Hge. lia. }
    split; [reflexivity|]. intros H0.
    destruct (resample X nsamples random_state) as [Y|e] eqn:Hres.
    + exists Y. split; [reflexivity|]. eapply resample_rows. eassumption.
    + exfalso. unfold resample in Hres.
      replace (nsamples <? 0) with false in Hres
        by (symmetry; apply Z.ltb_ge; lia).
      replace (length X =? 0)%nat with false in Hres
        by (symmetry; apply Nat.eqb_neq; lia).
      discriminate.
Qed.

End SampleFacts.

Section SampleExamples.

Local Open Scope Q_scope.

Lemma sample_keeps_an_array_and_refuses_a_data_frame_witness :
  let X : Tensor2 := [[1; 2]; [3; 4]] in
  (5 >= Z.of_nat (length X))%Z /\
  @sample first_row_resampler (ndarray X) 5 0 = Ok X /\
  @invaseRiskEstimation.training_data first_row_resampler X 5
  = Err ValidationError.
Proof.
  intros X.
  assert (H : (5 >= Z.of_nat (length X))%Z) by (simpl; lia).
  split; [exact H|].
  pose proof (@sample_keeps_an_array_and_refuses_a_data_frame
                first_row_resampler X 5 0) as (Hkeep & _ & _ & Hrefused).
  split; [exact (Hkeep H)|exact Hrefused].
Defined.

End SampleExamples.

(* --------------------------------------------------------------------- *)
(** *** The Ensemble Layer *)

Section EnsembleFacts.

Local Open Scope Q_scope.

Lemma same_shape_spec (a b : Tensor2) : same_shape a b = true -> shape_eq a b.
Proof.
  unfold same_shape, shape_eq. intros H.
  apply andb_true_iff in H. destruct H as [Hl Hr].
  apply Nat.eqb_eq in Hl. split; [exact Hl|].
  revert b Hl Hr. induction a as [|ra a IH]; intros [|rb b] Hl Hr i;
    simpl in *; try discriminate.
  - destruct i; reflexivity.
  - apply andb_true_iff in Hr. destruct Hr as [Hh Ht].
    apply Nat.eqb_eq in Hh.
    destruct i as [|i]; [exact Hh|].
    apply IH; [lia|exact Ht].
Qed.

Lemma shape_eq_zip (f : Q -> Q -> Q) (a b : Tensor2) :
  shape_eq a b -> shape_eq (zip_with (zip_with f) a b) a.
Proof.
  intros [Hl Hr]. split.
  - rewrite zip_with_length. lia.
  - intros i. destruct (Nat.lt_ge_cases i (length a)) as [Hi|Hi].
    + rewrite nth_row_zip_with by lia.
      rewrite zip_with_length, <- Hr. lia.
    + rewrite !nth_overflow; try lia. rewrite zip_with_length. lia.
Qed.

Lemma shape_eq_trans (a b c : Tensor2) : shape_eq a b -> shape_eq b c -> shape_eq a c.
Proof.
  intros [H1 H2] [H3 H4]. split; [congruence|].
  intros i. rewrite H2. apply H4.
Qed.

Lemma fold_total_shape (rest : list Tensor2) :
  forall first : Tensor2,
    Forall (shape_eq first) rest ->
    shape_eq (fold_left (zip_with (zip_with Qplus)) rest first) first.
Proof.
  induction rest as [|r rest IH]; intros first Hall; simpl.
  - split; reflexivity.
  - inversion Hall as [|? ? Hr Hrest]; subst.
    pose proof (shape_eq_zip Qplus first r Hr) as Hz.
    eapply shape_eq_trans; [|exact Hz].
    apply IH. eapply Forall_impl; [|exact Hrest].
    intros c Hc. eapply shape_eq_trans; eassumption.
Qed.

(** The running total of [np.mean]: entry by entry, the first matrix plus
    the sum of the others. *)
Lemma fold_total_entry (rest : list Tensor2) :
  forall (first : Tensor2) (i j : nat),
    Forall (shape_eq first) rest ->
    (i < length first)%nat -> (j < length (nth i first []))%nat ->
    shape_eq (fold_left (zip_with (zip_with Qplus)) rest first) first
    /\ entry i j (fold_left (zip_with (zip_with Qplus)) rest first)
       == entry i j first + fold_right Qplus 0 (map (entry i j) rest).
Proof.
  induction rest as [|r rest IH]; intros first i j Hall Hi Hj; simpl.
  - split; [split; reflexivity|]. ring.
  - inversion Hall as [|? ? Hr Hrest]; subst.
    pose proof (shape_eq_zip Qplus first r Hr) as Hz.
    assert (Hall' : Forall (shape_eq (zip_with (zip_with Qplus) first r)) rest).
    { eapply Forall_impl; [|exact Hrest].
      intros c Hc. eapply shape_eq_trans; eassumption. }
    destruct Hz as [Hzl Hzr].
    destruct (IH (zip_with (zip_with Qplus) first r) i j Hall') as [Hs He].
    { lia. }
    { rewrite Hzr. exact Hj. }
    split.
    + eapply shape_eq_trans; [exact Hs|]. split; assumption.
    + rewrite He. unfold entry at 1.
      destruct Hr as [Hrl Hrr].
      rewrite nth2_zip_with by (rewrite <- ?Hrr; lia).
      unfold entry. ring.
Qed.

Context {T : Transcendentals}.

(** What the ensemble's [explain] has computed when it returns. *)
Lemma ensemble_explain_inv
      (self : invaseCV.t) (x : Tensor2) w (out : Tensor2) w' :
  invaseCV.explain self x w = Ok (out, w') ->
  exists outs,
    map_m (fun fold => invaseClassifier.explain fold x)
          (invaseCV.fold_models self) w = Ok (outs, w')
    /\ length outs = length (invaseCV.fold_models self)
    /\ Forall (shape_eq out) outs
    /\ forall i j,
         (i < length out)%nat -> (j < length (nth i out []))%nat ->
         entry i j out
         == fold_right Qplus 0 (map (entry i j) outs)
            / inject_Z (Z.of_nat (length (invaseCV.fold_models self))).
Proof.
  intros H. unfold invaseCV.explain in H.
  apply bind_ok in H. destruct H as (outs & w1 & Houts & H).
  apply lift_ok in H. destruct H as [Hmean ->].
  exists outs. split; [exact Houts|].
  pose proof (map_m_length _ _ _ _ _ Houts) as Hlen.
  split; [exact Hlen|].
  unfold np_mean_axis0 in Hmean.
  destruct outs as [|first rest]; [discriminate|].
  destruct (forallb (same_shape first) rest) eqn:Hshape; [|discriminate].
  injection Hmean as <-.
  assert (Hall : Forall (shape_eq first) rest).
  { apply Forall_forall. intros c Hc. apply same_shape_spec.
    rewrite forallb_forall in Hshape. apply Hshape. exact Hc. }
  set (total := fold_left (zip_with (zip_with Qplus)) rest first) in *.
  set (K := inject_Z (Z.of_nat (length (first :: rest)))) in *.
  assert (Htot : shape_eq total first) by (apply fold_total_shape; exact Hall).
  assert (Hout : shape_eq (map (map (fun s => s / K)) total) total).
  { split; [apply length_map|].
    intros i. rewrite nth_row_map_map. apply length_map. }
  split.
  - constructor.
    + eapply shape_eq_trans; eassumption.
    + eapply Forall_impl; [|exact Hall].
      intros c Hc. eapply shape_eq_trans; [|exact Hc].
      eapply shape_eq_trans; eassumption.
  - intros i j Hi Hj.
    destruct Hout as [Hol Hor]. destruct Htot as [Htl Htr].
    change (inject_Z (Z.pos (Pos.of_succ_nat (length rest)))) with K in *.
    rewrite Hol in Hi. rewrite Hor in Hj.
    unfold entry at 1. rewrite nth2_map_map by assumption.
    destruct (fold_total_entry rest first i j Hall) as [_ He].
    { lia. }
    { rewrite <- Htr. exact Hj. }
    fold total in He. unfold entry in He at 1. rewrite He.
    rewrite <- Hlen. fold K. simpl. reflexivity.
Qed.

Lemma same_shape_complete (a b : Tensor2) : shape_eq a b -> same_shape a b = true.
Proof.
  unfold shape_eq, same_shape. intros [Hl Hr].
  rewrite Hl, Nat.eqb_refl. simpl.
  revert b Hl Hr. induction a as [|ra a IH]; intros [|rb b] Hl Hr;
    simpl in *; try discriminate; [reflexivity|].
  apply andb_true_iff. split.
  - apply Nat.eqb_eq. exact (Hr 0%nat).
  - apply IH; [lia|]. intros i. exact (Hr (S i)).
Qed.

(** C5.  For a non-empty list of fold models whose [explain] calls return
    outputs of one shape, the ensemble's [explain] returns, and its output
    is, entry by entry, the arithmetic mean over the folds of those
    outputs. *)
Theorem ensemble_explain_is_mean_of_folds
        (self : invaseCV.t) (x : Tensor2) w (outs : list Tensor2) w' :
  invaseCV.fold_models self <> [] ->
  map_m (fun fold => invaseClassifier.explain fold x)
        (invaseCV.fold_models self) w = Ok (outs, w') ->
  Forall (shape_eq (hd [] outs)) outs ->
  exists out,
    invaseCV.explain self x w = Ok (out, w')
    /\ Forall (shape_eq out) outs
    /\ forall i j,
         (i < length out)%nat -> (j < length (nth i out []))%nat ->
         entry i j out
         == fold_right Qplus 0 (map (entry i j) outs)
            / inject_Z (Z.of_nat (length (invaseCV.fold_models self))).
Proof.
  intros Hne Houts Hshape.
  assert (Hrun : exists out, invaseCV.explain self x w = Ok (out, w')).
  { unfold invaseCV.explain, bind. rewrite Houts.
    pose proof (map_m_length _ _ _ _ _ Houts) as Hlen.
    destruct outs as [|first rest].
    - destruct (invaseCV.fold_models self); [congruence|discriminate].
    - unfold np_mean_axis0.
      replace (forallb (same_shape first) rest) with true.
      + eexists. reflexivity.
      + symmetry. apply forallb_forall. intros c Hc.
        apply same_shape_complete.
        simpl in Hshape. inversion Hshape as [|? ? _ Hrest]; subst.
        rewrite Forall_forall in Hrest. apply Hrest. exact Hc. }
  destruct Hrun as [out Hrun]. exists out. split; [exact Hrun|].
  destruct (ensemble_explain_inv self x w out w' Hrun)
    as (outs' & Houts' & _ & Hall & Hmean).
  rewrite Houts in Houts'. injection Houts' as <-.
  split; assumption.
Qed.

End EnsembleFacts.

Section EnsembleExamples.

Local Open Scope Q_scope.

Lemma ensemble_explain_is_mean_of_folds_witness :
  invaseCV.fold_models example_ensemble <> [] /\
  map_m (fun fold => @invaseClassifier.explain rational_stand_ins fold [[1]])
        (invaseCV.fold_models example_ensemble) example_ensemble_world
  = Ok (example_fold_outputs, example_ensemble_final_world) /\
  Forall (shape_eq (hd [] example_fold_outputs)) example_fold_outputs /\
  exists out,
    @invaseCV.explain rational_stand_ins example_ensemble [[1]]
                      example_ensemble_world
    = Ok (out, example_ensemble_final_world)
    /\ Forall (shape_eq out) example_fold_outputs
    /\ forall i j,
         (i < length out)%nat -> (j < length (nth i out []))%nat ->
         entry i j out
         == fold_right Qplus 0 (map (entry i j) example_fold_outputs)
            / inject_Z (Z.of_nat (length (invaseCV.fold_models example_ensemble))).
Proof.
  assert (H1 : invaseCV.fold_models example_ensemble <> []) by discriminate.
  assert (H2 : map_m (fun fold =>
                        @invaseClassifier.explain rational_stand_ins fold [[1]])
                     (invaseCV.fold_models example_ensemble)
                     example_ensemble_world
               = Ok (example_fold_outputs, example_ensemble_final_world))
    by (vm_compute; reflexivity).
  assert (H3 : Forall (shape_eq (hd [] example_fold_outputs))
                      example_fold_outputs).
  { repeat constructor; intros [|[|i]]; reflexivity. }
  split; [exact H1|]. split; [exact H2|]. split; [exact H3|].
  exact (@ensemble_explain_is_mean_of_folds rational_stand_ins
           example_ensemble [[1]] example_ensemble_world
           example_fold_outputs example_ensemble_final_world H1 H2 H3).
Defined.

(** The two folds answered 1000/729 and 0; the ensemble answers their mean. *)
Example example_ensemble_output_value :
  entry 0 0 example_ensemble_output == (1000 # 729) / 2.
Proof. vm_compute. reflexivity. Qed.

End EnsembleExamples.

(* --------------------------------------------------------------------- *)
(** *** The critic at inference time *)

Section CriticFacts.

Local Open Scope Q_scope.

Context {T : Transcendentals}.

(** A layer that draws nothing computes a function of its input alone. *)
Lemma layer_forward_pure (tr : bool) (layer : Layer) (x : Tensor2) :
  (tr = false \/ match layer with Dropout _ => False | _ => True end) ->
  exists r, forall w, layer_forward tr layer x w = lift r w.
Proof.
  intros H. destruct layer as [weight bias| | |p|]; simpl.
  - eexists. intros w. reflexivity.
  - exists (Ok (map (map (Qmax 0)) x)). intros w. reflexivity.
  - exists (Ok (map (map leaky_relu) x)). intros w. reflexivity.
  - destruct H as [->|[]]. exists (Ok x). intros w. reflexivity.
  - exists (Ok (map (map torch_sigmoid) x)). intros w. reflexivity.
Qed.

(** Without dropout draws the forward pass neither reads nor advances the
    generators: its result is a function of the parameters and the input. *)
Lemma call_dropout_free (c : Sequential) (x : Tensor2) :
  dropout_free c = true ->
  exists r, forall w, call c x w = lift r w.
Proof.
  unfold dropout_free, call. destruct c as [ls tr]. cbn [layers training].
  intros H.
  assert (Hl : forall l, In l ls ->
                 tr = false \/ match l with Dropout _ => False | _ => True end).
  { intros l Hin. apply orb_true_iff in H. destruct H as [H|H].
    - left. destruct tr; [discriminate|reflexivity].
    - right. rewrite forallb_forall in H. specialize (H l Hin).
      destruct l; try exact I. discriminate. }
  clear H. revert x. induction ls as [|l ls IH]; intros x; simpl.
  - exists (Ok x). intros w. reflexivity.
  - destruct (layer_forward_pure tr l x (Hl l (or_introl eq_refl))) as [r Hr].
    destruct r as [x'|e].
    + destruct (IH (fun l' Hin => Hl l' (or_intror Hin)) x') as [r' Hr'].
      exists r'. intros w. unfold bind. rewrite Hr. simpl. apply Hr'.
    + exists (Err e). intros w. unfold bind. rewrite Hr. reflexivity.
Qed.

Lemma load_parameters_keeps_dropout_free (ls : list Layer) :
  forall ps,
    forallb (fun l => match l with Dropout _ => false | _ => true end)
            (load_parameters ls ps)
    = forallb (fun l => match l with Dropout _ => false | _ => true end) ls.
Proof.
  induction ls as [|l ls IH]; intros ps; simpl; [reflexivity|].
  destruct l as [weight bias| | |p|]; simpl;
    try reflexivity; try (rewrite IH; reflexivity).
  destruct ps as [|[w' b'] ps']; simpl; rewrite IH; reflexivity.
Qed.

(** The risk-estimation critic has no dropout layer, whatever its
    parameters: its [explain] returns the same output from every state of
    the generators, and leaves them as they are. *)
Lemma risk_explain_is_deterministic (self : invaseRiskEstimation.t)
      (params : CriticParams) (ps : list (Tensor2 * Tensor1)) (X : Tensor2) :
  layers (invaseRiskEstimation.critic self)
  = load_parameters (layers (invaseRiskEstimation._build_critic params)) ps ->
  forall w1 w2 out w1',
    invaseRiskEstimation.explain self X w1 = Ok (out, w1') ->
    w1' = w1 /\ invaseRiskEstimation.explain self X w2 = Ok (out, w2).
Proof.
  intros Hlayers w1 w2 out w1' H.
  destruct (call_dropout_free (invaseRiskEstimation.critic self) X) as [r Hr].
  { unfold dropout_free. rewrite Hlayers, load_parameters_keeps_dropout_free.
    apply orb_true_r. }
  unfold invaseRiskEstimation.explain, bind in *.
  rewrite Hr in H. rewrite Hr.
  destruct r as [o|e]; simpl in *; [|discriminate].
  destruct (forallb _ o); [|discriminate].
  unfold ret in *. injection H as <- <-. split; reflexivity.
Qed.

(** C2 (the code at the failing input).  The classification critic is
    called in training mode, so [explain] consumes dropout draws: on the
    one-unit critic whose layers are identity maps, two successive calls on
    the instance [1] return [sigmoid(1000/729)] when the three units are
    kept and [sigmoid(0)] when the first is dropped, which differ as soon
    as the sigmoid is injective. *)
Theorem classifier_explain_varies_with_dropout_draws :
  (forall a b, torch_sigmoid a = torch_sigmoid b -> a == b) ->
  exists out1 w1 out2 w2,
    invaseClassifier.explain example_classifier [[1]] example_ensemble_world
    = Ok (out1, w1)
    /\ invaseClassifier.explain example_classifier [[1]] w1 = Ok (out2, w2)
    /\ out1 <> out2.
Proof.
  intros Hinj.
  eexists. eexists. eexists. eexists.
  split; [vm_compute; reflexivity|].
  split; [vm_compute; reflexivity|].
  intros Heq. injection Heq as Heq. apply Hinj in Heq.
  vm_compute in Heq. discriminate.
Qed.

End CriticFacts.

Lemma classifier_explain_varies_with_dropout_draws_witness :
  (forall a b : Q, @torch_sigmoid rational_stand_ins a = @torch_sigmoid rational_stand_ins b
                   -> a == b) /\
  exists out1 w1 out2 w2,
    @invaseClassifier.explain rational_stand_ins example_classifier [[1%Q]]
                              example_ensemble_world
    = Ok (out1, w1)
    /\ @invaseClassifier.explain rational_stand_ins example_classifier [[1%Q]] w1
       = Ok (out2, w2)
    /\ out1 <> out2.
Proof.
  assert (H : forall a b : Q,
             @torch_sigmoid rational_stand_ins a = @torch_sigmoid rational_stand_ins b
             -> a == b).
  { simpl. intros a b ->. reflexivity. }
  split; [exact H|].
  exact (@classifier_explain_varies_with_dropout_draws rational_stand_ins H).
Defined.

(* --------------------------------------------------------------------- *)
(** *** The mini-batches of an epoch *)

Lemma remove_nth_length {A} (l : list A) :
  forall i, (i < length l)%nat -> length (remove_nth i l) = (length l - 1)%nat.
Proof.
  induction l as [|a l IH]; intros i Hi; simpl in Hi; [lia|].
  destruct i as [|i]; simpl; [lia|].
  rewrite IH by lia. lia.
Qed.

Lemma remove_nth_permutation {A} (l : list A) (d : A) :
  forall i, (i < length l)%nat -> Permutation l (nth i l d :: remove_nth i l).
Proof.
  induction l as [|a l IH]; intros i Hi; simpl in Hi; [lia|].
  destruct i as [|i]; simpl; [reflexivity|].
  rewrite perm_swap. apply perm_skip. apply IH. lia.
Qed.

(** The selection shuffle returns a permutation of its argument. *)
Lemma shuffle_with_permutation {A} (draw_one : M nat) (fuel : nat) :
  forall (l l' : list A) w w',
    (length l <= fuel)%nat ->
    shuffle_with draw_one fuel l w = Ok (l', w') ->
    Permutation l l'.
Proof.
  induction fuel as [|fuel IH]; intros l l' w w' Hlen H.
  - destruct l; [|simpl in Hlen; lia].
    simpl in H. apply ret_ok in H. destruct H as [-> _]. reflexivity.
  - destruct l as [|a l].
    + simpl in H. apply ret_ok in H. destruct H as [-> _]. reflexivity.
    + cbn [shuffle_with] in H.
      apply bind_ok in H. destruct H as (r & w1 & _ & H).
      apply bind_ok in H. destruct H as (rest & w2 & Hrest & H).
      apply ret_ok in H. destruct H as [-> _].
      assert (Hi : (r mod length (a :: l) < length (a :: l))%nat)
        by (apply Nat.mod_upper_bound; simpl; lia).
      eapply Permutation_trans;
        [exact (remove_nth_permutation (a :: l) a _ Hi)|].
      apply perm_skip. eapply IH; [|exact Hrest].
      rewrite remove_nth_length by exact Hi. simpl in *. lia.
Qed.

Lemma np_random_shuffle_permutation {A} (l l' : list A) w w' :
  np_random_shuffle l w = Ok (l', w') -> Permutation l l'.
Proof.
  unfold np_random_shuffle. apply shuffle_with_permutation. lia.
Qed.

(** Every element of a slice with non-negative bounds sits in the list at a
    position below the upper bound. *)
Lemma slice_positions {A} (l : list A) (start stop : Z) (v : A) :
  0 <= start -> 0 <= stop ->
  In v (Py.slice l start stop) ->
  exists p, (Z.of_nat p < stop)%Z /\ nth_error l p = Some v.
Proof.
  intros Hs He Hin. unfold Py.slice, Py.slice_bound in Hin.
  replace (start <? 0) with false in Hin by (symmetry; apply Z.ltb_ge; lia).
  replace (stop <? 0) with false in Hin by (symmetry; apply Z.ltb_ge; lia).
  apply In_nth_error in Hin. destruct Hin as [q Hq].
  rewrite nth_error_firstn in Hq.
  destruct (q <? Z.to_nat (Z.min stop (Z.of_nat (length l))
                           - Z.min start (Z.of_nat (length l))))%nat eqn:Hlt;
    [|discriminate].
  apply Nat.ltb_lt in Hlt.
  rewrite nth_error_skipn in Hq.
  eexists. split; [|exact Hq]. lia.
Qed.

Lemma round_half_even_bounds (q : Q) :
  Qfloor q <= round_half_even q <= Qfloor q + 1.
Proof.
  unfold round_half_even.
  destruct (Qlt_bool _ _); [lia|].
  destruct (Qlt_bool _ _); [lia|].
  destruct (Z.even _); lia.
Qed.

Lemma ratio_negative (n b : Z) : 0 < n -> b < 0 -> (inject_Z n / inject_Z b < 0)%Q.
Proof.
  intros Hn Hb. destruct b as [|p|p]; try lia.
  unfold Qlt, Qdiv, Qmult, Qinv, inject_Z. simpl. lia.
Qed.

(** A batch size below 1 leaves the loop over the batches without turns. *)
Lemma number_of_batches_positive (batch_size n n_batches : Z) :
  1 <= n ->
  invaseBase.number_of_batches batch_size n = Ok n_batches ->
  0 < n_batches -> 0 < batch_size.
Proof.
  intros Hn H Hpos. unfold invaseBase.number_of_batches in H.
  destruct (batch_size <? n) eqn:Hlt.
  - destruct (batch_size =? 0) eqn:H0; [discriminate|].
    apply Z.eqb_neq in H0. injection H as <-.
    destruct (Z_lt_le_dec batch_size 0) as [Hneg|]; [|lia].
    exfalso.
    pose proof (ratio_negative n batch_size ltac:(lia) Hneg) as Hq.
    pose proof (round_half_even_bounds (inject_Z n / inject_Z batch_size)) as Hb.
    assert (Qfloor (inject_Z n / inject_Z batch_size) < 0).
    { apply Z.lt_nge. intros Hge.
      pose proof (Qfloor_le (inject_Z n / inject_Z batch_size)) as Hfl.
      assert (0 <= inject_Z (Qfloor (inject_Z n / inject_Z batch_size)))%Q.
      { change 0%Q with (inject_Z 0). rewrite <- Zle_Qle. exact Hge. }
      apply (Qlt_irrefl 0).
      eapply Qle_lt_trans; [eassumption|].
      eapply Qle_lt_trans; eassumption. }
    lia.
  - apply Z.ltb_ge in Hlt. lia.
Qed.

Lemma in_range (lo hi b : Z) : In b (Py.range lo hi) -> lo <= b < hi.
Proof.
  unfold Py.range. intros H. apply in_map_iff in H.
  destruct H as (i & <- & Hi). apply in_seq in Hi. lia.
Qed.

Section BatchFacts.

Variable train_indices : list nat.
Variable configured_batch_size : Z.

Let n : Z := Z.of_nat (length train_indices).
Let batch_size : Z := invaseBase.effective_batch_size configured_batch_size n.

(** Distinct indices: the entry at the last position occurs in no batch. *)
Lemma batches_miss_last_position (n_batches : Z) :
  NoDup train_indices ->
  1 <= n ->
  invaseBase.number_of_batches batch_size n = Ok n_batches ->
  forall idx,
    In idx (invaseBase.epoch_batches train_indices n_batches batch_size n) ->
    ~ In (nth (Z.to_nat (n - 1)) train_indices 0%nat) idx.
Proof.
  intros Hnodup Hn Hnb idx Hidx Hin.
  unfold invaseBase.epoch_batches in Hidx.
  apply in_map_iff in Hidx. destruct Hidx as (b & <- & Hb).
  apply in_range in Hb.
  assert (Hbs : 0 < batch_size)
    by (eapply number_of_batches_positive; [exact Hn|exact Hnb|lia]).
  unfold invaseBase.select_batch in Hin.
  apply slice_positions in Hin; [|nia|lia].
  destruct Hin as (p & Hp & Hnth).
  assert (Hlast : nth_error train_indices (Z.to_nat (n - 1))
                  = Some (nth (Z.to_nat (n - 1)) train_indices 0%nat)).
  { apply nth_error_nth'. subst n. lia. }
  rewrite <- Hlast in Hnth.
  apply (proj1 (NoDup_nth_error train_indices) Hnodup) in Hnth.
  - lia.
  - apply nth_error_Some. rewrite Hnth, Hlast. discriminate.
Qed.

End BatchFacts.

(** C9.  In an epoch of the training loop, [np.random.shuffle] turns the
    index array, a permutation of [0 .. n-1] with [n >= 1], into the
    shuffled array of the epoch; the entry at its last position, [n - 1],
    is the index of a training instance and occurs in none of the
    mini-batches, every batch being the slice up to
    [min((b + 1) * batch_size, n - 1)]: that instance takes no part in the
    gradient steps of the epoch. *)
Theorem last_shuffled_index_in_no_batch
        (previous : list nat) (configured_batch_size : Z)
        (w : World) (train_indices : list nat) (w' : World) (n_batches : Z) :
  let n := Z.of_nat (length previous) in
  let batch_size := invaseBase.effective_batch_size configured_batch_size n in
  Permutation previous (seq 0 (length previous)) ->
  np_random_shuffle previous w = Ok (train_indices, w') ->
  1 <= n ->
  invaseBase.number_of_batches batch_size n = Ok n_batches ->
  let excluded := nth (Z.to_nat (n - 1)) train_indices 0%nat in
  (excluded < length previous)%nat
  /\ forall idx,
       In idx (invaseBase.epoch_batches train_indices n_batches batch_size n) ->
       ~ In excluded idx.
Proof.
  intros n batch_size Hperm Hshuffle Hn Hnb excluded.
  apply np_random_shuffle_permutation in Hshuffle.
  assert (Hall : Permutation (seq 0 (length previous)) train_indices)
    by (eapply Permutation_trans; [symmetry; exact Hperm|exact Hshuffle]).
  pose proof (Permutation_length Hshuffle) as Hlen.
  split.
  - assert (Hin : In excluded train_indices).
    { apply nth_In. subst n. lia. }
    apply (Permutation_in _ (Permutation_sym Hall)) in Hin.
    apply in_seq in Hin. lia.
  - subst n batch_size excluded. rewrite Hlen in *.
    apply batches_miss_last_position; try assumption.
    eapply Permutation_NoDup; [exact Hall|apply seq_NoDup].
Qed.

Lemma last_shuffled_index_in_no_batch_witness :
  let previous := [0; 1; 2; 3]%nat in
  let train_indices := [2; 0; 3; 1]%nat in
  let w := mkWorld [2; 0; 1; 0]%nat [] in
  let n := Z.of_nat (length previous) in
  let batch_size := invaseBase.effective_batch_size 2 n in
  Permutation previous (seq 0 (length previous)) /\
  np_random_shuffle previous w = Ok (train_indices, mkWorld [] []) /\
  1 <= n /\
  invaseBase.number_of_batches batch_size n = Ok 2 /\
  let excluded := nth (Z.to_nat (n - 1)) train_indices 0%nat in
  (excluded < length previous)%nat
  /\ forall idx,
       In idx (invaseBase.epoch_batches train_indices 2 batch_size n) ->
       ~ In excluded idx.
Proof.
  intros previous train_indices w n batch_size.
  assert (H1 : Permutation previous (seq 0 (length previous)))
    by apply Permutation_refl.
  assert (H2 : np_random_shuffle previous w = Ok (train_indices, mkWorld [] []))
    by reflexivity.
  assert (H3 : 1 <= n) by (subst n; simpl; lia).
  assert (H4 : invaseBase.number_of_batches batch_size n = Ok 2) by reflexivity.
  split; [exact H1|]. split; [exact H2|]. split; [exact H3|]. split; [exact H4|].
  exact (last_shuffled_index_in_no_batch previous 2 w train_indices
           (mkWorld [] []) 2 H1 H2 H3 H4).
Defined.

(** With four training instances and batches of two, the batches are the
    first two shuffled indices and then the third alone. *)
Example epoch_batches_4_by_2 :
  invaseBase.epoch_batches [2; 0; 3; 1]%nat 2 2 4 = [[2; 0]; [3]]%nat.
Proof. reflexivity. Qed.

(* --------------------------------------------------------------------- *)
(** *** Early stopping *)

Lemma Qlt_bool_iff (a b : Q) : Qlt_bool a b = true <-> (a < b)%Q.
Proof.
  unfold Qlt_bool. rewrite negb_true_iff. split; intros H.
  - apply Qnot_le_lt. intros Hle. apply Qle_bool_iff in Hle. congruence.
  - destruct (Qle_bool b a) eqn:Hle; [|reflexivity].
    apply Qle_bool_iff in Hle. exfalso. apply (Qlt_irrefl a).
    eapply Qlt_le_trans; eassumption.
Qed.

(** Lines 223-229 in isolation. *)
Lemma early_stopping_spec (cfg : invaseBase.Config) (epoch : Z)
      (val_loss best : Q) (count : Z) best' count' stop :
  invaseBase.early_stopping cfg epoch val_loss best count = (best', count', stop) ->
  ((val_loss < best)%Q -> count' = 0 /\ best' = val_loss)
  /\ (~ (val_loss < best)%Q -> count' = count + 1 /\ best' = best)
  /\ (stop = true <->
      count' > invaseBase.patience cfg /\ epoch > invaseBase.min_epochs cfg).
Proof.
  unfold invaseBase.early_stopping. intros H.
  assert (Hstop : forall c,
            (c >? invaseBase.patience cfg) && (epoch >? invaseBase.min_epochs cfg)
            = true
            <-> c > invaseBase.patience cfg /\ epoch > invaseBase.min_epochs cfg).
  { intros c. rewrite andb_true_iff, !Z.gtb_lt. lia. }
  destruct (Qlt_bool val_loss best) eqn:Hlt; injection H as <- <- <-.
  - apply Qlt_bool_iff in Hlt.
    split; [intros _; split; reflexivity|].
    split; [intros Hc; contradiction|apply Hstop].
  - assert (Hge : ~ (val_loss < best)%Q).
    { intros Hc. apply Qlt_bool_iff in Hc. congruence. }
    split; [intros Hc; contradiction|].
    split; [intros _; split; reflexivity|apply Hstop].
Qed.

Section TrainingFacts.

Context {Self Estimator Target : Type}.
Context {V : invaseBase.Variant Self Estimator Target}.
Context {O : Optimizer Target}.
Context {T : Transcendentals}.

Variable self : Self.
Variable estimator : Estimator.
Variables x_train y_train x_test y_test : Tensor2.

Let cfg : invaseBase.Config := invaseBase.config self.

Local Abbreviation validate :=
  (invaseBase.validate self estimator x_test y_test).
Local Abbreviation train_epoch :=
  (invaseBase.train_epoch self estimator x_train y_train x_test y_test).
Local Abbreviation epoch_loop :=
  (invaseBase.epoch_loop self estimator x_train y_train x_test y_test).

(** What a validation step that returned has done. *)
Lemma validate_spec (epoch : Z) critic_now best count w best' count' stop w' :
  validate epoch critic_now best count w = Ok ((best', count', stop), w') ->
  invaseBase.n_epoch_print cfg <> 0
  /\ (epoch mod invaseBase.n_epoch_print cfg <> 0 ->
        count' = count /\ best' = best /\ stop = false)
  /\ (epoch mod invaseBase.n_epoch_print cfg = 0 ->
        exists importance w1 predicted val_loss,
          invaseBase._importance_test self estimator x_test y_test w
          = Ok (importance, w1)
          /\ call critic_now x_test w1 = Ok (predicted, w')
          /\ invaseBase._importance_loss self predicted importance = Ok val_loss
          /\ invaseBase.early_stopping cfg epoch val_loss best count
             = (best', count', stop)).
Proof.
  unfold invaseBase.validate. fold cfg. intros H.
  destruct (invaseBase.n_epoch_print cfg =? 0) eqn:Hp; [discriminate|].
  apply Z.eqb_neq in Hp. split; [exact Hp|].
  destruct (epoch mod invaseBase.n_epoch_print cfg =? 0) eqn:Hm.
  - apply Z.eqb_eq in Hm. split; [intros Hc; contradiction|]. intros _.
    apply bind_ok in H. destruct H as (importance & w1 & Himp & H).
    apply bind_ok in H. destruct H as (predicted & w2 & Hpred & H).
    apply bind_ok in H. destruct H as (val_loss & w3 & Hloss & H).
    apply lift_ok in Hloss. destruct Hloss as [Hloss ->].
    apply ret_ok in H. destruct H as [H ->].
    exists importance, w1, predicted, val_loss. auto.
  - apply Z.eqb_neq in Hm. split; [|intros Hc; contradiction]. intros _.
    apply ret_ok in H. destruct H as [H _]. injection H as -> -> ->. auto.
Qed.

(** What an epoch that returned has done to the early-stopping variables. *)
Lemma train_epoch_spec (n_batches batch_size epoch : Z)
      (st st' : invaseBase.TrainState Target) stop w w' :
  train_epoch n_batches batch_size epoch st w = Ok ((st', stop), w') ->
  exists critic_now w2,
    validate epoch critic_now (invaseBase.st_best_val_loss st)
             (invaseBase.st_patience st) w2
    = Ok ((invaseBase.st_best_val_loss st', invaseBase.st_patience st', stop), w')
    /\ invaseBase.st_critic st' = critic_now
    /\ invaseBase.st_stopped st' = (if stop then Some epoch else None)
    /\ Permutation (invaseBase.st_train_indices st)
                   (invaseBase.st_train_indices st').
Proof.
  unfold invaseBase.train_epoch. intros H.
  apply bind_ok in H. destruct H as (indices & w1 & Hshuffle & H).
  apply bind_ok in H. destruct H as ([[critic_now solver] losses] & w2 & _ & H).
  apply bind_ok in H. destruct H as ([[best' count'] stop'] & w3 & Hval & H).
  apply ret_ok in H. destruct H as [H ->].
  injection H as H1 H2. subst st' stop. cbn.
  exists critic_now, w2. repeat split; try assumption.
  eapply np_random_shuffle_permutation. eassumption.
Qed.

(** C7.  The loop over the epochs is left by [break] only at an epoch that
    is a validation checkpoint (divisible by [n_epoch_print]) at which the
    patience counter is above the configured patience and the epoch is above
    [min_epochs]; and at every epoch the counter is left alone between
    checkpoints, set to 0 at a checkpoint whose validation loss is below the
    best loss so far (which it becomes), and incremented at any other
    checkpoint, the loop being left exactly when both thresholds are
    exceeded. *)
Theorem early_stopping_only_past_both_thresholds :
  (forall n_batches batch_size todo st w st' w' epoch,
      invaseBase.st_stopped st = None ->
      epoch_loop n_batches batch_size todo st w = Ok (st', w') ->
      invaseBase.st_stopped st' = Some epoch ->
      In epoch todo
      /\ epoch mod invaseBase.n_epoch_print cfg = 0
      /\ invaseBase.st_patience st' > invaseBase.patience cfg
      /\ epoch > invaseBase.min_epochs cfg)
  /\
  (forall n_batches batch_size epoch st w st' stop w',
      train_epoch n_batches batch_size epoch st w = Ok ((st', stop), w') ->
      (epoch mod invaseBase.n_epoch_print cfg <> 0 ->
         invaseBase.st_patience st' = invaseBase.st_patience st
         /\ invaseBase.st_best_val_loss st' = invaseBase.st_best_val_loss st
         /\ stop = false)
      /\ (epoch mod invaseBase.n_epoch_print cfg = 0 ->
            exists importance w1 w2 val_loss,
              invaseBase._importance_test self estimator x_test y_test w1
              = Ok (importance, w2)
              /\ (exists predicted,
                    call (invaseBase.st_critic st') x_test w2 = Ok (predicted, w')
                    /\ invaseBase._importance_loss self predicted importance
                       = Ok val_loss)
              /\ ((val_loss < invaseBase.st_best_val_loss st)%Q ->
                    invaseBase.st_patience st' = 0
                    /\ invaseBase.st_best_val_loss st' = val_loss)
              /\ (~ (val_loss < invaseBase.st_best_val_loss st)%Q ->
                    invaseBase.st_patience st' = invaseBase.st_patience st + 1
                    /\ invaseBase.st_best_val_loss st'
                       = invaseBase.st_best_val_loss st))
      /\ (stop = true <->
          epoch mod invaseBase.n_epoch_print cfg = 0
          /\ invaseBase.st_patience st' > invaseBase.patience cfg
          /\ epoch > invaseBase.min_epochs cfg)).
Proof.
  assert (Hbody : forall n_batches batch_size epoch st w st' stop w',
      train_epoch n_batches batch_size epoch st w = Ok ((st', stop), w') ->
      (epoch mod invaseBase.n_epoch_print cfg <> 0 ->
         invaseBase.st_patience st' = invaseBase.st_patience st
         /\ invaseBase.st_best_val_loss st' = invaseBase.st_best_val_loss st
         /\ stop = false)
      /\ (epoch mod invaseBase.n_epoch_print cfg = 0 ->
            exists importance w1 w2 val_loss,
              invaseBase._importance_test self estimator x_test y_test w1
              = Ok (importance, w2)
              /\ (exists predicted,
                    call (invaseBase.st_critic st') x_test w2 = Ok (predicted, w')
                    /\ invaseBase._importance_loss self predicted importance
                       = Ok val_loss)
              /\ ((val_loss < invaseBase.st_best_val_loss st)%Q ->
                    invaseBase.st_patience st' = 0
                    /\ invaseBase.st_best_val_loss st' = val_loss)
              /\ (~ (val_loss < invaseBase.st_best_val_loss st)%Q ->
                    invaseBase.st_patience st' = invaseBase.st_patience st + 1
                    /\ invaseBase.st_best_val_loss st'
                       = invaseBase.st_best_val_loss st))
      /\ (stop = true <->
          epoch mod invaseBase.n_epoch_print cfg = 0
          /\ invaseBase.st_patience st' > invaseBase.patience cfg
          /\ epoch > invaseBase.min_epochs cfg)).
  { intros n_batches batch_size epoch st w st' stop w' H.
    apply train_epoch_spec in H.
    destruct H as (critic_now & w2 & Hval & Hcritic & _ & _).
    apply validate_spec in Hval. destruct Hval as (Hp & Hoff & Hon).
    split; [exact Hoff|]. split.
    - intros Hm. destruct (Hon Hm) as (imp & w3 & pred & vl & H1 & H2 & H3 & H4).
      apply early_stopping_spec in H4. destruct H4 as (Hless & Hmore & _).
      exists imp, w2, w3, vl. split; [exact H1|].
      split; [exists pred; rewrite Hcritic; auto|]. auto.
    - destruct (Z.eq_dec (epoch mod invaseBase.n_epoch_print cfg) 0) as [Hm|Hm].
      + destruct (Hon Hm) as (imp & w3 & pred & vl & _ & _ & _ & H4).
        apply early_stopping_spec in H4. destruct H4 as (_ & _ & Hstop).
        rewrite Hstop. tauto.
      + destruct (Hoff Hm) as (_ & _ & ->).
        split; [discriminate|]. intros [Hc _]. contradiction. }
  split; [|exact Hbody].
  intros n_batches batch_size todo.
  induction todo as [|e todo IH]; intros st w st' w' epoch Hnone H Hstopped.
  - simpl in H. apply ret_ok in H. destruct H as [-> _]. congruence.
  - simpl in H. apply bind_ok in H. destruct H as ([st1 stop] & w1 & Hepoch & H).
    pose proof (Hbody _ _ _ _ _ _ _ _ Hepoch) as (_ & _ & Hstop).
    apply train_epoch_spec in Hepoch.
    destruct Hepoch as (_ & _ & _ & _ & Hrec & _).
    destruct stop.
    + apply ret_ok in H. destruct H as [-> _].
      rewrite Hrec in Hstopped. injection Hstopped as <-.
      split; [left; reflexivity|]. apply Hstop. reflexivity.
    + destruct (IH st1 w1 st' w' epoch Hrec H Hstopped) as (Hin & Hrest).
      split; [right; exact Hin|exact Hrest].
Qed.

(** The index array stays a permutation of what it was: distinct indices
    stay distinct from epoch to epoch. *)
Lemma epoch_loop_indices (n_batches batch_size : Z) (todo : list Z) :
  forall st w st' w',
    epoch_loop n_batches batch_size todo st w = Ok (st', w') ->
    Permutation (invaseBase.st_train_indices st)
                (invaseBase.st_train_indices st').
Proof.
  induction todo as [|e todo IH]; intros st w st' w' H; simpl in H.
  - apply ret_ok in H. destruct H as [-> _]. reflexivity.
  - apply bind_ok in H. destruct H as ([st1 stop] & w1 & Hepoch & H).
    apply train_epoch_spec in Hepoch.
    destruct Hepoch as (_ & _ & _ & _ & _ & Hperm).
    destruct stop.
    + apply ret_ok in H. destruct H as [-> _]. exact Hperm.
    + eapply Permutation_trans; [exact Hperm|]. eapply IH. eassumption.
Qed.

(** The critic stays in the mode it was built in: nothing in the loop
    calls [eval()]. *)
Lemma epoch_loop_training_mode (n_batches batch_size : Z) (todo : list Z) :
  forall st w st' w',
    epoch_loop n_batches batch_size todo st w = Ok (st', w') ->
    training (invaseBase.st_critic st') = training (invaseBase.st_critic st).
Proof.
  assert (Hbatch : forall batches acc w acc' w',
            for_each batches
              (invaseBase.train_batch self estimator x_train y_train) acc w
            = Ok (acc', w') ->
            training (fst (fst acc')) = training (fst (fst acc))).
  { induction batches as [|idx batches IH]; intros acc w acc' w' H; simpl in H.
    - apply ret_ok in H. destruct H as [-> _]. reflexivity.
    - apply bind_ok in H. destruct H as (acc1 & w1 & Hstep & H).
      rewrite (IH _ _ _ _ H). clear IH H.
      unfold invaseBase.train_batch in Hstep.
      destruct acc as [[critic_now solver] losses].
      apply bind_ok in Hstep. destruct Hstep as (imp & w2 & _ & H).
      apply bind_ok in H. destruct H as (w0 & w3 & _ & H).
      apply bind_ok in H. destruct H as (pred & w4 & _ & H).
      apply bind_ok in H. destruct H as (loss & w5 & _ & H).
      destruct (backward_step solver critic_now _ imp w0) as [params solver'].
      apply ret_ok in H. destruct H as [-> _]. reflexivity. }
  induction todo as [|e todo IH]; intros st w st' w' H; simpl in H.
  - apply ret_ok in H. destruct H as [-> _]. reflexivity.
  - apply bind_ok in H. destruct H as ([st1 stop] & w1 & Hepoch & H).
    assert (Hmode : training (invaseBase.st_critic st1)
                    = training (invaseBase.st_critic st)).
    { unfold invaseBase.train_epoch in Hepoch.
      apply bind_ok in Hepoch. destruct Hepoch as (indices & w2 & _ & H1).
      apply bind_ok in H1.
      destruct H1 as ([[critic_now solver] losses] & w3 & Hb & H1).
      apply Hbatch in Hb.
      apply bind_ok in H1. destruct H1 as ([[b c] s] & w4 & _ & H1).
      apply ret_ok in H1. destruct H1 as [H1 _]. injection H1 as H1 _.
      subst st1. exact Hb. }
    destruct stop.
    + apply ret_ok in H. destruct H as [-> _]. exact Hmode.
    + rewrite (IH _ _ _ _ H). exact Hmode.
Qed.

End TrainingFacts.

(** The critic the short run ends with is the critic it started from, still
    in training mode: it is the critic of [example_classifier]. *)
Example short_run_critic :
  invaseBase.st_critic short_final_state
  = invaseClassifier.critic example_classifier
  /\ training (invaseClassifier.critic example_classifier) = true.
Proof. split; reflexivity. Qed.

(** The short run stops at epoch 1: the validation loss of epoch 0 becomes
    the best one, the loss of epoch 1 does not improve on it, the counter
    goes to 1, above the patience 0, and epoch 1 is above the minimum 0. *)
Lemma early_stopping_only_past_both_thresholds_witness :
  invaseBase.st_stopped short_initial_state = None /\
  @invaseBase.epoch_loop _ _ _ (@invaseClassifier.variant rational_stand_ins exact_floats)
    idle_optimizer rational_stand_ins
    short_classifier echo_estimator
    short_x_train short_y_train short_x_test short_y_test
    2 2 (Py.range 0 5) short_initial_state (mkWorld [] [])
  = Ok (short_final_state, short_final_world) /\
  invaseBase.st_stopped short_final_state = Some 1 /\
  (In 1 (Py.range 0 5)
   /\ 1 mod invaseBase.n_epoch_print short_config = 0
   /\ invaseBase.st_patience short_final_state > invaseBase.patience short_config
   /\ 1 > invaseBase.min_epochs short_config).
Proof.
  assert (H1 : invaseBase.st_stopped short_initial_state = None) by reflexivity.
  assert (H2 : @invaseBase.epoch_loop _ _ _
                 (@invaseClassifier.variant rational_stand_ins exact_floats)
                 idle_optimizer rational_stand_ins
                 short_classifier echo_estimator
                 short_x_train short_y_train short_x_test short_y_test
                 2 2 (Py.range 0 5) short_initial_state (mkWorld [] [])
               = Ok (short_final_state, short_final_world))
    by (vm_compute; reflexivity).
  assert (H3 : invaseBase.st_stopped short_final_state = Some 1) by reflexivity.
  split; [exact H1|]. split; [exact H2|]. split; [exact H3|].
  exact (proj1 (@early_stopping_only_past_both_thresholds _ _ _
                  (@invaseClassifier.variant rational_stand_ins exact_floats)
                  idle_optimizer rational_stand_ins
                  short_classifier echo_estimator
                  short_x_train short_y_train short_x_test short_y_test)
               2 2 (Py.range 0 5) short_initial_state (mkWorld [] [])
               short_final_state short_final_world 1 H1 H2 H3).
Defined.

(* --------------------------------------------------------------------- *)
(** *** The final normalisation of the importance target *)

Section NormalisationFacts.

Local Open Scope Q_scope.

Lemma EPS_positive : 0 < EPS.
Proof. reflexivity. Qed.

Lemma Qplus_le_lt_compat (a b c d : Q) : a <= b -> c < d -> a + c < b + d.
Proof.
  intros Hab Hcd. rewrite (Qplus_comm a c), (Qplus_comm b d).
  apply Qplus_lt_le_compat; assumption.
Qed.

Lemma fold_min_le_init (r : Tensor1) : forall v, fold_left Qmin r v <= v.
Proof.
  induction r as [|a r IH]; intros v; simpl.
  - apply Qle_refl.
  - eapply Qle_trans; [apply IH|apply Q.le_min_l].
Qed.

Lemma fold_min_le_all (r : Tensor1) :
  forall v u, In u r -> fold_left Qmin r v <= u.
Proof.
  induction r as [|a r IH]; intros v u Hin; simpl in *; [contradiction|].
  destruct Hin as [->|Hin].
  - eapply Qle_trans; [apply fold_min_le_init|apply Q.le_min_r].
  - apply IH. exact Hin.
Qed.

Lemma fold_max_ge_init (r : Tensor1) : forall v, v <= fold_left Qmax r v.
Proof.
  induction r as [|a r IH]; intros v; simpl.
  - apply Qle_refl.
  - eapply Qle_trans; [apply Q.le_max_l|apply IH].
Qed.

Lemma fold_max_ge_all (r : Tensor1) :
  forall v u, In u r -> u <= fold_left Qmax r v.
Proof.
  induction r as [|a r IH]; intros v u Hin; simpl in *; [contradiction|].
  destruct Hin as [->|Hin].
  - eapply Qle_trans; [apply Q.le_max_r|apply fold_max_ge_init].
  - apply IH. exact Hin.
Qed.

Lemma least_le (row : Tensor1) (v : Q) : In v row -> least row <= v.
Proof.
  destruct row as [|a r]; simpl; [contradiction|].
  intros [->|Hin]; [apply fold_min_le_init|apply fold_min_le_all; exact Hin].
Qed.

Lemma le_greatest (row : Tensor1) (v : Q) : In v row -> v <= greatest row.
Proof.
  destruct row as [|a r]; simpl; [contradiction|].
  intros [->|Hin]; [apply fold_max_ge_init|apply fold_max_ge_all; exact Hin].
Qed.

Lemma least_le_greatest (row : Tensor1) : row <> [] -> least row <= greatest row.
Proof.
  destruct row as [|a r]; [congruence|]. intros _.
  eapply Qle_trans; [apply (least_le (a :: r) a)|apply (le_greatest (a :: r) a)];
    left; reflexivity.
Qed.

Section Monotone.

Variable f : Q -> Q.
Hypothesis f_monotone : forall a b, a <= b -> f a <= f b.

Lemma monotone_proper (a b : Q) : a == b -> f a == f b.
Proof.
  intros H. apply Qle_antisym; apply f_monotone; rewrite H; apply Qle_refl.
Qed.

Lemma fold_min_map (r : Tensor1) :
  forall v u, u == f v -> fold_left Qmin (map f r) u == f (fold_left Qmin r v).
Proof.
  induction r as [|a r IH]; intros v u Hu; simpl; [exact Hu|].
  apply IH.
  destruct (Q.min_spec_le v a) as [[Hle Hmin]|[Hle Hmin]].
  - rewrite (monotone_proper _ _ Hmin). rewrite Hu.
    apply Q.min_l. apply f_monotone. exact Hle.
  - rewrite (monotone_proper _ _ Hmin). rewrite Hu.
    apply Q.min_r. apply f_monotone. exact Hle.
Qed.

Lemma fold_max_map (r : Tensor1) :
  forall v u, u == f v -> fold_left Qmax (map f r) u == f (fold_left Qmax r v).
Proof.
  induction r as [|a r IH]; intros v u Hu; simpl; [exact Hu|].
  apply IH.
  destruct (Q.max_spec_le v a) as [[Hle Hmax]|[Hle Hmax]].
  - rewrite (monotone_proper _ _ Hmax). rewrite Hu.
    apply Q.max_r. apply f_monotone. exact Hle.
  - rewrite (monotone_proper _ _ Hmax). rewrite Hu.
    apply Q.max_l. apply f_monotone. exact Hle.
Qed.

Lemma least_map (row : Tensor1) : row <> [] -> least (map f row) == f (least row).
Proof.
  destruct row as [|a r]; [congruence|]. intros _. simpl.
  apply fold_min_map. reflexivity.
Qed.

Lemma greatest_map (row : Tensor1) :
  row <> [] -> greatest (map f row) == f (greatest row).
Proof.
  destruct row as [|a r]; [congruence|]. intros _. simpl.
  apply fold_max_map. reflexivity.
Qed.

End Monotone.

Lemma range_nonnegative (raw : Tensor1) :
  raw <> [] -> 0 <= greatest raw - least raw.
Proof.
  intros H. apply least_le_greatest in H.
  unfold Qminus. rewrite <- (Qplus_opp_r (least raw)).
  apply Qplus_le_compat; [exact H|apply Qle_refl].
Qed.

Context {F : Floats}.

Lemma rnd_zero : rnd 0 == 0.
Proof. apply round_zero. Qed.

Lemma fl_zero : fl 0 == 0.
Proof. apply round_zero. Qed.

Lemma rnd_idempotent (a : Q) : rnd (rnd a) == rnd a.
Proof. apply round_idempotent. Qed.

Lemma rnd_monotone (a b : Q) : a <= b -> rnd a <= rnd b.
Proof. apply round_monotone. Qed.

Lemma fl_monotone (a b : Q) : a <= b -> fl a <= fl b.
Proof. apply round_monotone. Qed.

(** One entry of the normalisation: the shift by [m] and the division by
    [d], both rounded, and the conversion to float32. *)
Lemma shift_scale_monotone (m d a b : Q) :
  0 < d -> a <= b ->
  fl (rnd (rnd (a - m) / d)) <= fl (rnd (rnd (b - m) / d)).
Proof.
  intros Hd Hab. apply fl_monotone, rnd_monotone.
  unfold Qdiv. apply Qmult_le_compat_r.
  - apply rnd_monotone. unfold Qminus.
    apply Qplus_le_compat; [exact Hab|apply Qle_refl].
  - apply Qinv_le_0_compat. apply Qlt_le_weak. exact Hd.
Qed.

(** The row obtained by subtracting the least entry and dividing by the
    range plus [EPS], every operation rounded. *)
Lemma min_max_normalized (raw row : Tensor1) (d : Q) :
  raw <> [] ->
  d == rnd (rnd (greatest raw - least raw) + rnd EPS) ->
  row = map (fun v => fl (rnd (rnd (v - least raw) / d))) raw ->
  normalized_from raw row.
Proof.
  intros Hne Hd ->.
  set (r := rnd (greatest raw - least raw)) in *.
  assert (Hr : 0 <= r).
  { rewrite <- rnd_zero. apply rnd_monotone.
    apply range_nonnegative. exact Hne. }
  assert (Hrr : rnd r == r) by apply rnd_idempotent.
  assert (Heps : 0 < rnd EPS) by apply round_EPS.
  assert (Hdr : r <= d).
  { rewrite Hd. apply Qle_trans with (rnd r).
    - rewrite Hrr. apply Qle_refl.
    - apply rnd_monotone. rewrite <- (Qplus_0_r r) at 1.
      apply Qplus_le_compat; [apply Qle_refl|apply Qlt_le_weak; exact Heps]. }
  assert (Hdpos : 0 < d).
  { eapply Qlt_le_trans; [exact Heps|].
    rewrite Hd. apply Qle_trans with (rnd (rnd EPS)).
    - rewrite rnd_idempotent. apply Qle_refl.
    - apply rnd_monotone. rewrite <- (Qplus_0_l (rnd EPS)) at 1.
      apply Qplus_le_compat; [exact Hr|apply Qle_refl]. }
  assert (Hmono : forall a b, a <= b ->
                    fl (rnd (rnd (a - least raw) / d))
                    <= fl (rnd (rnd (b - least raw) / d)))
    by (intros a b; apply shift_scale_monotone; exact Hdpos).
  assert (Hzero : forall q, q == 0 -> fl (rnd (q / d)) == 0).
  { intros q Hq. rewrite <- fl_zero. apply fl_proper.
    rewrite <- rnd_zero. apply rnd_proper. rewrite Hq. unfold Qdiv. ring. }
  assert (Hleast : least (map (fun v => fl (rnd (rnd (v - least raw) / d))) raw)
                   == 0).
  { rewrite (least_map _ Hmono raw Hne). apply Hzero.
    rewrite <- rnd_zero. apply rnd_proper. ring. }
  assert (Hgreatest :
            greatest (map (fun v => fl (rnd (rnd (v - least raw) / d))) raw)
            == fl (rnd (r / d))).
  { rewrite (greatest_map _ Hmono raw Hne). reflexivity. }
  unfold normalized_from. fold r.
  split; [exact Hne|]. split; [apply length_map|].
  split; [|split; [exact Hleast|split; [|split]]].
  - intros v Hv. split.
    + rewrite <- Hleast. apply least_le. exact Hv.
    + eapply Qle_trans; [apply le_greatest; exact Hv|].
      rewrite Hgreatest. rewrite <- (round_one single).
      apply fl_monotone. rewrite <- (round_one working).
      apply rnd_monotone. apply Qle_shift_div_r; [exact Hdpos|].
      rewrite Qmult_1_l. exact Hdr.
  - rewrite Hgreatest. apply fl_proper, rnd_proper.
    rewrite Hd. reflexivity.
  - intros H0. rewrite Hgreatest. apply Hzero. exact H0.
  - intros Hpos Habsorbed. rewrite Hgreatest.
    apply Qeq_trans with (fl 1); [apply fl_proper|apply (round_one single)].
    apply Qeq_trans with (rnd 1); [apply rnd_proper|apply (round_one working)].
    rewrite Hd, Habsorbed. field.
    intros Hc. rewrite Hc in Hpos. apply (Qlt_irrefl 0). exact Hpos.
Qed.

Lemma sequence_map_ok {A B} (g : A -> Result B) (l : list A) :
  forall rs, sequence (map g l) = Ok rs -> Forall2 (fun a r => g a = Ok r) l rs.
Proof.
  induction l as [|a l IH]; intros rs H; simpl in H.
  - injection H as <-. constructor.
  - destruct (g a) as [r|e] eqn:Hg; [|discriminate].
    destruct (sequence (map g l)) as [rs'|e]; [|discriminate].
    injection H as <-. constructor; [exact Hg|]. apply IH. reflexivity.
Qed.

Lemma row_min_ok (row : Tensor1) (m : Q) :
  row_min row = Ok m -> row <> [] /\ m = least row.
Proof.
  destruct row as [|v r]; simpl; [discriminate|].
  intros H. injection H as <-. split; [discriminate|reflexivity].
Qed.

Lemma row_max_ok (row : Tensor1) (m : Q) :
  row_max row = Ok m -> row <> [] /\ m = greatest row.
Proof.
  destruct row as [|v r]; simpl; [discriminate|].
  intros H. injection H as <-. split; [discriminate|reflexivity].
Qed.

(** Lines 383-384 normalise every row. *)
Lemma normalize_normal_rows (importance out : Tensor2) :
  invaseClassifier.normalize_normal importance = Ok out ->
  Forall2 normalized_from importance out.
Proof.
  unfold invaseClassifier.normalize_normal, min_last, max_last.
  destruct (sequence (map row_min importance)) as [mins|e] eqn:Hmins;
    [|discriminate].
  apply sequence_map_ok in Hmins.
  destruct (sequence (map row_max _)) as [maxs|e] eqn:Hmaxs; [|discriminate].
  apply sequence_map_ok in Hmaxs.
  intros H. injection H as <-.
  revert maxs Hmaxs.
  induction Hmins as [|raw m importance mins Hm Hrest IH]; intros maxs Hmaxs.
  - simpl in *. inversion Hmaxs. constructor.
  - cbn [zip_with] in *.
    inversion Hmaxs as [|shifted M ? maxs' HM Hrest']; subst.
    constructor; [|apply IH; exact Hrest'].
    apply row_min_ok in Hm. destruct Hm as [Hne ->].
    apply row_max_ok in HM. destruct HM as [_ ->].
    apply (min_max_normalized raw _
             (rnd (greatest (map (fun v => rnd (v - least raw)) raw)
                   + rnd EPS)) Hne).
    + assert (Hshift : forall a b, a <= b ->
                         rnd (a - least raw) <= rnd (b - least raw)).
      { intros a b Hab. apply rnd_monotone. unfold Qminus.
        apply Qplus_le_compat; [exact Hab|apply Qle_refl]. }
      apply rnd_proper.
      rewrite (greatest_map _ Hshift raw Hne). reflexivity.
    + rewrite map_map. reflexivity.
Qed.

(** Lines 435-436 normalise every row. *)
Lemma normalize_optimized_rows (importance out : Tensor2) :
  invaseClassifier.normalize_optimized importance = Ok out ->
  Forall2 normalized_from importance out.
Proof.
  unfold invaseClassifier.normalize_optimized, min_last, max_last.
  destruct (sequence (map row_min importance)) as [mins|e] eqn:Hmins;
    [|discriminate].
  apply sequence_map_ok in Hmins.
  destruct (sequence (map row_max importance)) as [maxs|e] eqn:Hmaxs;
    [|discriminate].
  apply sequence_map_ok in Hmaxs.
  intros H. injection H as <-.
  revert maxs Hmaxs.
  induction Hmins as [|raw m importance mins Hm Hrest IH]; intros maxs Hmaxs.
  - simpl. constructor.
  - inversion Hmaxs as [|? M ? maxs' HM Hrest']; subst.
    cbn [combine zip_with fst snd].
    constructor; [|apply IH; exact Hrest'].
    apply row_min_ok in Hm. destruct Hm as [Hne ->].
    apply row_max_ok in HM. destruct HM as [_ ->].
    apply (min_max_normalized raw _
             (rnd (rnd (greatest raw - least raw) + rnd EPS)) Hne);
      reflexivity.
Qed.

Context {T : Transcendentals}.

(** C1 (amended).  For the classification task and both strategies, the
    target the builder returns is the min-max normalisation of its
    accumulator: every instance's values lie in [0, 1], the least value of
    every instance is 0, and the greatest is the rounded quotient of the
    range r of the instance's accumulated values by r + EPS, which is 0
    when the range is 0 and 1 when r + EPS rounds to r. *)
Theorem classification_target_is_min_max_normalized
        (self : invaseClassifier.t) (estimator : Classifier)
        (x y : Tensor2) w (importance : Tensor2) w' :
  invaseClassifier._importance_test self estimator x y w = Ok (importance, w') ->
  exists raw,
    ((invaseClassifier.method self = "normal"%string
      /\ invaseClassifier._importance_test_normal self estimator x y w
         = Ok (importance, w')
      /\ invaseClassifier.accumulate_normal self estimator x y w = Ok (raw, w'))
     \/
     (invaseClassifier.method self = "optimized"%string
      /\ invaseClassifier._importance_test_optimized self estimator x y w
         = Ok (importance, w')
      /\ invaseClassifier.accumulate_optimized self estimator x y w = Ok (raw, w')))
    /\ Forall2 normalized_from raw importance.
Proof.
  unfold invaseClassifier._importance_test. intros H.
  destruct (String.eqb (invaseClassifier.method self) "normal") eqn:Hn.
  - apply String.eqb_eq in Hn. pose proof H as Hrun.
    unfold invaseClassifier._importance_test_normal in H.
    apply bind_ok in H. destruct H as (raw & w1 & Hraw & H).
    apply lift_ok in H. destruct H as [Hnorm ->].
    exists raw. split; [left; auto|].
    apply normalize_normal_rows. exact Hnorm.
  - destruct (String.eqb (invaseClassifier.method self) "optimized") eqn:Ho;
      [|discriminate].
    apply String.eqb_eq in Ho. pose proof H as Hrun.
    unfold invaseClassifier._importance_test_optimized in H.
    apply bind_ok in H. destruct H as (raw & w1 & Hraw & H).
    apply lift_ok in H. destruct H as [Hnorm ->].
    exists raw. split; [right; auto|].
    apply normalize_optimized_rows. exact Hnorm.
Qed.

End NormalisationFacts.

(* --------------------------------------------------------------------- *)
(** *** The fuel of the window loop is never exhausted *)

Ltac no_fuel_step :=
  first
    [ apply raises_only_ret
    | apply raises_only_raise; discriminate
    | apply raises_only_np_draw
    | apply raises_only_torch_draw
    | apply raises_only_bind; [|intros ?]
    | apply raises_only_map_m; intros ?
    | apply raises_only_for_each; intros ? ? ].

Ltac no_fuel := repeat no_fuel_step.

Lemma sequence_error {A} (l : list (Result A)) (e : PyError) :
  sequence l = Err e -> In (Err e) l.
Proof.
  induction l as [|r l IH]; simpl; [discriminate|].
  destruct r as [a|e']; [|intros H; injection H as <-; left; reflexivity].
  destruct (sequence l) as [rs|e'']; [discriminate|].
  intros H. injection H as <-. right. apply IH. reflexivity.
Qed.

Lemma sequence_map_error {A B} (g : A -> Result B) (l : list A) (e : PyError) :
  sequence (map g l) = Err e -> exists a, In a l /\ g a = Err e.
Proof.
  intros H. apply sequence_error in H. apply in_map_iff in H.
  destruct H as (a & Ha & Hin). exists a. auto.
Qed.

Lemma first_row_fuel {A} (t : list (list A)) : forall e, first_row t = Err e -> fuel_left e.
Proof. destruct t; simpl; intros e H; [injection H as <-|]; discriminate. Qed.

Lemma elementwise_fuel f a b : forall e, elementwise f a b = Err e -> fuel_left e.
Proof. intros e H. apply elementwise_error in H. subst. discriminate. Qed.

Lemma torch_stack_fuel {A} (l : list (list A)) :
  forall e, torch_stack l = Err e -> fuel_left e.
Proof. destruct l; simpl; intros e H; [injection H as <-|]; discriminate. Qed.

Lemma row_min_fuel row : forall e, row_min row = Err e -> fuel_left e.
Proof. destruct row; simpl; intros e H; [injection H as <-|]; discriminate. Qed.

Lemma row_max_fuel row : forall e, row_max row = Err e -> fuel_left e.
Proof. destruct row; simpl; intros e H; [injection H as <-|]; discriminate. Qed.

Lemma max_first_fuel m : forall e, max_first m = Err e -> fuel_left e.
Proof. destruct m; simpl; intros e H; [injection H as <-|]; discriminate. Qed.

Lemma reshape_rows_fuel n losses :
  forall e, reshape_rows n losses = Err e -> fuel_left e.
Proof.
  unfold reshape_rows. intros e.
  destruct ((n =? 0)%nat || (length losses =? 0)%nat);
    [intros H; injection H as <-; discriminate|].
  destruct (length losses mod n =? 0)%nat;
    [discriminate|intros H; injection H as <-; discriminate].
Qed.

Lemma min_last_fuel t : forall e, min_last t = Err e -> fuel_left e.
Proof.
  intros e H. apply sequence_map_error in H. destruct H as (row & _ & H).
  eapply row_min_fuel. eassumption.
Qed.

Lemma max_last_fuel t : forall e, max_last t = Err e -> fuel_left e.
Proof.
  intros e H. apply sequence_map_error in H. destruct H as (row & _ & H).
  eapply row_max_fuel. eassumption.
Qed.

Lemma forward_fuel {F : Floats} (self : Masking.t) (tensors : list Tensor2) :
  raises_only fuel_left (Masking.forward self tensors).
Proof.
  unfold Masking.forward.
  destruct (negb (length tensors =? 2)%nat); [no_fuel|].
  apply raises_only_bind; [apply raises_only_lift, first_row_fuel|intros f0].
  destruct (negb _); [no_fuel|].
  apply raises_only_bind; [apply raises_only_lift, first_row_fuel|intros s0].
  destruct (negb _); [no_fuel|].
  apply raises_only_bind.
  - intros w e H. apply draw_replacements_errors in H. subst. discriminate.
  - intros drawn. destruct (_ =? 0)%nat; [no_fuel|].
    apply raises_only_bind; [apply raises_only_lift, elementwise_fuel|intros kept].
    apply raises_only_bind; [apply raises_only_lift, elementwise_fuel|intros rep].
    apply raises_only_bind;
      [apply raises_only_lift, elementwise_fuel|intros result].
    apply raises_only_ret.
Qed.

Lemma permute_rows_fuel (next_mask : list (list Z)) :
  raises_only fuel_left (permute_rows next_mask).
Proof. unfold permute_rows, torch_rand. no_fuel. Qed.

(** The loop returns or raises an exception of the source: the fuel given
    by [interaction_windows] is enough. *)
Lemma window_loop_fuel {St} (n : nat) (turn : list (list Z) -> St -> M St) :
  (forall next_mask s, raises_only fuel_left (turn next_mask s)) ->
  forall fuel next_slice generator importance,
    (length next_slice = n -> (length generator < fuel)%nat) ->
    raises_only fuel_left
                (window_loop fuel n turn next_slice generator importance).
Proof.
  intros Hturn. induction fuel as [|fuel IH];
    intros next_slice generator importance Hfuel; simpl.
  - destruct (length next_slice =? n)%nat eqn:Hfull; [|no_fuel].
    apply Nat.eqb_eq in Hfull. specialize (Hfuel Hfull). lia.
  - destruct (length next_slice =? n)%nat eqn:Hfull; [|no_fuel].
    apply Nat.eqb_eq in Hfull. specialize (Hfuel Hfull).
    destruct next_slice as [|m next_slice'].
    + (* [torch.stack] refuses the empty window *)
      intros w e H. unfold bind, lift in H. simpl in H.
      injection H as <-. discriminate.
    + apply raises_only_bind; [apply raises_only_lift, torch_stack_fuel|].
      intros next_mask.
      apply raises_only_bind; [apply Hturn|]. intros importance'.
      unfold Py.islice. apply IH. intros Hnext.
      simpl in Hfull. rewrite length_firstn in Hnext.
      rewrite length_skipn. lia.
Qed.

Lemma interaction_windows_fuel {St} (n : nat) (turn : list (list Z) -> St -> M St)
      (generator : list (list Z)) (importance : St) :
  (forall next_mask s, raises_only fuel_left (turn next_mask s)) ->
  raises_only fuel_left (interaction_windows n turn generator importance).
Proof.
  intros Hturn. unfold interaction_windows, Py.islice.
  apply window_loop_fuel; [exact Hturn|].
  intros _. rewrite length_skipn. lia.
Qed.

Section FuelFacts.

Context {T : Transcendentals}.
Context {F : Floats}.

Lemma classifier_metric_fuel (estimator : Classifier) (x y : Tensor2) :
  forall e, invaseClassifier._baseline_metric estimator x y = Err e -> fuel_left e.
Proof.
  unfold invaseClassifier._baseline_metric. intros e.
  destruct (predict_proba estimator); [discriminate|].
  destruct (predict estimator); [discriminate|].
  intros H. injection H as <-. discriminate.
Qed.

Lemma classifier_inner_passes_fuel self estimator x y next_mask importance :
  raises_only fuel_left
    (invaseClassifier.inner_passes self estimator x y next_mask importance).
Proof.
  unfold invaseClassifier.inner_passes.
  apply raises_only_for_each. intros local_inter acc.
  apply raises_only_bind; [apply permute_rows_fuel|intros mask].
  apply raises_only_bind; [apply forward_fuel|intros masked].
  apply raises_only_bind;
    [apply raises_only_lift, classifier_metric_fuel|intros loss].
  apply raises_only_ret.
Qed.

Lemma classifier_accumulate_normal_fuel self estimator x y :
  raises_only fuel_left (invaseClassifier.accumulate_normal self estimator x y).
Proof.
  unfold invaseClassifier.accumulate_normal.
  apply raises_only_bind.
  - unfold invaseClassifier.leave_one_out_pass.
    apply raises_only_for_each. intros mask acc.
    apply raises_only_bind; [apply forward_fuel|intros masked].
    apply raises_only_bind;
      [apply raises_only_lift, classifier_metric_fuel|intros loss].
    apply raises_only_ret.
  - intros importance. apply interaction_windows_fuel.
    intros next_mask s. apply classifier_inner_passes_fuel.
Qed.

Lemma classifier_accumulate_optimized_fuel self estimator x y :
  raises_only fuel_left (invaseClassifier.accumulate_optimized self estimator x y).
Proof.
  unfold invaseClassifier.accumulate_optimized.
  apply raises_only_bind; [apply raises_only_lift, torch_stack_fuel|].
  intros all_masks. apply raises_only_bind.
  - apply raises_only_for_each. intros i acc.
    unfold invaseClassifier.chunk_pass.
    apply raises_only_bind; [apply forward_fuel|intros masked].
    apply raises_only_bind;
      [apply raises_only_lift, classifier_metric_fuel|intros losses].
    apply raises_only_bind;
      [apply raises_only_lift, reshape_rows_fuel|intros rows].
    apply raises_only_bind; [|intros reduced; apply raises_only_ret].
    apply raises_only_lift. intros e H.
    apply sequence_error in H.
    remember (repeat (map promote (Py.slice all_masks i (i + 64))) (length x))
      as masks eqn:Hmasks. clear Hmasks.
    revert rows H. induction masks as [|m masks IH]; intros [|r rows] H;
      simpl in H; try contradiction.
    destruct H as [H|H]; [eapply max_first_fuel; exact H|].
    eapply IH. exact H.
  - intros importance. unfold invaseClassifier.sampled_interactions.
    apply raises_only_for_each. intros level acc.
    apply raises_only_for_each. intros sample_index acc'.
    apply raises_only_bind.
    { unfold torch_randperm.
      generalize (seq 0 (width x)). generalize (width x) at 1.
      intros fuel. induction fuel as [|fuel IH]; intros l; simpl.
      - apply raises_only_ret.
      - destruct l as [|a l']; [apply raises_only_ret|].
        apply raises_only_bind; [apply raises_only_torch_draw|intros r].
        apply raises_only_bind; [apply IH|intros rest].
        apply raises_only_ret. }
    intros permutation.
    apply raises_only_bind; [apply forward_fuel|intros masked].
    apply raises_only_bind;
      [apply raises_only_lift, classifier_metric_fuel|intros loss].
    apply raises_only_ret.
Qed.

(** The classification builder returns a target or raises an exception of
    the source. *)
Lemma classifier_importance_test_fuel self estimator x y :
  raises_only fuel_left (invaseClassifier._importance_test self estimator x y).
Proof.
  unfold invaseClassifier._importance_test.
  destruct (String.eqb _ "normal").
  - unfold invaseClassifier._importance_test_normal.
    apply raises_only_bind; [apply classifier_accumulate_normal_fuel|].
    intros importance. apply raises_only_lift. intros e.
    unfold invaseClassifier.normalize_normal.
    destruct (min_last importance) as [mins|e1] eqn:Hmins.
    + destruct (max_last _) as [maxs|e2] eqn:Hmaxs; [discriminate|].
      intros H. injection H as <-. eapply max_last_fuel. exact Hmaxs.
    + intros H. injection H as <-. eapply min_last_fuel. exact Hmins.
  - destruct (String.eqb _ "optimized").
    + unfold invaseClassifier._importance_test_optimized.
      apply raises_only_bind; [apply classifier_accumulate_optimized_fuel|].
      intros importance. apply raises_only_lift. intros e.
      unfold invaseClassifier.normalize_optimized.
      destruct (min_last importance) as [mins|e1] eqn:Hmins.
      * destruct (max_last _) as [maxs|e2] eqn:Hmaxs; [discriminate|].
        intros H. injection H as <-. eapply max_last_fuel. exact Hmaxs.
      * intros H. injection H as <-. eapply min_last_fuel. exact Hmins.
    + apply raises_only_raise. discriminate.
Qed.

Lemma column_fuel idx loss :
  forall e, invaseRiskEstimation.column idx loss = Err e -> fuel_left e.
Proof.
  intros e H. apply sequence_map_error in H. destruct H as (row & _ & H).
  destruct (nth_error row idx); [discriminate|].
  injection H as <-. discriminate.
Qed.

Lemma horizons_pass_fuel self f contribution loss importance :
  raises_only fuel_left
    (invaseRiskEstimation.horizons_pass self f contribution loss importance).
Proof.
  unfold invaseRiskEstimation.horizons_pass.
  apply raises_only_for_each. intros idx acc.
  apply raises_only_bind; [apply raises_only_lift, column_fuel|intros loss_at].
  apply raises_only_ret.
Qed.

(** The risk-estimation builder returns a target or raises an exception of
    the source. *)
Lemma risk_importance_test_fuel self estimator x y :
  raises_only fuel_left (invaseRiskEstimation._importance_test self estimator x y).
Proof.
  unfold invaseRiskEstimation._importance_test.
  apply raises_only_bind.
  - unfold invaseRiskEstimation.leave_one_out_pass.
    apply raises_only_for_each. intros mask acc.
    apply raises_only_bind; [apply forward_fuel|intros masked].
    apply horizons_pass_fuel.
  - intros importance. apply interaction_windows_fuel.
    intros next_mask s. unfold invaseRiskEstimation.inner_passes.
    apply raises_only_for_each. intros local_inter acc.
    apply raises_only_bind; [apply permute_rows_fuel|intros mask].
    apply raises_only_bind; [apply forward_fuel|intros masked].
    apply horizons_pass_fuel.
Qed.

End FuelFacts.

Section TargetExamples.

Local Open Scope Q_scope.

Lemma classification_target_is_min_max_normalized_witness :
  @invaseClassifier._importance_test rational_stand_ins exact_floats
    two_feature_classifier echo_estimator [[0; 1]] [[0; 3]] two_feature_world
  = Ok (two_feature_target, two_feature_final_world) /\
  exists raw,
    ((invaseClassifier.method two_feature_classifier = "normal"%string
      /\ @invaseClassifier._importance_test_normal rational_stand_ins exact_floats
           two_feature_classifier echo_estimator [[0; 1]] [[0; 3]]
           two_feature_world
         = Ok (two_feature_target, two_feature_final_world)
      /\ @invaseClassifier.accumulate_normal rational_stand_ins exact_floats
           two_feature_classifier echo_estimator [[0; 1]] [[0; 3]]
           two_feature_world
         = Ok (raw, two_feature_final_world))
     \/
     (invaseClassifier.method two_feature_classifier = "optimized"%string
      /\ @invaseClassifier._importance_test_optimized rational_stand_ins exact_floats
           two_feature_classifier echo_estimator [[0; 1]] [[0; 3]]
           two_feature_world
         = Ok (two_feature_target, two_feature_final_world)
      /\ @invaseClassifier.accumulate_optimized rational_stand_ins exact_floats
           two_feature_classifier echo_estimator [[0; 1]] [[0; 3]]
           two_feature_world
         = Ok (raw, two_feature_final_world)))
    /\ Forall2 (@normalized_from exact_floats) raw two_feature_target.
Proof.
  assert (H : @invaseClassifier._importance_test rational_stand_ins exact_floats
                two_feature_classifier echo_estimator [[0; 1]] [[0; 3]]
                two_feature_world
              = Ok (two_feature_target, two_feature_final_world))
    by (vm_compute; reflexivity).
  split; [exact H|].
  exact (@classification_target_is_min_max_normalized exact_floats rational_stand_ins
           two_feature_classifier echo_estimator [[0; 1]] [[0; 3]]
           two_feature_world two_feature_target two_feature_final_world H).
Defined.

(** The accumulated losses 5 and 9 of the two features, with the interaction
    terms on top, have range 4: without rounding the target is 0 and
    4 / (4 + EPS). *)
Example two_feature_target_value :
  Forall2 (Forall2 Qeq) two_feature_target [[0; 4 / (4 + EPS)]].
Proof. repeat constructor. Qed.

(** In a format in which 4 + EPS rounds to 4, as it does in float32, the
    quotient is 4 / 4 and the target of the same instance is 0 and 1. *)
Example two_feature_target_rounded :
  exists target w',
    @invaseClassifier._importance_test rational_stand_ins two_scale_floats
      two_feature_classifier echo_estimator [[0; 1]] [[0; 3]] two_feature_world
    = Ok (target, w')
    /\ Forall2 (Forall2 Qeq) target [[0; 1]].
Proof.
  eexists. eexists. split; [vm_compute; reflexivity|].
  repeat constructor.
Qed.

(** The same instance under the batched strategy: the draws fall
    differently, the losses are 5 and 16, and the target is 0 and
    11 / (11 + EPS). *)
Example two_feature_target_optimized :
  exists target w',
    @invaseClassifier._importance_test rational_stand_ins exact_floats
      (invaseClassifier.mk "optimized" 1 2 (Masking.mk DType.float64 [[0; 1]; [0; 1]])
                           example_config
                           (invaseClassifier._build_critic example_params))
      echo_estimator [[0; 1]] [[0; 3]] two_feature_world
    = Ok (target, w')
    /\ Forall2 (Forall2 Qeq) target [[0; 11 / (11 + EPS)]].
Proof.
  eexists. eexists. split; [vm_compute; reflexivity|].
  repeat constructor.
Qed.

(** C1 (counterexample).  The risk-estimation builder returns its
    accumulator without normalising it: for one instance with feature 0
    and label 0, and an estimator whose risk is 1 as soon as the feature is
    not 0, the importance returned is 2.004, above 1.  (The label being 0,
    the likelihood term [-y * log(p + EPS)] vanishes whatever the logarithm
    is.) *)
Lemma risk_target_is_not_normalized :
  exists importance w',
    @invaseRiskEstimation._importance_test rational_stand_ins exact_floats
      one_horizon_explainer threshold_estimator [[0]] [[0]] (mkWorld [] [])
    = Ok (importance, w')
    /\ 1 < nth 0 (nth 0 (nth 0 importance []) []) 0
    /\ ~ nth 0 (nth 0 (nth 0 importance []) []) 0 == 0.
Proof.
  eexists. eexists. split; [vm_compute; reflexivity|].
  split; [reflexivity|]. discriminate.
Qed.

End TargetExamples.

(* ===================================================================== *)
(** * Further properties of the code *)
(* ===================================================================== *)

(* --------------------------------------------------------------------- *)
(** *** The enumerator at every cardinality *)

Lemma choose_above (n : nat) : forall m, (n < m)%nat -> choose n m = 0%nat.
Proof.
  induction n as [|n IH]; intros [|m] H; simpl; try lia.
  rewrite !IH by lia. reflexivity.
Qed.

Lemma choose_diag (n : nat) : choose n n = 1%nat.
Proof.
  induction n as [|n IH]; simpl; [reflexivity|].
  rewrite IH, choose_above by lia. reflexivity.
Qed.

Example choose_5_2 : choose 5 2 = 10%nat.
Proof. reflexivity. Qed.

Lemma all_ones_unique (mask : list Z) :
  binary mask -> ones_count mask = length mask -> mask = repeat 1 (length mask).
Proof.
  unfold binary, ones_count.
  induction mask as [|b mask IH]; intros Hbin Hcount; [reflexivity|].
  inversion Hbin as [|? ? Hb Hrest]; subst.
  pose proof (count_occ_bound Z.eq_dec 1 mask) as Hbound.
  simpl in *. destruct (Z.eq_dec b 1) as [->|Hne].
  - f_equal. apply IH; [exact Hrest|lia].
  - lia.
Qed.

Lemma all_zeros_unique (mask : list Z) :
  binary mask -> ones_count mask = 0%nat -> mask = repeat 0 (length mask).
Proof.
  unfold binary, ones_count.
  induction mask as [|b mask IH]; intros Hbin Hcount; [reflexivity|].
  inversion Hbin as [|? ? Hb Hrest]; subst.
  simpl in *. destruct (Z.eq_dec b 1) as [->|Hne]; [discriminate|].
  destruct Hb as [-> | ->]; [|congruence].
  f_equal. apply IH; assumption.
Qed.

Lemma binary_repeat (b : Z) (n : nat) : b = 0 \/ b = 1 -> binary (repeat b n).
Proof.
  intros Hb. unfold binary. apply Forall_forall. intros c Hc.
  apply repeat_spec in Hc. subst. exact Hb.
Qed.

Lemma ones_count_repeat_1 (n : nat) : ones_count (repeat 1 n) = n.
Proof. unfold ones_count. induction n; simpl; [reflexivity|lia]. Qed.

Lemma ones_count_repeat_0 (n : nat) : ones_count (repeat 0 n) = 0%nat.
Proof. unfold ones_count. induction n; simpl; [reflexivity|assumption]. Qed.

Lemma bitmasks_spec_nat (n : nat) :
  forall m, (m <= n)%nat ->
    NoDup (bitmasks (Z.of_nat n) (Z.of_nat m))
    /\ length (bitmasks (Z.of_nat n) (Z.of_nat m)) = choose n m
    /\ forall mask, In mask (bitmasks (Z.of_nat n) (Z.of_nat m)) <-> mask_of n m mask.
Proof.
  induction n as [|n IH]; intros m Hm.
  - assert (m = 0%nat) by lia. subst m.
    split; [repeat constructor; simpl; tauto|]. split; [reflexivity|].
    intros mask. simpl. unfold mask_of. split.
    + intros [<-|[]]. repeat split. constructor.
    + intros (Hlen & _ & _). left. destruct mask; [reflexivity|discriminate].
  - rewrite bitmasks_eq.
    destruct (Z.of_nat m <? Z.of_nat (S n)) eqn:Hlt.
    2:{ (* m = n + 1: the all-ones mask *)
        apply Z.ltb_ge in Hlt. assert (m = S n) by lia. subst m.
        unfold Py.replicate. rewrite Nat2Z.id.
        split; [repeat constructor; simpl; tauto|].
        split; [rewrite choose_diag; reflexivity|].
        intros mask. unfold mask_of. split.
        - intros [<-|[]]. split; [apply repeat_length|].
          split; [apply binary_repeat; auto|apply ones_count_repeat_1].
        - intros (Hlen & Hbin & Hones). left.
          rewrite <- Hlen in Hones. rewrite <- Hlen.
          symmetry. apply all_ones_unique; assumption. }
    apply Z.ltb_lt in Hlt.
    destruct (0 <? Z.of_nat m) eqn:Hpos.
    2:{ (* m = 0: the all-zeros mask *)
        apply Z.ltb_ge in Hpos. assert (m = 0%nat) by lia. subst m.
        unfold Py.replicate. rewrite Nat2Z.id.
        split; [repeat constructor; simpl; tauto|].
        split; [reflexivity|].
        intros mask. unfold mask_of. split.
        - intros [<-|[]]. split; [apply repeat_length|].
          split; [apply binary_repeat; auto|apply ones_count_repeat_0].
        - intros (Hlen & Hbin & Hones). left.
          rewrite <- Hlen. symmetry. apply all_zeros_unique; assumption. }
    apply Z.ltb_lt in Hpos.
    destruct m as [|m]; [lia|].
    replace (Z.of_nat (S n) - 1) with (Z.of_nat n) by lia.
    replace (Z.of_nat (S m) - 1) with (Z.of_nat m) by lia.
    destruct (IH m ltac:(lia)) as (Hnd1 & Hlen1 & Hin1).
    destruct (IH (S m) ltac:(lia)) as (Hnd0 & Hlen0 & Hin0).
    split; [|split].
    + apply NoDup_app.
      * apply Finite.Injective_map_NoDup; [|exact Hnd1].
        intros a b H. injection H. auto.
      * apply Finite.Injective_map_NoDup; [|exact Hnd0].
        intros a b H. injection H. auto.
      * intros mask H1 H0. apply in_map_iff in H1. apply in_map_iff in H0.
        destruct H1 as (t1 & <- & _). destruct H0 as (t0 & H & _). discriminate.
    + rewrite length_app, !length_map, Hlen1, Hlen0. reflexivity.
    + intros mask. rewrite in_app_iff, !in_map_iff. unfold mask_of. split.
      * intros [(t & <- & Ht)|(t & <- & Ht)].
        -- apply Hin1 in Ht. destruct Ht as (Hl & Hb & Ho).
           split; [simpl; lia|]. split; [constructor; auto|].
           unfold ones_count in *. simpl. lia.
        -- apply Hin0 in Ht. destruct Ht as (Hl & Hb & Ho).
           split; [simpl; lia|]. split; [constructor; auto|].
           unfold ones_count in *. simpl. exact Ho.
      * intros (Hl & Hb & Ho). destruct mask as [|b t]; [discriminate|].
        inversion Hb as [|? ? Hhead Htail]; subst.
        destruct Hhead as [Hh|Hh]; subst b.
        -- right. exists t. split; [reflexivity|]. apply Hin0.
           split; [simpl in Hl; lia|]. split; [exact Htail|].
           unfold ones_count in *. simpl in Ho. exact Ho.
        -- left. exists t. split; [reflexivity|]. apply Hin1.
           split; [simpl in Hl; lia|]. split; [exact Htail|].
           unfold ones_count in *. simpl in Ho. lia.
Qed.

(** X1.  For 0 <= m <= n, [bitmasks(n, m)] yields every binary mask of
    length n with exactly m ones, and yields it once. *)
Theorem bitmasks_enumerates_each_mask_once (n m : Z) :
  0 <= m <= n ->
  NoDup (bitmasks n m)
  /\ forall mask,
       In mask (bitmasks n m) <-> mask_of (Z.to_nat n) (Z.to_nat m) mask.
Proof.
  intros H.
  destruct (bitmasks_spec_nat (Z.to_nat n) (Z.to_nat m) ltac:(lia))
    as (Hnd & _ & Hin).
  rewrite !Z2Nat.id in * by lia. split; assumption.
Qed.

Lemma bitmasks_enumerates_each_mask_once_witness :
  0 <= 2 <= 4 /\
  NoDup (bitmasks 4 2)
  /\ forall mask, In mask (bitmasks 4 2) <-> mask_of (Z.to_nat 4) (Z.to_nat 2) mask.
Proof.
  split; [lia|]. apply (bitmasks_enumerates_each_mask_once 4 2). lia.
Defined.

Example bitmasks_4_2 :
  bitmasks 4 2 = [[1; 1; 0; 0]; [1; 0; 1; 0]; [1; 0; 0; 1];
                  [0; 1; 1; 0]; [0; 1; 0; 1]; [0; 0; 1; 1]].
Proof. reflexivity. Qed.

(** X2.  For 0 <= m <= n, [bitmasks(n, m)] yields C(n, m) masks. *)
Theorem bitmasks_count_is_binomial (n m : Z) :
  0 <= m <= n ->
  length (bitmasks n m) = choose (Z.to_nat n) (Z.to_nat m).
Proof.
  intros H.
  destruct (bitmasks_spec_nat (Z.to_nat n) (Z.to_nat m) ltac:(lia))
    as (_ & Hlen & _).
  rewrite !Z2Nat.id in * by lia. exact Hlen.
Qed.

Lemma bitmasks_count_is_binomial_witness :
  0 <= 3 <= 6 /\ length (bitmasks 6 3) = choose (Z.to_nat 6) (Z.to_nat 3).
Proof.
  split; [lia|]. apply (bitmasks_count_is_binomial 6 3). lia.
Defined.

Lemma range_NoDup (lo hi : Z) : NoDup (Py.range lo hi).
Proof.
  unfold Py.range. apply Finite.Injective_map_NoDup; [|apply seq_NoDup].
  intros a b H. lia.
Qed.

Lemma in_range_iff (lo hi k : Z) : In k (Py.range lo hi) <-> lo <= k < hi.
Proof.
  split; [apply in_range|].
  intros H. unfold Py.range. apply in_map_iff.
  exists (Z.to_nat (k - lo)). split; [lia|]. apply in_seq. lia.
Qed.

Lemma tiers_NoDup (n : nat) (ks : list Z) :
  NoDup ks -> (forall k, In k ks -> 0 <= k <= Z.of_nat n) ->
  NoDup (flat_map (bitmasks (Z.of_nat n)) ks).
Proof.
  induction ks as [|k ks IH]; intros Hnd Hks; simpl; [constructor|].
  inversion Hnd as [|? ? Hnotin Hnd']; subst.
  assert (Hk : 0 <= k <= Z.of_nat n) by (apply Hks; left; reflexivity).
  destruct (bitmasks_spec_nat n (Z.to_nat k) ltac:(lia)) as (Hnd1 & _ & Hin1).
  rewrite Z2Nat.id in * by lia.
  apply NoDup_app.
  - exact Hnd1.
  - apply IH; [exact Hnd'|]. intros k' Hk'. apply Hks. right. exact Hk'.
  - intros mask Hhere Hthere. apply in_flat_map in Hthere.
    destruct Hthere as (k' & Hk' & Hmask).
    assert (Hk'r : 0 <= k' <= Z.of_nat n) by (apply Hks; right; exact Hk').
    destruct (bitmasks_spec_nat n (Z.to_nat k') ltac:(lia)) as (_ & _ & Hin2).
    rewrite Z2Nat.id in * by lia.
    apply Hin1 in Hhere. apply Hin2 in Hmask.
    destruct Hhere as (_ & _ & H1). destruct Hmask as (_ & _ & H2).
    assert (k = k') by lia. subst k'. contradiction.
Qed.

(** X3.  For 0 <= low and high <= n + 1, [bitmask_intervals(n, low, high)]
    yields every binary mask of length n whose number of ones is at least
    low and below high, and yields it once. *)
Theorem bitmask_intervals_enumerates_the_tiers (n low high : Z) :
  0 <= n -> 0 <= low -> high <= n + 1 ->
  NoDup (bitmask_intervals n low high)
  /\ forall mask,
       In mask (bitmask_intervals n low high)
       <-> (length mask = Z.to_nat n /\ binary mask
            /\ low <= Z.of_nat (ones_count mask) < high).
Proof.
  intros Hn Hlow Hhigh. unfold bitmask_intervals.
  change (fun k : Z => bitmasks n k) with (bitmasks n).
  remember (Z.to_nat n) as size eqn:Hsize.
  assert (Hrepr : n = Z.of_nat size) by lia. subst n. clear Hsize Hn.
  split.
  - apply tiers_NoDup; [apply range_NoDup|].
    intros k Hk. apply in_range in Hk. lia.
  - intros mask. rewrite in_flat_map. split.
    + intros (k & Hk & Hmask). apply in_range in Hk.
      destruct (bitmasks_spec_nat size (Z.to_nat k) ltac:(lia))
        as (_ & _ & Hin).
      rewrite Z2Nat.id in Hin by lia. apply Hin in Hmask.
      destruct Hmask as (Hl & Hb & Ho). repeat split; try assumption; lia.
    + intros (Hl & Hb & Ho). exists (Z.of_nat (ones_count mask)).
      split; [apply in_range_iff; exact Ho|].
      destruct (bitmasks_spec_nat size (ones_count mask) ltac:(lia))
        as (_ & _ & Hin).
      apply Hin. repeat split; assumption.
Qed.

Lemma bitmask_intervals_enumerates_the_tiers_witness :
  0 <= 4 /\ 0 <= 1 /\ 3 <= 4 + 1 /\
  NoDup (bitmask_intervals 4 1 3)
  /\ forall mask,
       In mask (bitmask_intervals 4 1 3)
       <-> (length mask = Z.to_nat 4 /\ binary mask
            /\ 1 <= Z.of_nat (ones_count mask) < 3).
Proof.
  split; [lia|]. split; [lia|]. split; [lia|].
  apply (bitmask_intervals_enumerates_the_tiers 4 1 3); lia.
Defined.

(* --------------------------------------------------------------------- *)
(** *** The Masking Sampler, entry by entry *)

Lemma map_m_forall2 {A B} (f : A -> M B) (l : list A) :
  forall w bs w',
    map_m f l w = Ok (bs, w') ->
    Forall2 (fun a b => exists w1 w2, f a w1 = Ok (b, w2)) l bs.
Proof.
  induction l as [|a l IH]; intros w bs w' H; simpl in H.
  - apply ret_ok in H. destruct H as [-> _]. constructor.
  - apply bind_ok in H. destruct H as (b & w1 & Hb & H).
    apply bind_ok in H. destruct H as (bs' & w2 & Hbs & H).
    apply ret_ok in H. destruct H as [-> _].
    constructor; [eauto|]. eapply IH. eassumption.
Qed.

Lemma np_random_choice_ok (vals : list Q) (size : nat) w r w' :
  np_random_choice vals size w = Ok (r, w') ->
  vals <> [] /\ length r = size /\ Forall (fun v => In v vals) r.
Proof.
  unfold np_random_choice. destruct vals as [|v0 vals']; [discriminate|].
  intros H. split; [discriminate|]. split.
  - apply map_m_length in H. rewrite length_seq in H. exact H.
  - apply map_m_forall2 in H.
    induction H as [|k v ks vs Hv _ IH]; constructor; [|exact IH].
    destruct Hv as (w1 & w2 & Hv).
    apply bind_ok in Hv. destruct Hv as (d & w3 & _ & Hv).
    apply ret_ok in Hv. destruct Hv as [-> _].
    apply nth_In. apply Nat.mod_upper_bound. discriminate.
Qed.

Section MaskingEntries.

Local Open Scope Q_scope.

Context {F : Floats}.

Variable self : Masking.t.

Let D : nat := length (Masking.masking_values self).

(** Every draw is a value of the distribution of its feature. *)
Lemma drawn_entries_observed (n : nat) w drawn w' (i j : nat) :
  Masking.draw_replacements self n w = Ok (drawn, w') ->
  (i < n)%nat -> (j < D)%nat ->
  In (nth j (nth i drawn []) 0) (nth j (Masking.masking_values self) []).
Proof.
  unfold Masking.draw_replacements. intros H Hi Hj.
  apply bind_ok in H. destruct H as (cols & w1 & Hcols & H).
  apply ret_ok in H. destruct H as [-> _].
  rewrite nth_transpose by exact Hi.
  pose proof (map_m_length _ _ _ _ _ Hcols) as Hlen. fold D in Hlen.
  apply map_m_forall2 in Hcols.
  rewrite (nth_indep _ 0 ((fun c => nth i c 0) [])) by (rewrite length_map; lia).
  rewrite (map_nth (fun c => nth i c 0)).
  assert (Hcol : exists w1 w2,
             np_random_choice (nth j (Masking.masking_values self) []) n w1
             = Ok (nth j cols [], w2)).
  { clear Hlen. subst D. revert j Hj.
    induction Hcols as [|vals col vs cs Hc _ IH]; intros j Hj;
      simpl in Hj; [lia|].
    destruct j as [|j]; [exact Hc|]. apply IH. lia. }
  destruct Hcol as (wa & wb & Hcol).
  apply np_random_choice_ok in Hcol. destruct Hcol as (_ & Hsize & Hall).
  rewrite Forall_forall in Hall. apply Hall. apply nth_In. lia.
Qed.

(** X4.  Where the selection bit is 1, the output of [Masking.forward] holds
    the original value, converted to float32 as the whole output is (the
    value itself when the features are float32 already), whatever was
    drawn. *)
Theorem forward_keeps_selected_entries (x sel : Tensor2) w res w' (i j : nat) :
  length sel = length x ->
  Masking.forward self [x; sel] w = Ok (res, w') ->
  (i < length x)%nat ->
  (j < length (nth i x []))%nat -> (j < length (nth i sel []))%nat ->
  (j < D)%nat ->
  nth j (nth i sel []) 0 == 1 ->
  nth j (nth i res []) 0 == fl (nth j (nth i x []) 0)
  /\ (fl (nth j (nth i x []) 0) == nth j (nth i x []) 0 ->
      nth j (nth i res []) 0 == nth j (nth i x []) 0).
Proof.
  intros Hlen H Hi Hjx Hjs HjD Hsel.
  destruct (forward_entry self x sel w res w' Hlen H) as (drawn & _ & _ & Hrows).
  destruct (Hrows i Hi) as [_ Hentry].
  assert (Hres : nth j (nth i res []) 0 == fl (nth j (nth i x []) 0)).
  { rewrite (Hentry j Hjx Hjs HjD). apply fl_proper. rewrite Hsel. ring. }
  split; [exact Hres|].
  intros Hfloat. rewrite Hres. exact Hfloat.
Qed.

(** X5.  Where the selection bit is 0, the output holds either the sentinel
    of the element type of the masking values, or the float32 value of a
    value observed for the feature that the comparison of line 87 found
    different from the original one. *)
Theorem forward_hidden_entry_is_sentinel_or_observed_value
        (x sel : Tensor2) w res w' (i j : nat) :
  length sel = length x ->
  Masking.forward self [x; sel] w = Ok (res, w') ->
  (i < length x)%nat ->
  (j < length (nth i x []))%nat -> (j < length (nth i sel []))%nat ->
  (j < D)%nat ->
  nth j (nth i sel []) 0 == 0 ->
  nth j (nth i res []) 0 == Masking.sentinel (Masking.dtype self)
  \/ exists v, In v (nth j (Masking.masking_values self) [])
               /\ Masking.unchanged (Masking.dtype self)
                                    (nth j (nth i x []) 0) v = false
               /\ nth j (nth i res []) 0 == fl v.
Proof.
  intros Hlen H Hi Hjx Hjs HjD Hsel.
  destruct (forward_entry self x sel w res w' Hlen H)
    as (drawn & Hdrawn & _ & Hrows).
  destruct (Hrows i Hi) as [_ Hentry].
  specialize (Hentry j Hjx Hjs HjD).
  pose proof (drawn_entries_observed _ _ _ _ i j Hdrawn Hi HjD) as Hobs.
  destruct (Masking.unchanged (Masking.dtype self) (nth j (nth i x []) 0)
                              (nth j (nth i drawn []) 0)) eqn:Heq.
  - left. rewrite Hentry. rewrite <- fl_sentinel at 2. apply fl_proper.
    rewrite Hsel. ring.
  - right. exists (nth j (nth i drawn []) 0).
    split; [exact Hobs|]. split; [exact Heq|].
    rewrite Hentry. apply fl_proper. rewrite Hsel. ring.
Qed.

(** X6.  On a feature batch and a selection batch with the same number of
    rows, each row having one entry per feature distribution, the output
    has the shape of the feature batch. *)
Theorem forward_output_has_input_shape (x sel : Tensor2) w res w' :
  length sel = length x ->
  Forall (fun row => length row = D) x ->
  Forall (fun row => length row = D) sel ->
  Masking.forward self [x; sel] w = Ok (res, w') ->
  length res = length x /\ Forall (fun row => length row = D) res.
Proof.
  intros Hlen Hx Hsel H.
  destruct (forward_entry self x sel w res w' Hlen H)
    as (drawn & _ & Hl & Hrows).
  split; [exact Hl|].
  apply Forall_forall. intros row Hrow.
  apply (In_nth _ _ []) in Hrow. destruct Hrow as (i & Hi & <-).
  rewrite Hl in Hi. destruct (Hrows i Hi) as [Hw _]. rewrite Hw.
  rewrite Forall_forall in Hx, Hsel.
  rewrite (Hx (nth i x [])) by (apply nth_In; exact Hi).
  rewrite (Hsel (nth i sel [])) by (apply nth_In; lia).
  lia.
Qed.

(** X7.  With valid shapes, a feature without any observed value makes
    [Masking.forward] fail with numpy's ValueError. *)
Theorem forward_fails_on_an_empty_distribution (x sel : Tensor2) w :
  x <> [] -> sel <> [] ->
  width x = D -> width sel = D ->
  In [] (Masking.masking_values self) ->
  Masking.forward self [x; sel] w = Err ValueError.
Proof.
  intros Hx Hs Hwx Hws Hempty.
  destruct x as [|f0 x']; [congruence|]. destruct sel as [|s0 sel']; [congruence|].
  unfold width in Hwx, Hws. simpl in Hwx, Hws.
  unfold Masking.forward. cbn [length Nat.eqb negb nth first_row lift bind].
  fold D. rewrite Hwx, Nat.eqb_refl. cbn [negb].
  cbn [first_row lift bind]. rewrite Hws, Nat.eqb_refl. cbn [negb].
  unfold bind at 1.
  destruct (Masking.draw_replacements self (S (length x')) w)
    as [[drawn w1]|e] eqn:Hdrawn.
  - exfalso. unfold Masking.draw_replacements in Hdrawn.
    apply bind_ok in Hdrawn. destruct Hdrawn as (cols & w2 & Hcols & _).
    apply map_m_forall2 in Hcols.
    clear Hwx Hws. revert Hempty.
    induction Hcols as [|vals col vs cs Hc _ IH]; intros Hempty;
      simpl in Hempty; [contradiction|].
    destruct Hempty as [->|Hempty]; [|apply IH; exact Hempty].
    destruct Hc as (wa & wb & Hc). discriminate.
  - apply draw_replacements_errors in Hdrawn. subst e. reflexivity.
Qed.

End MaskingEntries.

Section MaskingEntriesExamples.

Local Open Scope Q_scope.

Lemma forward_keeps_selected_entries_witness :
  let self := Masking.mk DType.float64 [[3; 5]] in
  let x : Tensor2 := [[3]] in
  let sel : Tensor2 := [[1]] in
  let res : Tensor2 := [[3]] in
  let w := mkWorld [1%nat] [] in
  length sel = length x /\
  @Masking.forward exact_floats self [x; sel] w = Ok (res, mkWorld [] []) /\
  (0 < length x)%nat /\
  (0 < length (nth 0 x []))%nat /\ (0 < length (nth 0 sel []))%nat /\
  (0 < length (Masking.masking_values self))%nat /\
  nth 0 (nth 0 sel []) 0 == 1 /\
  nth 0 (nth 0 res []) 0 == @fl exact_floats (nth 0 (nth 0 x []) 0)
  /\ (@fl exact_floats (nth 0 (nth 0 x []) 0) == nth 0 (nth 0 x []) 0 ->
      nth 0 (nth 0 res []) 0 == nth 0 (nth 0 x []) 0).
Proof.
  intros self x sel res w.
  assert (H1 : length sel = length x) by reflexivity.
  assert (H2 : @Masking.forward exact_floats self [x; sel] w
               = Ok (res, mkWorld [] []))
    by reflexivity.
  assert (H3 : (0 < length x)%nat) by (simpl; lia).
  assert (H4 : (0 < length (nth 0 x []))%nat) by (simpl; lia).
  assert (H5 : (0 < length (nth 0 sel []))%nat) by (simpl; lia).
  assert (H6 : (0 < length (Masking.masking_values self))%nat) by (simpl; lia).
  assert (H7 : nth 0 (nth 0 sel []) 0 == 1) by reflexivity.
  split; [exact H1|]. split; [exact H2|]. split; [exact H3|].
  split; [exact H4|]. split; [exact H5|]. split; [exact H6|].
  split; [exact H7|].
  exact (@forward_keeps_selected_entries exact_floats self x sel w res
           (mkWorld [] []) 0%nat 0%nat H1 H2 H3 H4 H5 H6 H7).
Defined.

Lemma forward_hidden_entry_is_sentinel_or_observed_value_witness :
  let self := Masking.mk DType.float64 [[3; 5]] in
  let x : Tensor2 := [[3]] in
  let sel : Tensor2 := [[0]] in
  let res : Tensor2 := [[5]] in
  let w := mkWorld [1%nat] [] in
  length sel = length x /\
  @Masking.forward exact_floats self [x; sel] w = Ok (res, mkWorld [] []) /\
  (0 < length x)%nat /\
  (0 < length (nth 0 x []))%nat /\ (0 < length (nth 0 sel []))%nat /\
  (0 < length (Masking.masking_values self))%nat /\
  nth 0 (nth 0 sel []) 0 == 0 /\
  (nth 0 (nth 0 res []) 0 == Masking.sentinel (Masking.dtype self)
   \/ exists v, In v (nth 0 (Masking.masking_values self) [])
                /\ @Masking.unchanged exact_floats (Masking.dtype self)
                                      (nth 0 (nth 0 x []) 0) v = false
                /\ nth 0 (nth 0 res []) 0 == @fl exact_floats v).
Proof.
  intros self x sel res w.
  assert (H1 : length sel = length x) by reflexivity.
  assert (H2 : @Masking.forward exact_floats self [x; sel] w
               = Ok (res, mkWorld [] []))
    by reflexivity.
  assert (H3 : (0 < length x)%nat) by (simpl; lia).
  assert (H4 : (0 < length (nth 0 x []))%nat) by (simpl; lia).
  assert (H5 : (0 < length (nth 0 sel []))%nat) by (simpl; lia).
  assert (H6 : (0 < length (Masking.masking_values self))%nat) by (simpl; lia).
  assert (H7 : nth 0 (nth 0 sel []) 0 == 0) by reflexivity.
  split; [exact H1|]. split; [exact H2|]. split; [exact H3|].
  split; [exact H4|]. split; [exact H5|]. split; [exact H6|].
  split; [exact H7|].
  exact (@forward_hidden_entry_is_sentinel_or_observed_value exact_floats
           self x sel w res (mkWorld [] []) 0%nat 0%nat H1 H2 H3 H4 H5 H6 H7).
Defined.

Lemma forward_output_has_input_shape_witness :
  let self := Masking.mk DType.float64 [[3; 5]; [0; 1]] in
  let x : Tensor2 := [[3; 0]; [5; 1]] in
  let sel : Tensor2 := [[1; 0]; [0; 1]] in
  let res : Tensor2 := [[3; 1]; [-1; 1]] in
  let w := mkWorld [0; 1; 1; 0]%nat [] in
  length sel = length x /\
  Forall (fun row => length row = length (Masking.masking_values self)) x /\
  Forall (fun row => length row = length (Masking.masking_values self)) sel /\
  @Masking.forward exact_floats self [x; sel] w = Ok (res, mkWorld [] []) /\
  length res = length x /\
  Forall (fun row => length row = length (Masking.masking_values self)) res.
Proof.
  intros self x sel res w.
  assert (H1 : length sel = length x) by reflexivity.
  assert (H2 : Forall (fun row => length row = length (Masking.masking_values self)) x)
    by (repeat constructor).
  assert (H3 : Forall (fun row => length row = length (Masking.masking_values self)) sel)
    by (repeat constructor).
  assert (H4 : @Masking.forward exact_floats self [x; sel] w
               = Ok (res, mkWorld [] []))
    by reflexivity.
  split; [exact H1|]. split; [exact H2|]. split; [exact H3|]. split; [exact H4|].
  exact (@forward_output_has_input_shape exact_floats self x sel w res
           (mkWorld [] []) H1 H2 H3 H4).
Defined.

Lemma forward_fails_on_an_empty_distribution_witness :
  let self := Masking.mk DType.float64 [[3; 5]; []] in
  let x : Tensor2 := [[3; 0]] in
  let sel : Tensor2 := [[1; 1]] in
  let w := mkWorld [] [] in
  x <> [] /\ sel <> [] /\
  width x = length (Masking.masking_values self) /\
  width sel = length (Masking.masking_values self) /\
  In [] (Masking.masking_values self) /\
  @Masking.forward exact_floats self [x; sel] w = Err ValueError.
Proof.
  intros self x sel w.
  assert (H1 : x <> []) by discriminate.
  assert (H2 : sel <> []) by discriminate.
  assert (H3 : width x = length (Masking.masking_values self)) by reflexivity.
  assert (H4 : width sel = length (Masking.masking_values self)) by reflexivity.
  assert (H5 : In [] (Masking.masking_values self)) by (simpl; auto).
  repeat (split; [assumption|]).
  exact (@forward_fails_on_an_empty_distribution exact_floats self x sel w
           H1 H2 H3 H4 H5).
Defined.

End MaskingEntriesExamples.

(* --------------------------------------------------------------------- *)
(** *** The builders on a batch without instances *)

Section EmptyBatch.

Context {T : Transcendentals}.
Context {F : Floats}.

Lemma classifier_importance_test_empty
      (self : invaseClassifier.t) (estimator : Classifier) (y : Tensor2) w :
  invaseClassifier.method self = "normal"%string
  \/ invaseClassifier.method self = "optimized"%string ->
  invaseClassifier._importance_test self estimator [] y w = Err IndexError.
Proof.
  intros [Hm|Hm]; unfold invaseClassifier._importance_test; rewrite Hm;
    reflexivity.
Qed.

Lemma risk_importance_test_empty
      (self : invaseRiskEstimation.t) (estimator : RiskEstimator) (y : Tensor2) w :
  invaseRiskEstimation._importance_test self estimator [] y w = Err IndexError.
Proof. reflexivity. Qed.

(** X8.  On a batch without instances every importance builder fails with
    the IndexError of [features_vector[0]] in the masking layer, whatever
    the labels, the estimator and the state of the generators. *)
Theorem importance_builders_fail_on_an_empty_batch
        (self : invaseClassifier.t) (estimator : Classifier)
        (risk_self : invaseRiskEstimation.t) (risk_estimator : RiskEstimator)
        (y : Tensor2) (w : World) :
  invaseClassifier.method self = "normal"%string
  \/ invaseClassifier.method self = "optimized"%string ->
  invaseClassifier._importance_test self estimator [] y w = Err IndexError
  /\ invaseRiskEstimation._importance_test risk_self risk_estimator [] y w
     = Err IndexError.
Proof.
  intros Hm. split.
  - apply classifier_importance_test_empty. exact Hm.
  - apply risk_importance_test_empty.
Qed.

End EmptyBatch.

Lemma importance_builders_fail_on_an_empty_batch_witness :
  (invaseClassifier.method two_feature_classifier = "normal"%string
   \/ invaseClassifier.method two_feature_classifier = "optimized"%string) /\
  @invaseClassifier._importance_test rational_stand_ins exact_floats
     two_feature_classifier echo_estimator [] [] (mkWorld [] []) = Err IndexError
  /\ @invaseRiskEstimation._importance_test rational_stand_ins exact_floats
       one_horizon_explainer threshold_estimator [] [] (mkWorld [] [])
     = Err IndexError.
Proof.
  assert (H : invaseClassifier.method two_feature_classifier = "normal"%string
              \/ invaseClassifier.method two_feature_classifier = "optimized"%string)
    by (left; reflexivity).
  split; [exact H|].
  exact (@importance_builders_fail_on_an_empty_batch rational_stand_ins exact_floats
           two_feature_classifier echo_estimator
           one_horizon_explainer threshold_estimator [] (mkWorld [] []) H).
Defined.

(* --------------------------------------------------------------------- *)
(** *** The instances an epoch uses *)

Lemma firstn_add_skipn {A} (a b : nat) :
  forall l : list A, firstn a l ++ firstn b (skipn a l) = firstn (a + b) l.
Proof.
  induction a as [|a IH]; intros l; [reflexivity|].
  destruct l as [|v l]; simpl.
  - rewrite firstn_nil. reflexivity.
  - f_equal. apply IH.
Qed.

Lemma range_snoc (k : nat) :
  Py.range 0 (Z.of_nat (S k)) = Py.range 0 (Z.of_nat k) ++ [Z.of_nat k].
Proof.
  unfold Py.range. rewrite !Z.sub_0_r, !Nat2Z.id.
  rewrite seq_S, map_app. reflexivity.
Qed.

(** The batches 0 .. k-1, end to end, for a positive batch size. *)
Lemma batches_prefix (train_indices : list nat) (batch_size : Z) (k : nat) :
  0 < batch_size ->
  (1 <= length train_indices)%nat ->
  concat (invaseBase.epoch_batches train_indices (Z.of_nat k) batch_size
            (Z.of_nat (length train_indices)))
  = firstn (Z.to_nat (Z.min (Z.of_nat k * batch_size)
                            (Z.of_nat (length train_indices) - 1)))
           train_indices.
Proof.
  intros Hbs Hn. unfold invaseBase.epoch_batches.
  induction k as [|k IH].
  - cbn [Py.range Z.of_nat Z.sub Z.to_nat seq map concat Z.mul].
    replace (Z.min 0 (Z.of_nat (length train_indices) - 1)) with 0 by lia.
    reflexivity.
  - rewrite range_snoc, map_app, concat_app, IH. cbn [map concat].
    rewrite app_nil_r.
    unfold invaseBase.select_batch, Py.slice, Py.slice_bound.
    set (len := Z.of_nat (length train_indices)) in *.
    replace (Z.of_nat k * batch_size <? 0) with false
      by (symmetry; apply Z.ltb_ge; nia).
    replace (Z.min ((Z.of_nat k + 1) * batch_size) (len - 1) <? 0) with false
      by (symmetry; apply Z.ltb_ge; nia).
    rewrite Nat2Z.inj_succ.
    destruct (Z_le_gt_dec (Z.of_nat k * batch_size) (len - 1)) as [Hle|Hgt].
    + replace (Z.min (Z.of_nat k * batch_size) (len - 1))
        with (Z.of_nat k * batch_size) by lia.
      replace (Z.min (Z.of_nat k * batch_size) len)
        with (Z.of_nat k * batch_size) by lia.
      rewrite firstn_add_skipn. f_equal. nia.
    + replace (Z.to_nat
                 (Z.min (Z.min ((Z.of_nat k + 1) * batch_size) (len - 1)) len
                  - Z.min (Z.of_nat k * batch_size) len))
        with 0%nat by nia.
      cbn [firstn]. rewrite app_nil_r. f_equal. nia.
Qed.

(** X10.  With at least one training instance, the mini-batches of an
    epoch, taken end to end, are the first
    [min(n_batches * batch_size, n - 1)] entries of the shuffled index
    array: an epoch uses that many instances, each in one batch only. *)
Theorem epoch_batches_are_a_prefix_of_the_shuffled_indices
        (train_indices : list nat) (configured_batch_size n_batches : Z) :
  let n := Z.of_nat (length train_indices) in
  let batch_size := invaseBase.effective_batch_size configured_batch_size n in
  1 <= n ->
  invaseBase.number_of_batches batch_size n = Ok n_batches ->
  concat (invaseBase.epoch_batches train_indices n_batches batch_size n)
  = firstn (Z.to_nat (Z.min (Z.max 0 n_batches * batch_size) (n - 1)))
           train_indices.
Proof.
  intros n batch_size Hn Hnb.
  destruct (Z_le_gt_dec n_batches 0) as [Hle|Hgt].
  - replace (Z.max 0 n_batches) with 0 by lia.
    unfold invaseBase.epoch_batches, Py.range.
    replace (Z.to_nat (n_batches - 0)) with 0%nat by lia.
    rewrite Z.mul_0_l. replace (Z.min 0 (n - 1)) with 0 by lia. reflexivity.
  - assert (Hbs : 0 < batch_size)
      by (eapply number_of_batches_positive; [exact Hn|exact Hnb|lia]).
    replace (Z.max 0 n_batches) with n_batches by lia.
    replace n_batches with (Z.of_nat (Z.to_nat n_batches)) by lia.
    subst n. apply batches_prefix; [exact Hbs|lia].
Qed.

Lemma epoch_batches_are_a_prefix_of_the_shuffled_indices_witness :
  let train_indices := [7; 2; 9; 0; 4; 1; 8; 3; 6; 5]%nat in
  let n := Z.of_nat (length train_indices) in
  let batch_size := invaseBase.effective_batch_size 4 n in
  1 <= n /\
  invaseBase.number_of_batches batch_size n = Ok 2 /\
  concat (invaseBase.epoch_batches train_indices 2 batch_size n)
  = firstn (Z.to_nat (Z.min (Z.max 0 2 * batch_size) (n - 1))) train_indices.
Proof.
  intros train_indices n batch_size.
  assert (H1 : 1 <= n) by (subst n; simpl; lia).
  assert (H2 : invaseBase.number_of_batches batch_size n = Ok 2) by reflexivity.
  split; [exact H1|]. split; [exact H2|].
  exact (epoch_batches_are_a_prefix_of_the_shuffled_indices
           train_indices 4 2 H1 H2).
Defined.

(** Ten training instances in batches of four: [round(2.5) = 2] batches,
    so the last two shuffled instances are left out of the epoch. *)
Example epoch_batches_10_by_4 :
  invaseBase.number_of_batches 4 10 = Ok 2
  /\ invaseBase.epoch_batches [7; 2; 9; 0; 4; 1; 8; 3; 6; 5]%nat 2 4 10
     = [[7; 2; 9; 0]; [4; 1; 8; 3]]%nat.
Proof. split; reflexivity. Qed.

(* --------------------------------------------------------------------- *)
(** *** Invariants of the early-stopping variables *)

Section EarlyStoppingInvariants.

Context {Self Estimator Target : Type}.
Context {V : invaseBase.Variant Self Estimator Target}.
Context {O : Optimizer Target}.
Context {T : Transcendentals}.

Variable self : Self.
Variable estimator : Estimator.
Variables x_train y_train x_test y_test : Tensor2.

(** X11.  Over any number of epochs the patience counter stays
    non-negative and the best validation loss never increases: it stays at
    or below the 99999999 it starts from. *)
Theorem early_stopping_variables_invariant
        (n_batches batch_size : Z) (todo : list Z)
        (st st' : invaseBase.TrainState Target) w w' :
  0 <= invaseBase.st_patience st ->
  invaseBase.epoch_loop self estimator x_train y_train x_test y_test
                        n_batches batch_size todo st w = Ok (st', w') ->
  0 <= invaseBase.st_patience st'
  /\ (invaseBase.st_best_val_loss st' <= invaseBase.st_best_val_loss st)%Q.
Proof.
  revert st w. induction todo as [|e todo IH]; intros st w Hpos H; simpl in H.
  - apply ret_ok in H. destruct H as [-> _]. split; [exact Hpos|apply Qle_refl].
  - apply bind_ok in H. destruct H as ([st1 stop] & w1 & Hepoch & H).
    apply train_epoch_spec in Hepoch.
    destruct Hepoch as (critic_now & w2 & Hval & _ & _ & _).
    apply validate_spec in Hval. destruct Hval as (Hp & Hoff & Hon).
    assert (Hstep : 0 <= invaseBase.st_patience st1
                    /\ (invaseBase.st_best_val_loss st1
                        <= invaseBase.st_best_val_loss st)%Q).
    { destruct (Z.eq_dec (e mod invaseBase.n_epoch_print (invaseBase.config self)) 0)
        as [Hm|Hm].
      - destruct (Hon Hm) as (imp & w3 & pred & vl & _ & _ & _ & Hes).
        apply early_stopping_spec in Hes. destruct Hes as (Hless & Hmore & _).
        destruct (Qlt_le_dec vl (invaseBase.st_best_val_loss st)) as [Hlt|Hge].
        + destruct (Hless Hlt) as [-> ->].
          split; [lia|apply Qlt_le_weak; exact Hlt].
        + destruct (Hmore (Qle_not_lt _ _ Hge)) as [-> ->].
          split; [lia|apply Qle_refl].
      - destruct (Hoff Hm) as (-> & -> & _).
        split; [exact Hpos|apply Qle_refl]. }
    destruct Hstep as [Hpos1 Hbest1].
    destruct stop.
    + apply ret_ok in H. destruct H as [-> _]. split; assumption.
    + destruct (IH st1 w1 Hpos1 H) as [Hpos' Hbest'].
      split; [exact Hpos'|]. eapply Qle_trans; eassumption.
Qed.

End EarlyStoppingInvariants.

Lemma early_stopping_variables_invariant_witness :
  0 <= invaseBase.st_patience short_initial_state /\
  @invaseBase.epoch_loop _ _ _ (@invaseClassifier.variant rational_stand_ins exact_floats)
    idle_optimizer rational_stand_ins
    short_classifier echo_estimator
    short_x_train short_y_train short_x_test short_y_test
    2 2 (Py.range 0 5) short_initial_state (mkWorld [] [])
  = Ok (short_final_state, short_final_world) /\
  0 <= invaseBase.st_patience short_final_state
  /\ (invaseBase.st_best_val_loss short_final_state
      <= invaseBase.st_best_val_loss short_initial_state)%Q.
Proof.
  assert (H1 : 0 <= invaseBase.st_patience short_initial_state) by (simpl; lia).
  assert (H2 : @invaseBase.epoch_loop _ _ _
                 (@invaseClassifier.variant rational_stand_ins exact_floats)
                 idle_optimizer rational_stand_ins
                 short_classifier echo_estimator
                 short_x_train short_y_train short_x_test short_y_test
                 2 2 (Py.range 0 5) short_initial_state (mkWorld [] [])
               = Ok (short_final_state, short_final_world))
    by (vm_compute; reflexivity).
  split; [exact H1|]. split; [exact H2|].
  exact (@early_stopping_variables_invariant _ _ _
           (@invaseClassifier.variant rational_stand_ins exact_floats)
           idle_optimizer rational_stand_ins
           short_classifier echo_estimator
           short_x_train short_y_train short_x_test short_y_test
           2 2 (Py.range 0 5) short_initial_state short_final_state
           (mkWorld [] []) short_final_world H1 H2).
Defined.

(* --------------------------------------------------------------------- *)
(** *** The builders and the input checks of the masking layer *)

Lemma raises_only_bind_ok {A B} P (c : M A) (k : A -> M B) :
  raises_only P c ->
  (forall w a w1, c w = Ok (a, w1) -> forall e, k a w1 = Err e -> P e) ->
  raises_only P (bind c k).
Proof.
  intros Hc Hk w e. unfold bind.
  destruct (c w) as [[a w1]|e1] eqn:Hcw.
  - apply (Hk w a w1 Hcw).
  - intros H. injection H as <-. eapply Hc. eassumption.
Qed.

Lemma raises_only_for_each_in {A St} P (body : A -> St -> M St) (l : list A) :
  (forall a s, In a l -> raises_only P (body a s)) ->
  forall acc, raises_only P (for_each l body acc).
Proof.
  induction l as [|a l IH]; intros Hb acc; simpl.
  - apply raises_only_ret.
  - apply raises_only_bind; [apply Hb; left; reflexivity|].
    intros s. apply IH. intros a' s' Hin. apply Hb. right. exact Hin.
Qed.

Lemma shuffle_with_raises {A} P (draw_one : M nat) (fuel : nat) :
  raises_only P draw_one ->
  forall l : list A, raises_only P (shuffle_with draw_one fuel l).
Proof.
  intros Hd. induction fuel as [|fuel IH]; intros l; simpl.
  - apply raises_only_ret.
  - destruct l as [|a l']; [apply raises_only_ret|].
    apply raises_only_bind; [exact Hd|intros r].
    apply raises_only_bind; [apply IH|intros rest].
    apply raises_only_ret.
Qed.

Lemma bitmasks_length (size : nat) :
  forall m mask, In mask (bitmasks (Z.of_nat size) m) -> length mask = size.
Proof.
  induction size as [|size IH]; intros m mask; rewrite bitmasks_eq.
  - destruct (m <? Z.of_nat 0) eqn:Hlt.
    + destruct (0 <? m) eqn:Hpos.
      * apply Z.ltb_lt in Hlt. apply Z.ltb_lt in Hpos. simpl in Hlt. lia.
      * intros [<-|[]]. reflexivity.
    + intros [<-|[]]. reflexivity.
  - destruct (m <? Z.of_nat (S size)) eqn:Hlt.
    + destruct (0 <? m) eqn:Hpos.
      * replace (Z.of_nat (S size) - 1) with (Z.of_nat size) by lia.
        intros H. apply in_app_or in H.
        destruct H as [H|H]; apply in_map_iff in H;
          destruct H as (t & <- & Ht); apply IH in Ht; simpl; lia.
      * intros [<-|[]]. unfold Py.replicate.
        rewrite repeat_length. lia.
    + intros [<-|[]]. unfold Py.replicate. rewrite repeat_length. lia.
Qed.

Lemma bitmask_intervals_length (size : nat) (low high : Z) (mask : list Z) :
  In mask (bitmask_intervals (Z.of_nat size) low high) -> length mask = size.
Proof.
  unfold bitmask_intervals. intros H. apply in_flat_map in H.
  destruct H as (k & _ & H). eapply bitmasks_length. exact H.
Qed.

Lemma insert_by_length key i (l : list nat) :
  length (insert_by key i l) = S (length l).
Proof.
  induction l as [|j l IH]; simpl; [reflexivity|].
  destruct (key i <? key j)%nat; simpl; [reflexivity|].
  rewrite IH. reflexivity.
Qed.

Lemma argsort_length (values : list nat) : length (argsort values) = length values.
Proof.
  unfold argsort.
  assert (H : forall key idx,
             length (fold_right (insert_by key) [] idx) = length idx).
  { intros key idx. induction idx as [|i idx IH]; simpl; [reflexivity|].
    rewrite insert_by_length, IH. reflexivity. }
  rewrite H. apply length_seq.
Qed.

Lemma permute_rows_shape (k : nat) (next_mask : list (list Z)) w permuted w' :
  permute_rows next_mask w = Ok (permuted, w') ->
  Forall (fun row => length row = k) next_mask ->
  Forall (fun row => length row = k) permuted.
Proof.
  unfold permute_rows. intros H Hall. apply map_m_forall2 in H.
  induction H as [|row row' rows rows' Hrow _ IH]; [constructor|].
  inversion Hall as [|? ? Hk Hrest]; subst.
  constructor; [|apply IH; exact Hrest].
  destruct Hrow as (w1 & w2 & Hrow).
  apply bind_ok in Hrow. destruct Hrow as (values & w3 & Hvalues & Hrow).
  apply ret_ok in Hrow. destruct Hrow as [-> _].
  rewrite length_map, argsort_length.
  unfold torch_rand in Hvalues. apply map_m_length in Hvalues.
  rewrite length_seq in Hvalues. exact Hvalues.
Qed.

Lemma Forall_slice {A} (P : A -> Prop) (l : list A) (start stop : Z) :
  Forall P l -> Forall P (Py.slice l start stop).
Proof.
  intros H. unfold Py.slice.
  set (s := Z.to_nat _). set (e := Z.to_nat _).
  rewrite <- (firstn_skipn e l) in H. apply Forall_app in H.
  destruct H as [_ H].
  rewrite <- (firstn_skipn s (skipn e l)) in H. apply Forall_app in H.
  destruct H as [H _]. exact H.
Qed.

Lemma min_last_error t e : min_last t = Err e -> e = TorchError.
Proof.
  intros H. apply sequence_map_error in H. destruct H as (row & _ & H).
  destruct row; simpl in H; [injection H as <-; reflexivity|discriminate].
Qed.

Lemma max_last_error t e : max_last t = Err e -> e = TorchError.
Proof.
  intros H. apply sequence_map_error in H. destruct H as (row & _ & H).
  destruct row; simpl in H; [injection H as <-; reflexivity|discriminate].
Qed.

Lemma normalize_normal_error {F : Floats} t e :
  invaseClassifier.normalize_normal t = Err e -> e = TorchError.
Proof.
  unfold invaseClassifier.normalize_normal.
  destruct (min_last t) as [mins|e1] eqn:Hmins.
  - destruct (max_last _) as [maxs|e2] eqn:Hmaxs; [discriminate|].
    intros H. injection H as <-. eapply max_last_error. exact Hmaxs.
  - intros H. injection H as <-. eapply min_last_error. exact Hmins.
Qed.

Lemma normalize_optimized_error {F : Floats} t e :
  invaseClassifier.normalize_optimized t = Err e -> e = TorchError.
Proof.
  unfold invaseClassifier.normalize_optimized.
  destruct (min_last t) as [mins|e1] eqn:Hmins.
  - destruct (max_last _) as [maxs|e2] eqn:Hmaxs; [discriminate|].
    intros H. injection H as <-. eapply max_last_error. exact Hmaxs.
  - intros H. injection H as <-. eapply min_last_error. exact Hmins.
Qed.

(** The layer accepts a well-shaped feature batch with a selection batch of
    the same row length; on a feature batch without rows it fails at
    [features_vector[0]]. *)
Lemma forward_accepts {F : Floats} (self : Masking.t) (a b : Tensor2) :
  well_shaped self a ->
  (a <> [] -> well_shaped self b) ->
  raises_only not_runtime_error (Masking.forward self [a; b]).
Proof.
  intros Ha Hb. unfold Masking.forward. cbn [length Nat.eqb negb nth].
  destruct a as [|f0 a'].
  { intros w e H. cbv in H. injection H as <-. reflexivity. }
  specialize (Hb ltac:(discriminate)).
  inversion Ha as [|? ? Hf0 _]; subst.
  cbn [first_row]. apply raises_only_bind_ok.
  { intros w e H. discriminate. }
  intros w f w1 Hf. apply lift_ok in Hf. destruct Hf as [Hf ->].
  injection Hf as <-. rewrite Hf0, Nat.eqb_refl. cbn [negb].
  destruct b as [|s0 b'].
  { intros e H. cbv in H. injection H as <-. reflexivity. }
  inversion Hb as [|? ? Hs0 _]; subst.
  cbn [first_row].
  apply (raises_only_bind_ok not_runtime_error).
  { intros w0 e H. discriminate. }
  intros w0 s w2 Hs. apply lift_ok in Hs. destruct Hs as [Hs ->].
  injection Hs as <-. rewrite Hs0, Nat.eqb_refl. cbn [negb].
  apply (raises_only_bind not_runtime_error).
  - intros w3 e H. apply draw_replacements_errors in H. subst e. reflexivity.
  - intros drawn. destruct (_ =? 0)%nat.
    + apply raises_only_raise. reflexivity.
    + apply raises_only_bind.
      * apply raises_only_lift. intros e H.
        apply elementwise_error in H. subst e. reflexivity.
      * intros kept. apply raises_only_bind.
        -- apply raises_only_lift. intros e H.
           apply elementwise_error in H. subst e. reflexivity.
        -- intros replaced. apply raises_only_bind.
           ++ apply raises_only_lift. intros e H.
              apply elementwise_error in H. subst e. reflexivity.
           ++ intros result. apply raises_only_ret.
Qed.

Lemma window_loop_raises {St} (P : PyError -> Prop) (Q : list Z -> Prop)
      (n : nat) (turn : list (list Z) -> St -> M St) :
  P TorchError -> P OutOfFuel ->
  (forall next_mask s, Forall Q next_mask -> raises_only P (turn next_mask s)) ->
  forall fuel next_slice generator importance,
    Forall Q next_slice -> Forall Q generator ->
    raises_only P (window_loop fuel n turn next_slice generator importance).
Proof.
  intros Ht Hf Hturn. induction fuel as [|fuel IH];
    intros next_slice generator importance Hslice Hgen; simpl.
  - destruct (_ =? _)%nat; [apply raises_only_raise; exact Hf|apply raises_only_ret].
  - destruct (_ =? _)%nat; [|apply raises_only_ret].
    destruct next_slice as [|m rest].
    + intros w e H. cbv in H. injection H as <-. exact Ht.
    + cbn [torch_stack]. apply raises_only_bind_ok.
      { intros w e H. discriminate. }
      intros w next_mask w1 Hstack. apply lift_ok in Hstack.
      destruct Hstack as [Hstack ->]. injection Hstack as <-.
      apply (raises_only_bind P); [apply Hturn; exact Hslice|].
      intros importance'. unfold Py.islice.
      rewrite <- (firstn_skipn n generator) in Hgen.
      apply Forall_app in Hgen. destruct Hgen as [H1 H2].
      apply IH; assumption.
Qed.

Lemma interaction_windows_raises {St} (P : PyError -> Prop) (Q : list Z -> Prop)
      (n : nat) (turn : list (list Z) -> St -> M St)
      (generator : list (list Z)) (importance : St) :
  P TorchError -> P OutOfFuel ->
  (forall next_mask s, Forall Q next_mask -> raises_only P (turn next_mask s)) ->
  Forall Q generator ->
  raises_only P (interaction_windows n turn generator importance).
Proof.
  intros Ht Hf Hturn Hgen. unfold interaction_windows, Py.islice.
  pose proof Hgen as Hgen'.
  rewrite <- (firstn_skipn n generator) in Hgen'.
  apply Forall_app in Hgen'. destruct Hgen' as [H1 H2].
  apply (window_loop_raises P Q); assumption.
Qed.

Lemma well_shaped_width (masking : Masking.t) (x : Tensor2) :
  well_shaped masking x -> x <> [] ->
  width x = length (Masking.masking_values masking).
Proof.
  intros H Hne. destruct x as [|r x']; [congruence|].
  inversion H; subst. assumption.
Qed.

Lemma permute_rows_raises P (next_mask : list (list Z)) :
  raises_only P (permute_rows next_mask).
Proof.
  unfold permute_rows, torch_rand.
  apply raises_only_map_m. intros row.
  apply raises_only_bind; [|intros values; apply raises_only_ret].
  apply raises_only_map_m. intros i. apply raises_only_torch_draw.
Qed.

Lemma reshape_rows_error n losses e :
  reshape_rows n losses = Err e -> e = TorchError.
Proof.
  unfold reshape_rows.
  destruct ((n =? 0)%nat || (length losses =? 0)%nat);
    [intros H; injection H as <-; reflexivity|].
  destruct (length losses mod n =? 0)%nat;
    [discriminate|intros H; injection H as <-; reflexivity].
Qed.

Lemma reduced_losses_error (masks : list Tensor2) (rows : Tensor2) e :
  sequence (zip_with (fun m losses => max_first (hidden_loss m losses)) masks rows)
  = Err e ->
  e = TorchError.
Proof.
  intros H. apply sequence_error in H.
  revert rows H. induction masks as [|m masks IH]; intros [|r rows] H;
    simpl in H; try contradiction.
  destruct H as [H|H]; [|eapply IH; exact H].
  destruct (hidden_loss m r); simpl in H; [|discriminate].
  injection H as <-. reflexivity.
Qed.

Section BuildersAndValidation.

Context {T : Transcendentals}.
Context {F : Floats}.

Lemma classifier_metric_error (estimator : Classifier) (x y : Tensor2) e :
  invaseClassifier._baseline_metric estimator x y = Err e -> e = AttributeError.
Proof.
  unfold invaseClassifier._baseline_metric.
  destruct (predict_proba estimator); [discriminate|].
  destruct (predict estimator); [discriminate|].
  intros H. injection H as <-. reflexivity.
Qed.

Lemma broadcast_mask_fits (masking : Masking.t) (x : Tensor2) (mask : list Z) low high :
  well_shaped masking x ->
  In mask (bitmask_intervals (Z.of_nat (width x)) low high) ->
  x <> [] ->
  well_shaped masking (broadcast_rows (promote mask) (length x)).
Proof.
  intros Hx Hin Hne. unfold well_shaped, broadcast_rows.
  apply Forall_forall. intros r Hr. apply repeat_spec in Hr. subst r.
  unfold promote. rewrite length_map.
  apply bitmask_intervals_length in Hin. rewrite Hin.
  apply well_shaped_width; assumption.
Qed.

Lemma permuted_masks_fit (masking : Masking.t) (x : Tensor2)
      (next_mask permuted : list (list Z)) w w' :
  well_shaped masking x ->
  Forall (fun m => length m = width x) next_mask ->
  permute_rows next_mask w = Ok (permuted, w') ->
  x <> [] ->
  well_shaped masking (map promote permuted).
Proof.
  intros Hx Hall Hperm Hne. unfold well_shaped.
  apply Forall_map.
  pose proof (permute_rows_shape _ _ _ _ _ Hperm Hall) as Hshape.
  eapply Forall_impl; [|exact Hshape].
  intros row Hrow. cbv beta. unfold promote. rewrite length_map, Hrow.
  apply well_shaped_width; assumption.
Qed.

Lemma generator_fits (x : Tensor2) low high :
  Forall (fun m => length m = width x)
         (bitmask_intervals (Z.of_nat (width x)) low high).
Proof.
  apply Forall_forall. intros m Hm.
  eapply bitmask_intervals_length. exact Hm.
Qed.

Lemma classifier_normal_accepts self estimator x y :
  well_shaped (invaseClassifier.masking self) x ->
  raises_only not_runtime_error
    (invaseClassifier._importance_test_normal self estimator x y).
Proof.
  intros Hx. unfold invaseClassifier._importance_test_normal.
  apply raises_only_bind.
  2:{ intros importance. apply raises_only_lift. intros e H.
      apply normalize_normal_error in H. subst e. reflexivity. }
  unfold invaseClassifier.accumulate_normal.
  apply raises_only_bind.
  - unfold invaseClassifier.leave_one_out_pass.
    apply raises_only_for_each_in. intros mask acc Hin.
    apply raises_only_bind.
    + apply forward_accepts; [exact Hx|].
      eapply broadcast_mask_fits; eassumption.
    + intros masked. apply raises_only_bind; [|intros loss; apply raises_only_ret].
      apply raises_only_lift. intros e H.
      apply classifier_metric_error in H. subst e. reflexivity.
  - intros importance.
    apply (interaction_windows_raises not_runtime_error
             (fun m => length m = width x));
      [reflexivity|reflexivity| |apply generator_fits].
    intros next_mask s Hall. unfold invaseClassifier.inner_passes.
    apply raises_only_for_each. intros local_inter acc.
    apply raises_only_bind_ok.
    + apply permute_rows_raises.
    + intros w permuted w1 Hperm.
      apply (raises_only_bind not_runtime_error).
      * apply forward_accepts; [exact Hx|].
        eapply permuted_masks_fit; eassumption.
      * intros masked.
        apply raises_only_bind; [|intros loss; apply raises_only_ret].
        apply raises_only_lift. intros e H.
        apply classifier_metric_error in H. subst e. reflexivity.
Qed.

Lemma classifier_optimized_accepts self estimator x y :
  well_shaped (invaseClassifier.masking self) x ->
  raises_only not_runtime_error
    (invaseClassifier._importance_test_optimized self estimator x y).
Proof.
  intros Hx. unfold invaseClassifier._importance_test_optimized.
  apply raises_only_bind.
  2:{ intros importance. apply raises_only_lift. intros e H.
      apply normalize_optimized_error in H. subst e. reflexivity. }
  unfold invaseClassifier.accumulate_optimized.
  apply raises_only_bind_ok.
  { apply raises_only_lift. intros e H.
    destruct (bitmask_intervals _ _ _); simpl in H; [|discriminate].
    injection H as <-. reflexivity. }
  intros w all_masks w1 Hstack. apply lift_ok in Hstack.
  destruct Hstack as [Hstack _].
  assert (Hmasks : Forall (fun m => length m = width x) all_masks).
  { pose proof (generator_fits x (Z.of_nat (width x) - 1) (Z.of_nat (width x)))
      as Hgen.
    destruct (bitmask_intervals _ _ _); simpl in Hstack; [discriminate|].
    injection Hstack as <-. exact Hgen. }
  clear Hstack.
  apply (raises_only_bind not_runtime_error).
  - apply raises_only_for_each. intros i acc.
    unfold invaseClassifier.chunk_pass.
    apply raises_only_bind.
    + apply forward_accepts.
      * unfold well_shaped. apply Forall_forall. intros r Hr.
        apply in_concat in Hr. destruct Hr as (rows & Hrows & Hr).
        apply in_map_iff in Hrows. destruct Hrows as (row & <- & Hrow).
        apply repeat_spec in Hr. subst r.
        unfold well_shaped in Hx. rewrite Forall_forall in Hx.
        apply Hx. exact Hrow.
      * intros Hne.
        assert (Hx' : x <> []) by (intros ->; apply Hne; reflexivity).
        unfold well_shaped. apply Forall_forall. intros r Hr.
        apply in_concat in Hr. destruct Hr as (rows & Hrows & Hr).
        apply repeat_spec in Hrows. subst rows.
        apply in_map_iff in Hr. destruct Hr as (m & <- & Hm).
        unfold promote. rewrite length_map.
        pose proof (Forall_slice _ _ i (i + 64) Hmasks) as Hslice.
        rewrite Forall_forall in Hslice. rewrite (Hslice m Hm).
        apply well_shaped_width; assumption.
    + intros masked. apply raises_only_bind.
      { apply raises_only_lift. intros e H.
        apply classifier_metric_error in H. subst e. reflexivity. }
      intros losses. apply raises_only_bind.
      { apply raises_only_lift. intros e H.
        apply reshape_rows_error in H. subst e. reflexivity. }
      intros rows. apply raises_only_bind; [|intros reduced; apply raises_only_ret].
      apply raises_only_lift. intros e H.
      apply reduced_losses_error in H. subst e. reflexivity.
  - intros importance. unfold invaseClassifier.sampled_interactions.
    apply raises_only_for_each. intros level acc.
    apply raises_only_for_each. intros sample_index acc'.
    apply raises_only_bind.
    { unfold torch_randperm. apply shuffle_with_raises.
      apply raises_only_torch_draw. }
    intros permutation. apply raises_only_bind.
    + apply forward_accepts; [exact Hx|]. intros Hne.
      unfold well_shaped. apply Forall_forall. intros r Hr.
      apply repeat_spec in Hr. subst r.
      rewrite length_map, length_seq.
      apply well_shaped_width; assumption.
    + intros masked.
      apply raises_only_bind; [|intros loss; apply raises_only_ret].
      apply raises_only_lift. intros e H.
      apply classifier_metric_error in H. subst e. reflexivity.
Qed.

Lemma column_error idx loss e :
  invaseRiskEstimation.column idx loss = Err e -> e = IndexError.
Proof.
  intros H. apply sequence_map_error in H. destruct H as (row & _ & H).
  destruct (nth_error row idx); [discriminate|].
  injection H as <-. reflexivity.
Qed.

Lemma horizons_pass_accepts self f contribution loss importance :
  raises_only not_runtime_error
    (invaseRiskEstimation.horizons_pass self f contribution loss importance).
Proof.
  unfold invaseRiskEstimation.horizons_pass.
  apply raises_only_for_each. intros idx acc.
  apply raises_only_bind; [|intros loss_at; apply raises_only_ret].
  apply raises_only_lift. intros e H.
  apply column_error in H. subst e. reflexivity.
Qed.

(** X12. With a method the class knows and a batch whose rows have one
    entry per feature distribution, the classification builder reaches
    none of the [raise RuntimeError] statements of the source: every pair
    of tensors it hands to the masking layer, under either strategy, passes
    the three checks the layer makes of its input.  (Failures inside torch
    and numpy are other exceptions of the model and remain possible.) *)
Theorem classification_builder_passes_masking_checks
        (self : invaseClassifier.t) (estimator : Classifier) (x y : Tensor2)
        (w : World) (e : PyError) :
  well_shaped (invaseClassifier.masking self) x ->
  invaseClassifier.method self = "normal"%string
  \/ invaseClassifier.method self = "optimized"%string ->
  invaseClassifier._importance_test self estimator x y w = Err e ->
  forall msg, e <> RuntimeError msg.
Proof.
  intros Hx Hmethod Hrun msg ->.
  assert (H : not_runtime_error (RuntimeError msg)); [|discriminate H].
  revert Hrun. unfold invaseClassifier._importance_test.
  destruct Hmethod as [-> | ->].
  - rewrite String.eqb_refl. intros Hrun.
    eapply classifier_normal_accepts; eassumption.
  - replace (String.eqb "optimized" "normal") with false by reflexivity.
    rewrite String.eqb_refl. intros Hrun.
    eapply classifier_optimized_accepts; eassumption.
Qed.

(** X13. On a batch whose rows have one entry per feature distribution the
    risk-estimation builder reaches none of the [raise RuntimeError]
    statements of the source: every pair of tensors it hands to the masking
    layer passes the three checks the layer makes of its input. *)
Theorem risk_builder_passes_masking_checks
        (self : invaseRiskEstimation.t) (estimator : RiskEstimator)
        (x y : Tensor2) (w : World) (e : PyError) :
  well_shaped (invaseRiskEstimation.masking self) x ->
  invaseRiskEstimation._importance_test self estimator x y w = Err e ->
  forall msg, e <> RuntimeError msg.
Proof.
  intros Hx Hrun msg ->.
  assert (Hall : raises_only not_runtime_error
                   (invaseRiskEstimation._importance_test self estimator x y));
    [|apply Hall in Hrun; discriminate Hrun].
  clear Hrun. unfold invaseRiskEstimation._importance_test.
  apply raises_only_bind.
  - unfold invaseRiskEstimation.leave_one_out_pass.
    apply raises_only_for_each_in. intros mask acc Hin.
    apply raises_only_bind; [|intros masked; apply horizons_pass_accepts].
    apply forward_accepts; [exact Hx|].
    eapply broadcast_mask_fits; eassumption.
  - intros importance.
    apply (interaction_windows_raises not_runtime_error
             (fun m => length m = width x));
      [reflexivity|reflexivity| |apply generator_fits].
    intros next_mask s Hall. unfold invaseRiskEstimation.inner_passes.
    apply raises_only_for_each. intros local_inter acc.
    apply raises_only_bind_ok; [apply permute_rows_raises|].
    intros w0 permuted w1 Hperm.
    apply (raises_only_bind not_runtime_error);
      [|intros masked; apply horizons_pass_accepts].
    apply forward_accepts; [exact Hx|].
    eapply permuted_masks_fit; eassumption.
Qed.

End BuildersAndValidation.

Section BuildersAndValidationExamples.

Local Open Scope Q_scope.

Lemma classification_builder_passes_masking_checks_witness :
  @invaseClassifier._importance_test rational_stand_ins exact_floats
    two_feature_classifier bare_estimator [[0; 1]] [[0; 3]] two_feature_world
  = Err AttributeError
  /\ forall msg, AttributeError <> RuntimeError msg.
Proof.
  assert (Hx : well_shaped (invaseClassifier.masking two_feature_classifier)
                           [[0; 1]])
    by (repeat constructor).
  assert (Hm : invaseClassifier.method two_feature_classifier = "normal"%string
               \/ invaseClassifier.method two_feature_classifier
                  = "optimized"%string)
    by (left; reflexivity).
  assert (Hrun : @invaseClassifier._importance_test rational_stand_ins exact_floats
                   two_feature_classifier bare_estimator [[0; 1]] [[0; 3]]
                   two_feature_world
                 = Err AttributeError)
    by (vm_compute; reflexivity).
  split; [exact Hrun|].
  exact (@classification_builder_passes_masking_checks rational_stand_ins exact_floats
           two_feature_classifier bare_estimator [[0; 1]] [[0; 3]]
           two_feature_world AttributeError Hx Hm Hrun).
Defined.

Lemma risk_builder_passes_masking_checks_witness :
  @invaseRiskEstimation._importance_test rational_stand_ins exact_floats
    one_horizon_explainer columnless_estimator [[1]] [[1]] (mkWorld [] [])
  = Err IndexError
  /\ forall msg, IndexError <> RuntimeError msg.
Proof.
  assert (Hx : well_shaped (invaseRiskEstimation.masking one_horizon_explainer)
                           [[1]])
    by (repeat constructor).
  assert (Hrun : @invaseRiskEstimation._importance_test rational_stand_ins exact_floats
                   one_horizon_explainer columnless_estimator [[1]] [[1]]
                   (mkWorld [] [])
                 = Err IndexError)
    by (vm_compute; reflexivity).
  split; [exact Hrun|].
  exact (@risk_builder_passes_masking_checks rational_stand_ins exact_floats
           one_horizon_explainer columnless_estimator [[1]] [[1]]
           (mkWorld [] []) IndexError Hx Hrun).
Defined.

End BuildersAndValidationExamples.

(* --------------------------------------------------------------------- *)
(** *** The classification target of data with a single feature *)

Lemma for_each_invariant {A St} (I : St -> Prop) (body : A -> St -> M St)
      (l : list A) :
  (forall a s w s' w', I s -> body a s w = Ok (s', w') -> I s') ->
  forall acc w s' w', I acc -> for_each l body acc w = Ok (s', w') -> I s'.
Proof.
  intros Hbody. induction l as [|a l IH]; intros acc w s' w' Hacc H; simpl in H.
  - apply ret_ok in H. destruct H as [-> _]. exact Hacc.
  - apply bind_ok in H. destruct H as (s1 & w1 & H1 & H).
    eapply IH; [|exact H]. eapply Hbody; eassumption.
Qed.

Lemma window_loop_invariant {St} (I : St -> Prop) (n : nat)
      (turn : list (list Z) -> St -> M St) :
  (forall m s w s' w', I s -> turn m s w = Ok (s', w') -> I s') ->
  forall fuel next_slice generator importance w s' w',
    I importance ->
    window_loop fuel n turn next_slice generator importance w = Ok (s', w') ->
    I s'.
Proof.
  intros Hturn. induction fuel as [|fuel IH];
    intros next_slice generator importance w s' w' Hacc H; simpl in H.
  - destruct (_ =? _)%nat; [discriminate|].
    apply ret_ok in H. destruct H as [-> _]. exact Hacc.
  - destruct (_ =? _)%nat.
    + apply bind_ok in H. destruct H as (m & w1 & _ & H).
      apply bind_ok in H. destruct H as (s1 & w2 & H1 & H).
      unfold Py.islice in H. eapply IH; [|exact H].
      eapply Hturn; eassumption.
    + apply ret_ok in H. destruct H as [-> _]. exact Hacc.
Qed.

Lemma zip_rows_bound {A B C} (f : A -> B -> C) (k : nat)
      (a : list (list A)) (b : list (list B)) :
  Forall (fun row => (length row <= k)%nat) a ->
  Forall (fun row => (length row <= k)%nat) (zip_with (zip_with f) a b).
Proof.
  intros Ha. revert b. induction Ha as [|r a Hr _ IH]; intros [|r' b]; simpl;
    try constructor.
  - rewrite zip_with_length. lia.
  - apply IH.
Qed.

Section SingleFeature.

Context {T : Transcendentals}.
Context {F : Floats}.

Local Abbreviation narrow := (Forall (fun row : Tensor1 => (length row <= 1)%nat)).

Lemma accumulate_normal_narrow self estimator x y w raw w' :
  single_feature x ->
  invaseClassifier.accumulate_normal self estimator x y w = Ok (raw, w') ->
  narrow raw.
Proof.
  intros Hx H. unfold invaseClassifier.accumulate_normal in H.
  apply bind_ok in H. destruct H as (importance & w1 & Hloo & H).
  assert (Himp : narrow importance).
  { unfold invaseClassifier.leave_one_out_pass in Hloo.
    eapply (for_each_invariant narrow); [|
      |exact Hloo].
    - intros mask s w0 s' w0' Hs Hbody.
      apply bind_ok in Hbody. destruct Hbody as (masked & w2 & _ & Hbody).
      apply bind_ok in Hbody. destruct Hbody as (loss & w3 & _ & Hbody).
      apply ret_ok in Hbody. destruct Hbody as [-> _].
      apply zip_rows_bound. exact Hs.
    - unfold invaseClassifier._importance_init. apply Forall_map.
      eapply Forall_impl; [|exact Hx].
      intros row Hrow. cbv beta in Hrow |- *. rewrite length_map, Hrow.
      apply Nat.le_refl. }
  unfold interaction_windows, Py.islice in H.
  eapply (window_loop_invariant narrow); [|exact Himp|exact H].
  intros m s w0 s' w0' Hs Hturn.
  unfold invaseClassifier.inner_passes in Hturn.
  eapply (for_each_invariant narrow); [|exact Hs|exact Hturn].
  intros i s0 w2 s2 w3 Hs0 Hbody.
  apply bind_ok in Hbody. destruct Hbody as (mask & w4 & _ & Hbody).
  apply bind_ok in Hbody. destruct Hbody as (masked & w5 & _ & Hbody).
  apply bind_ok in Hbody. destruct Hbody as (loss & w6 & _ & Hbody).
  apply ret_ok in Hbody. destruct Hbody as [-> _].
  apply zip_rows_bound. exact Hs0.
Qed.

Lemma accumulate_optimized_narrow self estimator x y w raw w' :
  single_feature x ->
  invaseClassifier.accumulate_optimized self estimator x y w = Ok (raw, w') ->
  narrow raw.
Proof.
  intros Hx H. unfold invaseClassifier.accumulate_optimized in H.
  apply bind_ok in H. destruct H as (all_masks & w1 & _ & H).
  apply bind_ok in H. destruct H as (importance & w2 & Hchunks & H).
  assert (Himp : narrow importance).
  { eapply (for_each_invariant narrow); [| |exact Hchunks].
    - intros i s w0 s' w0' Hs Hbody.
      unfold invaseClassifier.chunk_pass in Hbody.
      apply bind_ok in Hbody. destruct Hbody as (masked & w3 & _ & Hbody).
      apply bind_ok in Hbody. destruct Hbody as (losses & w4 & _ & Hbody).
      apply bind_ok in Hbody. destruct Hbody as (rows & w5 & _ & Hbody).
      apply bind_ok in Hbody. destruct Hbody as (reduced & w6 & _ & Hbody).
      apply ret_ok in Hbody. destruct Hbody as [-> _].
      apply zip_rows_bound. exact Hs.
    - unfold invaseClassifier._importance_init. apply Forall_map.
      eapply Forall_impl; [|exact Hx].
      intros row Hrow. cbv beta in Hrow |- *. rewrite length_map, Hrow.
      apply Nat.le_refl. }
  unfold invaseClassifier.sampled_interactions in H.
  eapply (for_each_invariant narrow); [|exact Himp|exact H].
  intros level s w0 s' w0' Hs Hlevel.
  eapply (for_each_invariant narrow); [|exact Hs|exact Hlevel].
  intros i s0 w3 s3 w4 Hs0 Hbody.
  apply bind_ok in Hbody. destruct Hbody as (permutation & w5 & _ & Hbody).
  apply bind_ok in Hbody. destruct Hbody as (masked & w6 & _ & Hbody).
  apply bind_ok in Hbody. destruct Hbody as (loss & w7 & _ & Hbody).
  apply ret_ok in Hbody. destruct Hbody as [-> _].
  apply zip_rows_bound. exact Hs0.
Qed.

Lemma normalized_narrow_rows (raw target : Tensor2) :
  narrow raw ->
  Forall2 normalized_from raw target ->
  Forall (fun row => Forall2 Qeq row [0%Q]) target.
Proof.
  intros Hraw Hnorm.
  induction Hnorm as [|r t raw target Hrt _ IH]; [constructor|].
  inversion Hraw as [|? ? Hr Hrest]; subst.
  constructor; [|apply IH; exact Hrest].
  destruct Hrt as (Hne & Hlen & _ & Hleast & _).
  destruct r as [|v r']; [congruence|].
  destruct r' as [|v' r']; [|simpl in Hr; lia].
  destruct t as [|u t']; [discriminate|].
  destruct t' as [|u' t']; [|discriminate].
  simpl in Hleast. constructor; [exact Hleast|constructor].
Qed.

(** X14. On data with a single feature the classification builder has
    nothing to tell apart: every row of the accumulated losses has one
    entry, which is its own minimum, so whenever the builder returns, the
    target the critic is trained on is 0 for every instance, whatever the
    data, the labels, the estimator and the random draws are. *)
Theorem single_feature_target_is_zero
        (self : invaseClassifier.t) (estimator : Classifier) (x y : Tensor2)
        (w : World) (target : Tensor2) (w' : World) :
  single_feature x ->
  invaseClassifier._importance_test self estimator x y w = Ok (target, w') ->
  Forall (fun row => Forall2 Qeq row [0%Q]) target.
Proof.
  intros Hx. unfold invaseClassifier._importance_test.
  destruct (String.eqb _ "normal").
  - unfold invaseClassifier._importance_test_normal. intros H.
    apply bind_ok in H. destruct H as (raw & w1 & Hraw & H).
    apply lift_ok in H. destruct H as [H _].
    apply normalize_normal_rows in H.
    eapply normalized_narrow_rows; [|exact H].
    eapply accumulate_normal_narrow; eassumption.
  - destruct (String.eqb _ "optimized"); [|discriminate].
    unfold invaseClassifier._importance_test_optimized. intros H.
    apply bind_ok in H. destruct H as (raw & w1 & Hraw & H).
    apply lift_ok in H. destruct H as [H _].
    apply normalize_optimized_rows in H.
    eapply normalized_narrow_rows; [|exact H].
    eapply accumulate_optimized_narrow; eassumption.
Qed.

End SingleFeature.

Section SingleFeatureExamples.

Local Open Scope Q_scope.

Lemma single_feature_target_is_zero_witness :
  @invaseClassifier._importance_test rational_stand_ins exact_floats
    short_classifier echo_estimator [[0]; [1]] [[1]; [0]]
    (mkWorld [1; 0; 1]%nat [])
  = Ok (single_feature_target, single_feature_final_world)
  /\ Forall (fun row => Forall2 Qeq row [0]) single_feature_target.
Proof.
  assert (Hx : single_feature [[0]; [1]]) by (repeat constructor).
  assert (Hrun : @invaseClassifier._importance_test rational_stand_ins exact_floats
                   short_classifier echo_estimator [[0]; [1]] [[1]; [0]]
                   (mkWorld [1; 0; 1]%nat [])
                 = Ok (single_feature_target, single_feature_final_world))
    by (vm_compute; reflexivity).
  split; [exact Hrun|].
  exact (@single_feature_target_is_zero rational_stand_ins exact_floats
           short_classifier echo_estimator [[0]; [1]] [[1]; [0]]
           (mkWorld [1; 0; 1]%nat []) single_feature_target
           single_feature_final_world Hx Hrun).
Defined.

End SingleFeatureExamples.

(* --------------------------------------------------------------------- *)
(** *** The shape of the explanations *)

Lemma sequence_map_length {A B} (g : A -> Result B) (l : list A) rs :
  sequence (map g l) = Ok rs -> length rs = length l.
Proof.
  intros H. apply sequence_map_ok in H.
  symmetry. eapply Forall2_length. exact H.
Qed.

Lemma chunk_rec_shape {A} (k : nat) :
  (0 < k)%nat ->
  forall (rows fuel : nat) (l : list A),
    length l = (rows * k)%nat -> (rows <= fuel)%nat ->
    length (chunk_rec fuel k l) = rows
    /\ Forall (fun row => length row = k) (chunk_rec fuel k l).
Proof.
  intros Hk. induction rows as [|rows IH]; intros fuel l Hlen Hfuel.
  - destruct l; [|discriminate]. destruct fuel; simpl; split; constructor.
  - destruct fuel as [|fuel]; [lia|].
    destruct l as [|a l']; [simpl in Hlen; lia|].
    cbn [chunk_rec].
    destruct (IH fuel (skipn k (a :: l'))) as [IHl IHr].
    + rewrite length_skipn, Hlen. simpl. lia.
    + lia.
    + split.
      * cbn [length]. rewrite IHl. reflexivity.
      * constructor; [|exact IHr].
        rewrite length_firstn, Hlen. simpl. lia.
Qed.

Lemma chunk_shape {A} (k rows : nat) (l : list A) :
  (0 < k)%nat -> length l = (rows * k)%nat ->
  length (chunk k l) = rows /\ Forall (fun row => length row = k) (chunk k l).
Proof.
  intros Hk Hlen. unfold chunk. apply chunk_rec_shape; [exact Hk|exact Hlen|].
  rewrite Hlen. nia.
Qed.

Section ExplanationShapes.

Context {T : Transcendentals}.

Lemma layer_forward_rows (training : bool) (layer : Layer) (x : Tensor2) w out w' :
  layer_forward training layer x w = Ok (out, w') -> length out = length x.
Proof.
  destruct layer as [weight bias| | |p|]; cbn [layer_forward]; intros H.
  - apply lift_ok in H. destruct H as [H _].
    eapply sequence_map_length. exact H.
  - apply ret_ok in H. destruct H as [-> _]. apply length_map.
  - apply ret_ok in H. destruct H as [-> _]. apply length_map.
  - destruct training.
    + eapply map_m_length. exact H.
    + apply ret_ok in H. destruct H as [-> _]. reflexivity.
  - apply ret_ok in H. destruct H as [-> _]. apply length_map.
Qed.

Lemma call_rows (critic : Sequential) (x : Tensor2) w out w' :
  call critic x w = Ok (out, w') -> length out = length x.
Proof.
  unfold call. intros H.
  eapply (for_each_invariant (fun s : Tensor2 => length s = length x));
    [|reflexivity|exact H].
  intros layer s w0 s' w0' Hs Hlayer.
  apply layer_forward_rows in Hlayer. congruence.
Qed.

(** X15. Whatever layers the critic has, an explanation of the
    risk-estimation variant that is returned has one block per instance of
    [X], one row per feature in each block, and one score per evaluation
    horizon in each row: the shape [(len(X), X.shape[1],
    len(eval_times))] of the reshape. *)
Theorem risk_explanation_shape
        (self : invaseRiskEstimation.t) (X : Tensor2) (w : World)
        (out : Tensor3) (w' : World) :
  invaseRiskEstimation.explain self X w = Ok (out, w') ->
  length out = length X
  /\ Forall (fun instance =>
               length instance = width X
               /\ Forall (fun scores =>
                            length scores
                            = length (invaseRiskEstimation.eval_times self))
                         instance)
            out.
Proof.
  unfold invaseRiskEstimation.explain. intros H.
  apply bind_ok in H. destruct H as (flat & w1 & Hcall & H).
  apply call_rows in Hcall.
  destruct (forallb _ flat) eqn:Hflat; [|discriminate].
  apply ret_ok in H. destruct H as [-> _].
  split; [rewrite length_map; exact Hcall|].
  apply Forall_map. apply Forall_forall. intros row Hrow.
  rewrite forallb_forall in Hflat. specialize (Hflat row Hrow).
  apply Nat.eqb_eq in Hflat.
  destruct (length (invaseRiskEstimation.eval_times self) =? 0)%nat eqn:Hzero.
  - apply Nat.eqb_eq in Hzero. rewrite Hzero. split.
    + apply repeat_length.
    + apply Forall_forall. intros scores Hs.
      apply repeat_spec in Hs. subst scores. reflexivity.
  - apply Nat.eqb_neq in Hzero. apply chunk_shape; [lia|exact Hflat].
Qed.

(** X16. Whatever layers the critic has, an explanation of the
    classification variant that is returned has one row of scores per row
    of [X]: no layer of the critic, dropout included, adds or removes an
    instance. *)
Theorem classification_explanation_scores_every_instance
        (self : invaseClassifier.t) (X : Tensor2)
        (w : World) (out : Tensor2) (w' : World) :
  invaseClassifier.explain self X w = Ok (out, w') -> length out = length X.
Proof.
  unfold invaseClassifier.explain. intros H.
  apply bind_ok in H. destruct H as (gen_prob & w1 & Hcall & H).
  apply ret_ok in H. destruct H as [-> _].
  eapply call_rows. exact Hcall.
Qed.

(** X17. An explanation of the ensemble that is returned has one row of
    scores per row of [x]: the mean over the folds keeps the rows of the
    folds' outputs, each of which has one row per instance. *)
Theorem ensemble_explanation_scores_every_instance
        (self : invaseCV.t) (x : Tensor2)
        (w : World) (out : Tensor2) (w' : World) :
  invaseCV.explain self x w = Ok (out, w') -> length out = length x.
Proof.
  unfold invaseCV.explain. intros H.
  apply bind_ok in H. destruct H as (outs & w1 & Houts & H).
  apply lift_ok in H. destruct H as [H _].
  unfold np_mean_axis0 in H.
  destruct outs as [|first rest]; [discriminate|].
  destruct (forallb (same_shape first) rest) eqn:Hshape; [|discriminate].
  injection H as <-. rewrite length_map.
  assert (Hall : Forall (shape_eq first) rest).
  { apply Forall_forall. intros c Hc. apply same_shape_spec.
    rewrite forallb_forall in Hshape. apply Hshape. exact Hc. }
  destruct (fold_total_shape rest first Hall) as [Hrows _].
  rewrite Hrows.
  apply map_m_forall2 in Houts.
  inversion Houts as [|fold ? folds ? Hfirst _]; subst.
  destruct Hfirst as (w2 & w3 & Hfirst).
  unfold invaseClassifier.explain in Hfirst.
  apply bind_ok in Hfirst. destruct Hfirst as (gen_prob & w4 & Hcall & Hfirst).
  apply ret_ok in Hfirst. destruct Hfirst as [-> _].
  eapply call_rows. exact Hcall.
Qed.

End ExplanationShapes.

Section ExplanationShapesExamples.

Local Open Scope Q_scope.

Lemma risk_explanation_shape_witness :
  @invaseRiskEstimation.explain rational_stand_ins one_horizon_explainer
    [[1]; [2]] (mkWorld [] [])
  = Ok (one_horizon_explanation, mkWorld [] [])
  /\ length one_horizon_explanation = 2%nat
  /\ Forall (fun instance : Tensor2 =>
               length instance = 1%nat
               /\ Forall (fun scores : Tensor1 => length scores = 1%nat) instance)
            one_horizon_explanation.
Proof.
  assert (Hrun : @invaseRiskEstimation.explain rational_stand_ins
                   one_horizon_explainer [[1]; [2]] (mkWorld [] [])
                 = Ok (one_horizon_explanation, mkWorld [] []))
    by (vm_compute; reflexivity).
  split; [exact Hrun|].
  exact (@risk_explanation_shape rational_stand_ins one_horizon_explainer
           [[1]; [2]] (mkWorld [] []) one_horizon_explanation (mkWorld [] [])
           Hrun).
Defined.

Lemma classification_explanation_scores_every_instance_witness :
  @invaseClassifier.explain rational_stand_ins example_classifier
    [[1]; [2]] example_explanation_world
  = Ok (example_explanation, example_explanation_final_world)
  /\ length example_explanation = 2%nat.
Proof.
  assert (Hrun : @invaseClassifier.explain rational_stand_ins example_classifier
                   [[1]; [2]] example_explanation_world
                 = Ok (example_explanation, example_explanation_final_world))
    by (vm_compute; reflexivity).
  split; [exact Hrun|].
  exact (@classification_explanation_scores_every_instance rational_stand_ins
           example_classifier [[1]; [2]] example_explanation_world
           example_explanation example_explanation_final_world Hrun).
Defined.

Lemma ensemble_explanation_scores_every_instance_witness :
  @invaseCV.explain rational_stand_ins example_ensemble [[1]]
    example_ensemble_world
  = Ok (example_ensemble_output, example_ensemble_final_world)
  /\ length example_ensemble_output = 1%nat.
Proof.
  assert (Hrun : @invaseCV.explain rational_stand_ins example_ensemble [[1]]
                   example_ensemble_world
                 = Ok (example_ensemble_output, example_ensemble_final_world))
    by (vm_compute; reflexivity).
  split; [exact Hrun|].
  exact (@ensemble_explanation_scores_every_instance rational_stand_ins
           example_ensemble [[1]] example_ensemble_world
           example_ensemble_output example_ensemble_final_world Hrun).
Defined.

End ExplanationShapesExamples.
